(** * ai-remote-control: provider adapters, task executor and chat loop

    A shallow embedding of the server's normalisation-and-orchestration
    core:
    - [server/src/providers/base.provider.ts] ([BaseAIProvider.retry]),
    - the Ollama, MiniMax, DeepSeek and Claude providers ([stream], [chat]),
    - [server/src/tools/index.ts] ([ToolRegistry]),
    - [server/src/executor/task.executor.ts] ([TaskExecutor]),
    - [server/src/services/ai.service.ts] and
      [server/src/services/chat.service.ts] ([ChatService]).

    JavaScript values are modelled as the runtime has them: strings are
    sequences of UTF-16 code units, values read off the wire are untyped
    JSON values, exceptions are explicit results, and the sources of
    non-determinism ([Date.now], [Math.random], the HTTP peer, the tools)
    are oracles indexed by a tick counter that the state threads along. *)

From Stdlib Require Import ZArith NArith List String Ascii Lia Bool.
From stdpp Require Import base option list gmap.
Import ListNotations.

(** ** JavaScript strings *)

Module JS.

(** A JavaScript string: its UTF-16 code units. *)
Definition jsstring := list N.

(** Literals are written in the file's UTF-8 and decoded to code units. *)
Fixpoint utf16_of_utf8 (bs : list N) : jsstring :=
  match bs with
  | [] => []
  | b0 :: r0 =>
    if (b0 <? 0x80)%N then b0 :: utf16_of_utf8 r0
    else match r0 with
    | [] => [0xFFFD%N]
    | b1 :: r1 =>
      if (b0 <? 0xE0)%N then
        N.lor (N.shiftl (N.land b0 0x1F) 6) (N.land b1 0x3F) :: utf16_of_utf8 r1
      else match r1 with
      | [] => [0xFFFD%N]
      | b2 :: r2 =>
        if (b0 <? 0xF0)%N then
          N.lor (N.shiftl (N.land b0 0x0F) 12)
            (N.lor (N.shiftl (N.land b1 0x3F) 6) (N.land b2 0x3F))
          :: utf16_of_utf8 r2
        else match r2 with
        | [] => [0xFFFD%N]
        | b3 :: r3 =>
          let cp :=
            N.lor (N.shiftl (N.land b0 0x07) 18)
              (N.lor (N.shiftl (N.land b1 0x3F) 12)
                 (N.lor (N.shiftl (N.land b2 0x3F) 6) (N.land b3 0x3F))) in
          let c := (cp - 0x10000)%N in
          (0xD800 + N.shiftr c 10)%N :: (0xDC00 + N.land c 0x3FF)%N
          :: utf16_of_utf8 r3
        end
      end
    end
  end.

Definition js (s : string) : jsstring :=
  utf16_of_utf8 (map N_of_ascii (list_ascii_of_string s)).
Arguments js _%_string : simpl never.

(** A literal in which the apostrophe stands for the double quote. *)
Definition jsq (s : string) : jsstring :=
  map (fun c => if (c =? 39)%N then 34%N else c) (js s).
Arguments jsq _%_string : simpl never.

(** The code unit of an ASCII character. *)
Definition ch (a : ascii) : N := N_of_ascii a.
Arguments ch _%_char.

Definition isc (c : N) (a : ascii) : bool := (c =? N_of_ascii a)%N.
Arguments isc _ _%_char.

Fixpoint str_eqb (a b : jsstring) : bool :=
  match a, b with
  | [], [] => true
  | x :: a', y :: b' => (x =? y)%N && str_eqb a' b'
  | _, _ => false
  end.

(** [s.startsWith(p)], returning what follows the prefix. *)
Fixpoint strip_prefix (p s : jsstring) : option jsstring :=
  match p, s with
  | [], _ => Some s
  | x :: p', y :: s' => if (x =? y)%N then strip_prefix p' s' else None
  | _ :: _, [] => None
  end.

Definition startsWith (s p : jsstring) : bool :=
  match strip_prefix p s with Some _ => true | None => false end.

(** [WhiteSpace] and [LineTerminator] code units: what [String.prototype.trim]
    strips and what [\s] matches. *)
Definition is_space (c : N) : bool :=
  ((9 <=? c) && (c <=? 13) || (c =? 32) || (c =? 0xA0) || (c =? 0x1680)
   || (0x2000 <=? c) && (c <=? 0x200A) || (c =? 0x2028) || (c =? 0x2029)
   || (c =? 0x202F) || (c =? 0x205F) || (c =? 0x3000) || (c =? 0xFEFF))%N.

(** [\w]: ASCII letters, digits and underscore. *)
Definition is_word (c : N) : bool :=
  ((48 <=? c) && (c <=? 57) || (65 <=? c) && (c <=? 90)
   || (97 <=? c) && (c <=? 122) || (c =? 95))%N.

Definition is_digit (c : N) : bool := ((48 <=? c) && (c <=? 57))%N.

(** Longest prefix whose code units satisfy [p], and the rest. *)
Fixpoint span (p : N -> bool) (s : jsstring) : jsstring * jsstring :=
  match s with
  | [] => ([], [])
  | c :: r => if p c then let '(a, b) := span p r in (c :: a, b) else ([], s)
  end.

Fixpoint skip (p : N -> bool) (s : jsstring) : jsstring :=
  match s with
  | [] => []
  | c :: r => if p c then skip p r else s
  end.

Definition trimStart (s : jsstring) : jsstring := skip is_space s.
Definition trimEnd (s : jsstring) : jsstring := rev (skip is_space (rev s)).
Definition trim (s : jsstring) : jsstring := trimEnd (trimStart s).

(** [pieces.join(sep)]. *)
Fixpoint join (sep : jsstring) (pieces : list jsstring) : jsstring :=
  match pieces with
  | [] => []
  | [p] => p
  | p :: rest => p ++ sep ++ join sep rest
  end.

(** [buffer.split('\n')] followed by [lines.pop() || '']: the complete lines
    and the unterminated remainder. *)
Fixpoint split_lines_from (cur : jsstring) (s : jsstring)
  : list jsstring * jsstring :=
  match s with
  | [] => ([], cur)
  | c :: r =>
    if (c =? 10)%N then
      let '(ls, last) := split_lines_from [] r in (cur :: ls, last)
    else split_lines_from (cur ++ [c]) r
  end.

Definition split_lines (buffer : jsstring) : list jsstring * jsstring :=
  split_lines_from [] buffer.

(** A lazy [.*?] followed by the literal [close]: the shortest text before
    [close], and what follows [close]. *)
Fixpoint until_close (close : jsstring) (s : jsstring) : option (jsstring * jsstring) :=
  match strip_prefix close s with
  | Some rest => Some ([], rest)
  | None =>
    match s with
    | [] => None
    | c :: r =>
      match until_close close r with
      | Some (v, rest) => Some (c :: v, rest)
      | None => None
      end
    end
  end.

(** Number of positions of [s] at which [pat] occurs. *)
Fixpoint count_sub (pat s : jsstring) : nat :=
  match s with
  | [] => 0
  | _ :: r => (if startsWith s pat then 1 else 0) + count_sub pat r
  end.

(** Decimal digits of a natural number, as code units. *)
Fixpoint uint_units (u : Decimal.uint) : jsstring :=
  match u with
  | Decimal.Nil => []
  | Decimal.D0 u => ch "0" :: uint_units u
  | Decimal.D1 u => ch "1" :: uint_units u
  | Decimal.D2 u => ch "2" :: uint_units u
  | Decimal.D3 u => ch "3" :: uint_units u
  | Decimal.D4 u => ch "4" :: uint_units u
  | Decimal.D5 u => ch "5" :: uint_units u
  | Decimal.D6 u => ch "6" :: uint_units u
  | Decimal.D7 u => ch "7" :: uint_units u
  | Decimal.D8 u => ch "8" :: uint_units u
  | Decimal.D9 u => ch "9" :: uint_units u
  end.

Definition N_toString (n : N) : jsstring := uint_units (N.to_uint n).

(** Value of a run of decimal digits. *)
Definition digits_value (ds : jsstring) : N :=
  fold_left (fun acc d => (acc * 10 + (d - 48))%N) ds 0%N.

(** [s.includes(pat)]. *)
Fixpoint includes (s pat : jsstring) : bool :=
  startsWith s pat
  || match s with
     | [] => false
     | _ :: r => includes r pat
     end.

(** A code unit of the ASCII range. *)
Definition is_ascii (c : N) : bool := (c <? 128)%N.

(** What [String.prototype.toLowerCase] does to a string of ASCII code
    units: the letters [A] to [Z] become [a] to [z]. *)
Definition ascii_lower (s : jsstring) : jsstring :=
  map (fun c => if ((65 <=? c) && (c <=? 90))%N then (c + 32)%N else c) s.

End JS.
Export JS.

(** ** JSON values, [JSON.parse], [JSON.stringify] and the coercions *)

Module JSON.

(** A finite JavaScript number, kept as the exact decimal [mant * 10 ^ exp10]
    with no factor ten left in [mant] (zero, of either sign, is
    [0 * 10 ^ 0]).  What IEEE-754 does to a literal beyond double precision
    (rounding, overflow to infinity, underflow to zero) is not modelled. *)
Record JNumber := { mant : Z; exp10 : Z }.

(** What [JSON.parse] produces.  The fields of an object are kept in the
    order in which the engine enumerates own properties. *)
#[local] Set Warnings "-register-all".
Inductive JValue :=
| JNull
| JBool (b : bool)
| JNum (n : JNumber)
| JStr (s : jsstring)
| JArr (elems : list JValue)
| JObj (fields : list (jsstring * JValue)).

(** An array index: a canonical numeric string below [2 ^ 32 - 1]. *)
Definition array_index (k : jsstring) : option N :=
  match k with
  | [] => None
  | c :: r =>
    if forallb is_digit k && (negb (isc c "0") || match r with [] => true | _ => false end)
       && (length k <=? 10)%nat && (digits_value k <? 4294967295)%N
    then Some (digits_value k) else None
  end.

Fixpoint obj_replace (k : jsstring) (v : JValue) (fs : list (jsstring * JValue))
  : option (list (jsstring * JValue)) :=
  match fs with
  | [] => None
  | (k', v') :: r =>
    if str_eqb k k' then Some ((k, v) :: r)
    else match obj_replace k v r with
         | Some r' => Some ((k', v') :: r')
         | None => None
         end
  end.

(** Insert a new index key among the leading index keys, in ascending order. *)
Fixpoint obj_insert_index (i : N) (k : jsstring) (v : JValue)
  (fs : list (jsstring * JValue)) : list (jsstring * JValue) :=
  match fs with
  | [] => [(k, v)]
  | (k', v') :: r =>
    match array_index k' with
    | Some j => if (j <? i)%N then (k', v') :: obj_insert_index i k v r
                else (k, v) :: fs
    | None => (k, v) :: fs
    end
  end.

(** [CreateDataProperty]: an existing key keeps its place, index keys come
    first in ascending order, other keys follow in insertion order. *)
Definition obj_define (k : jsstring) (v : JValue) (fs : list (jsstring * JValue))
  : list (jsstring * JValue) :=
  match obj_replace k v fs with
  | Some fs' => fs'
  | None =>
    match array_index k with
    | Some i => obj_insert_index i k v fs
    | None => fs ++ [(k, v)]
    end
  end.

(** [obj[k] = v] on a plain object with a string [v]: as [obj_define], but
    the inherited [__proto__] setter swallows a non-object value. *)
Definition obj_assign (k : jsstring) (v : JValue) (fs : list (jsstring * JValue))
  : list (jsstring * JValue) :=
  if str_eqb k (js "__proto__") then fs else obj_define k v fs.

Fixpoint obj_get (k : jsstring) (fs : list (jsstring * JValue)) : option JValue :=
  match fs with
  | [] => None
  | (k', v) :: r => if str_eqb k k' then Some v else obj_get k r
  end.

(** [v.k] for the field names the server reads, none of which is inherited:
    [None] is [undefined].  Reading a property of [null] throws and is
    handled where it can happen. *)
Definition prop (k : jsstring) (v : JValue) : option JValue :=
  match v with
  | JObj fs => obj_get k fs
  | _ => None
  end.

(** [v?.k] where [v] itself may be [undefined]. *)
Definition opt_prop (k : jsstring) (v : option JValue) : option JValue :=
  match v with
  | Some (JObj fs) => obj_get k fs
  | _ => None
  end.

(** [ToBoolean]. *)
Definition truthy (v : JValue) : bool :=
  match v with
  | JNull => false
  | JBool b => b
  | JNum n => negb (mant n =? 0)%Z
  | JStr s => match s with [] => false | _ => true end
  | JArr _ | JObj _ => true
  end.

Definition opt_truthy (v : option JValue) : bool :=
  match v with Some x => truthy x | None => false end.

(** [Number::toString] in radix ten. *)
Definition Number_toString (n : JNumber) : jsstring :=
  if (mant n =? 0)%Z then js "0" else
  let digits := N_toString (Z.abs_N (mant n)) in
  let k := Z.of_nat (length digits) in
  let p := (k + exp10 n)%Z in
  let body :=
    if ((k <=? p) && (p <=? 21))%Z then
      digits ++ repeat (ch "0") (Z.to_nat (p - k))
    else if ((0 <? p) && (p <=? 21))%Z then
      firstn (Z.to_nat p) digits ++ js "." ++ skipn (Z.to_nat p) digits
    else if ((-6 <? p) && (p <=? 0))%Z then
      js "0." ++ repeat (ch "0") (Z.to_nat (- p)) ++ digits
    else
      let e := (p - 1)%Z in
      (match digits with
       | d :: (_ :: _) as rest => d :: ch "." :: rest
       | _ => digits
       end)
      ++ js "e" ++ (if (0 <=? e)%Z then js "+" else js "-")
      ++ N_toString (Z.abs_N e)
  in
  if (mant n <? 0)%Z then ch "-" :: body else body.

(** [ToString], as string concatenation and template literals apply it. *)
Fixpoint ToString (v : JValue) : jsstring :=
  match v with
  | JNull => js "null"
  | JBool true => js "true"
  | JBool false => js "false"
  | JNum n => Number_toString n
  | JStr s => s
  | JArr l =>
    join (js ",")
      (map (fun e => match e with JNull => [] | _ => ToString e end) l)
  | JObj _ => js "[object Object]"
  end.

(** Strict equality [===]; two objects or arrays that were allocated
    separately are never identical. *)
Definition strict_eq (a b : JValue) : bool :=
  match a, b with
  | JNull, JNull => true
  | JBool x, JBool y => Bool.eqb x y
  | JNum x, JNum y => (mant x =? mant y)%Z && (exp10 x =? exp10 y)%Z
  | JStr x, JStr y => str_eqb x y
  | _, _ => false
  end.

Definition hex_digit (n : N) : N :=
  if (n <? 10)%N then (48 + n)%N else (87 + n)%N.

Definition unicode_escape (c : N) : jsstring :=
  js "\u" ++ [hex_digit (N.land (N.shiftr c 12) 15); hex_digit (N.land (N.shiftr c 8) 15);
              hex_digit (N.land (N.shiftr c 4) 15); hex_digit (N.land c 15)].

Definition is_high_surrogate (c : N) : bool := ((0xD800 <=? c) && (c <=? 0xDBFF))%N.
Definition is_low_surrogate (c : N) : bool := ((0xDC00 <=? c) && (c <=? 0xDFFF))%N.

Fixpoint quote_units (s : jsstring) : jsstring :=
  match s with
  | [] => []
  | c :: r =>
    if (c =? 8)%N then js "\b" ++ quote_units r
    else if (c =? 9)%N then js "\t" ++ quote_units r
    else if (c =? 10)%N then js "\n" ++ quote_units r
    else if (c =? 12)%N then js "\f" ++ quote_units r
    else if (c =? 13)%N then js "\r" ++ quote_units r
    else if (c =? 34)%N then [92; 34]%N ++ quote_units r
    else if (c =? 92)%N then [92; 92]%N ++ quote_units r
    else if (c <? 32)%N then unicode_escape c ++ quote_units r
    else if is_high_surrogate c then
      match r with
      | d :: r' =>
        if is_low_surrogate d then c :: d :: quote_units r'
        else unicode_escape c ++ quote_units r
      | [] => unicode_escape c
      end
    else if is_low_surrogate c then unicode_escape c ++ quote_units r
    else c :: quote_units r
  end.

(** [QuoteJSONString]. *)
Definition quote (s : jsstring) : jsstring := 34%N :: quote_units s ++ [34%N].

Fixpoint JSON_stringify (v : JValue) : jsstring :=
  match v with
  | JNull => js "null"
  | JBool true => js "true"
  | JBool false => js "false"
  | JNum n => Number_toString n
  | JStr s => quote s
  | JArr l => js "[" ++ join (js ",") (map JSON_stringify l) ++ js "]"
  | JObj fs =>
    js "{"
    ++ join (js ",") (map (fun kv => quote (fst kv) ++ js ":" ++ JSON_stringify (snd kv)) fs)
    ++ js "}"
  end.

(** *** [JSON.parse] *)

(** Outcome of a parsing function: a value and the rest of the input, a
    syntax error, or the recursion bound reached (which [JSON_parse] never
    does, see [parse_value_bound]). *)
Inductive PR (A : Type) :=
| POk (v : A) (rest : jsstring)
| PErr
| PFuel.
Arguments POk {A} v rest.
Arguments PErr {A}.
Arguments PFuel {A}.

(** JSON white space: space, tab, line feed, carriage return. *)
Definition is_json_ws (c : N) : bool :=
  ((c =? 32) || (c =? 9) || (c =? 10) || (c =? 13))%N.

Definition skip_ws (s : jsstring) : jsstring := skip is_json_ws s.

Definition hex_value (c : N) : option N :=
  if is_digit c then Some (c - 48)%N
  else if ((65 <=? c) && (c <=? 70))%N then Some (c - 55)%N
  else if ((97 <=? c) && (c <=? 102))%N then Some (c - 87)%N
  else None.

(** The characters of a string literal after its opening quote. *)
Fixpoint parse_string_body (s : jsstring) : option (jsstring * jsstring) :=
  match s with
  | [] => None
  | c :: r =>
    if (c =? 34)%N then Some ([], r)
    else if (c <? 32)%N then None
    else if (c =? 92)%N then
      match r with
      | [] => None
      | e :: r1 =>
        let simple (u : N) :=
          match parse_string_body r1 with
          | Some (t, rest) => Some (u :: t, rest)
          | None => None
          end in
        if (e =? 34)%N then simple 34%N
        else if (e =? 92)%N then simple 92%N
        else if isc e "/" then simple 47%N
        else if isc e "b" then simple 8%N
        else if isc e "f" then simple 12%N
        else if isc e "n" then simple 10%N
        else if isc e "r" then simple 13%N
        else if isc e "t" then simple 9%N
        else if isc e "u" then
          match r1 with
          | h1 :: h2 :: h3 :: h4 :: r2 =>
            match hex_value h1, hex_value h2, hex_value h3, hex_value h4 with
            | Some a, Some b, Some c', Some d =>
              match parse_string_body r2 with
              | Some (t, rest) =>
                Some ((a * 4096 + b * 256 + c' * 16 + d)%N :: t, rest)
              | None => None
              end
            | _, _, _, _ => None
            end
          | _ => None
          end
        else None
      end
    else
      match parse_string_body r with
      | Some (t, rest) => Some (c :: t, rest)
      | None => None
      end
  end.

(** The normalised decimal of digits [ds] scaled by [10 ^ e]. *)
Definition make_number (neg : bool) (ds : jsstring) (e : Z) : JNumber :=
  let '(zeros, kept) := span (fun c => isc c "0") (rev ds) in
  let m := Z.of_N (digits_value (rev kept)) in
  if (m =? 0)%Z then {| mant := 0; exp10 := 0 |}
  else {| mant := if neg then (- m)%Z else m;
          exp10 := (e + Z.of_nat (length zeros))%Z |}.

(** A number literal: an optional minus sign, then a single zero or a run of
    digits not starting with zero, then an optional fraction (a dot and at
    least one digit), then an optional exponent (e or E, an optional sign and
    at least one digit). *)
Definition parse_number (s : jsstring) : option (JNumber * jsstring) :=
  let '(neg, s1) :=
    match s with
    | c :: r => if isc c "-" then (true, r) else (false, s)
    | [] => (false, s)
    end in
  let int_part :=
    match s1 with
    | c :: r =>
      if isc c "0" then Some ([c], r)
      else if is_digit c then Some (span is_digit s1)
      else None
    | [] => None
    end in
  match int_part with
  | None => None
  | Some (ids, s2) =>
    let frac_part :=
      match s2 with
      | c :: r =>
        if isc c "." then
          match span is_digit r with
          | ([], _) => None
          | (fds, r') => Some (fds, r')
          end
        else Some ([], s2)
      | [] => Some ([], s2)
      end in
    match frac_part with
    | None => None
    | Some (fds, s3) =>
      let exp_part :=
        match s3 with
        | c :: r =>
          if isc c "e" || isc c "E" then
            let '(eneg, r1) :=
              match r with
              | g :: r' =>
                if isc g "-" then (true, r')
                else if isc g "+" then (false, r')
                else (false, r)
              | [] => (false, r)
              end in
            match span is_digit r1 with
            | ([], _) => None
            | (eds, r2) =>
              let e := Z.of_N (digits_value eds) in
              Some (if eneg then (- e)%Z else e, r2)
            end
          else Some (0%Z, s3)
        | [] => Some (0%Z, s3)
        end in
      match exp_part with
      | None => None
      | Some (e, s4) =>
        Some (make_number neg (ids ++ fds) (e - Z.of_nat (length fds)), s4)
      end
    end
  end.

(** The elements of an array after the first one has been announced:
    [value (, value)* ]]. *)
Fixpoint parse_elements (pv : jsstring -> PR JValue) (bound : nat)
  (s : jsstring) (acc : list JValue) : PR (list JValue) :=
  match bound with
  | O => PFuel
  | S bound' =>
    match pv s with
    | POk v r =>
      match skip_ws r with
      | c :: r' =>
        if isc c "," then parse_elements pv bound' r' (acc ++ [v])
        else if isc c "]" then POk (acc ++ [v]) r'
        else PErr
      | [] => PErr
      end
    | PErr => PErr
    | PFuel => PFuel
    end
  end.

(** The members of an object: [string : value (, string : value)* }]. *)
Fixpoint parse_members (pv : jsstring -> PR JValue) (bound : nat)
  (s : jsstring) (acc : list (jsstring * JValue))
  : PR (list (jsstring * JValue)) :=
  match bound with
  | O => PFuel
  | S bound' =>
    match skip_ws s with
    | q :: r0 =>
      if (q =? 34)%N then
        match parse_string_body r0 with
        | Some (k, r1) =>
          match skip_ws r1 with
          | c :: r2 =>
            if isc c ":" then
              match pv r2 with
              | POk v r3 =>
                match skip_ws r3 with
                | d :: r4 =>
                  if isc d "," then parse_members pv bound' r4 (obj_define k v acc)
                  else if isc d "}" then POk (obj_define k v acc) r4
                  else PErr
                | [] => PErr
                end
              | PErr => PErr
              | PFuel => PFuel
              end
            else PErr
          | [] => PErr
          end
        | None => PErr
        end
      else PErr
    | [] => PErr
    end
  end.

Definition parse_literal (lit : jsstring) (v : JValue) (s : jsstring) : PR JValue :=
  match strip_prefix lit s with
  | Some r => POk v r
  | None => PErr
  end.

Fixpoint parse_value (fuel : nat) (s : jsstring) : PR JValue :=
  match fuel with
  | O => PFuel
  | S f =>
    match skip_ws s with
    | [] => PErr
    | c :: r =>
      if isc c "{" then
        match skip_ws r with
        | d :: r' =>
          if isc d "}" then POk (JObj []) r'
          else match parse_members (parse_value f) f r [] with
               | POk fs rest => POk (JObj fs) rest
               | PErr => PErr
               | PFuel => PFuel
               end
        | [] => PErr
        end
      else if isc c "[" then
        match skip_ws r with
        | d :: r' =>
          if isc d "]" then POk (JArr []) r'
          else match parse_elements (parse_value f) f r [] with
               | POk l rest => POk (JArr l) rest
               | PErr => PErr
               | PFuel => PFuel
               end
        | [] => PErr
        end
      else if (c =? 34)%N then
        match parse_string_body r with
        | Some (str, rest) => POk (JStr str) rest
        | None => PErr
        end
      else if isc c "t" then parse_literal (js "true") (JBool true) (c :: r)
      else if isc c "f" then parse_literal (js "false") (JBool false) (c :: r)
      else if isc c "n" then parse_literal (js "null") JNull (c :: r)
      else
        match parse_number (c :: r) with
        | Some (n, rest) => POk (JNum n) rest
        | None => PErr
        end
    end
  end.

(** A value parser that, on inputs no longer than [n], does not reach its
    recursion bound and consumes something. *)
Definition bounded (pv : jsstring -> PR JValue) (n : nat) : Prop :=
  forall s, (length s <= n)%nat ->
    pv s <> PFuel /\ forall v r, pv s = POk v r -> (length r < length s)%nat.

(** [JSON.parse(text)]: [None] is the [SyntaxError]. *)
Definition JSON_parse (text : jsstring) : option JValue :=
  match parse_value (S (length text)) text with
  | POk v rest => match skip_ws rest with [] => Some v | _ => None end
  | _ => None
  end.

End JSON.
Export JSON.

(** ** Canonical types ([server/src/types/index.ts]) *)

Module Types.

Inductive MessageRole := user | assistant | system.

Record Message := {
  role : MessageRole;
  content : jsstring;
  timestamp : option N
}.

Record Tool := {
  tool_name : jsstring;
  tool_description : jsstring;
  tool_parameters : JValue
}.

(** [ToolCall].  The adapters copy [id] and [name] from the wire without
    checking their type, so they are JSON values here. *)
Record ToolCall := {
  tc_id : JValue;
  tc_name : JValue;
  tc_arguments : JValue
}.

(** [AIStreamChunk]; [isComplete] is kept up to truthiness. *)
Record AIStreamChunk := {
  chunk_content : option JValue;
  toolCall : option ToolCall;
  isComplete : bool
}.

Inductive TaskStatus := pending | running | completed | failed | cancelled.

(** A thrown value. [SyntaxError] keeps the text that [JSON.parse] refused
    (the message is the engine's). *)
Inductive JSError :=
| Error (message : jsstring)
| TypeError (message : jsstring)
| SyntaxError (text : jsstring).

(** What an async generator produces when it is drained: the chunks it
    yields, and the exception that ends it, if any. *)
Record Generated := {
  chunks : list AIStreamChunk;
  failure : option JSError
}.

(** [IAIProvider.stream]; the first argument is the tick at which the
    request is made. *)
Record IAIProvider := {
  provider_name : jsstring;
  provider_stream : nat -> list Message -> option (list Tool) -> Generated
}.

(** [Date.now()] and [Math.random().toString(36).substr(2, 9)], read at a
    tick. *)
Record Oracle := {
  Date_now : nat -> N;
  Math_random36 : nat -> jsstring
}.

Definition text_chunk (v : JValue) : AIStreamChunk :=
  {| chunk_content := Some v; toolCall := None; isComplete := false |}.

Definition call_chunk (tc : ToolCall) (final : bool) : AIStreamChunk :=
  {| chunk_content := None; toolCall := Some tc; isComplete := final |}.

Definition final_chunk : AIStreamChunk :=
  {| chunk_content := None; toolCall := None; isComplete := true |}.

(** The text a consumer accumulates from a chunk:
    [if (chunk.content) text += chunk.content]. *)
Definition chunk_text (c : AIStreamChunk) : jsstring :=
  match chunk_content c with
  | Some v => if truthy v then ToString v else []
  | None => []
  end.

Definition emitted_text (cs : list AIStreamChunk) : jsstring :=
  concat (map chunk_text cs).

Definition emitted_calls (cs : list AIStreamChunk) : list ToolCall :=
  omap toolCall cs.

Definition final_count (cs : list AIStreamChunk) : nat :=
  length (List.filter isComplete cs).

(** An HTTP response as [fetch] resolves it: the decoded pieces of the body
    in arrival order and the failure that cuts the body short, if any.
    [resp_body = None] is a response without a body stream. *)
Record Response := {
  resp_ok : bool;
  resp_status : N;
  resp_statusText : jsstring;
  resp_body : option (list jsstring);
  resp_body_error : option JSError
}.

(** [await fetch(...)]: rejected, or resolved with a response. *)
Inductive Fetched :=
| Rejected (e : JSError)
| Resolved (r : Response).

(** The string that a role is. *)
Definition role_string (r : MessageRole) : jsstring :=
  match r with
  | user => js "user"
  | assistant => js "assistant"
  | system => js "system"
  end.

(** [m.role === 'system'], on a role. *)
Definition is_system (r : MessageRole) : bool :=
  match r with system => true | _ => false end.

(** [AIResponse], up to the usage counters: [content] and [toolCalls]
    ([None] is [undefined]). *)
Record AIResponse := {
  response_content : jsstring;
  response_toolCalls : option (list ToolCall)
}.

End Types.
Export Types.

(** ** [BaseAIProvider] ([server/src/providers/base.provider.ts]) *)

Module BaseAIProvider.

(** Outcome of one awaited call. *)
Inductive Outcome (T : Type) :=
| Returned (v : T)
| Thrown (e : JSError).
Arguments Returned {T} v.
Arguments Thrown {T} e.

(** What [retry] does: the value it returns or the value it throws
    ([lastError], [undefined] when no attempt was made), the attempts made
    and the delays slept, in order. *)
Record Retried (T : Type) := {
  retry_result : T + option JSError;
  retry_attempts : nat;
  retry_delays : list N
}.
Arguments retry_result {T}.
Arguments retry_attempts {T}.
Arguments retry_delays {T}.

(** The [for (let i = 0; i < maxRetries; i++)] loop of [retry], by recursion
    on [maxRetries - i]; [fn i] is the outcome of the call made by attempt
    [i]. *)
Fixpoint retry_loop {T} (fn : nat -> Outcome T) (maxRetries : nat) (delayMs : N)
  (left : nat) (lastError : option JSError) : Retried T :=
  match left with
  | O =>
    {| retry_result := inr lastError; retry_attempts := 0; retry_delays := [] |}
  | S left' =>
    let i := (maxRetries - left)%nat in
    match fn i with
    | Returned v =>
      {| retry_result := inl v; retry_attempts := 1; retry_delays := [] |}
    | Thrown error =>
      let slept :=
        if (i <? maxRetries - 1)%nat then [(delayMs * N.of_nat (i + 1))%N] else [] in
      let r := retry_loop fn maxRetries delayMs left' (Some error) in
      {| retry_result := retry_result r;
         retry_attempts := S (retry_attempts r);
         retry_delays := slept ++ retry_delays r |}
    end
  end.

Definition retry {T} (fn : nat -> Outcome T) (maxRetries : nat) (delayMs : N)
  : Retried T :=
  retry_loop fn maxRetries delayMs maxRetries None.

(** The defaults of [retry]'s optional parameters. *)
Definition default_maxRetries : nat := 3.
Definition default_delayMs : N := 1000.

End BaseAIProvider.
Export BaseAIProvider.

(** ** The Ollama provider ([server/src/providers/ollama.provider.ts]) *)

Module OllamaProvider.

(** The error of a response that is not [ok]. *)
Definition api_error (r : Response) : JSError :=
  Error (js "Ollama API 错误: " ++ N_toString (resp_status r) ++ js " "
         ++ resp_statusText r).

(** One line of the body, inside the [try] whose [catch] ignores the line:
    a line that does not parse, or that parses to [null] (reading
    [data.message] then throws), yields nothing. *)
Definition stream_line (line : jsstring) : list AIStreamChunk :=
  match trim line with
  | [] => []
  | _ =>
    match JSON_parse line with
    | None | Some JNull => []
    | Some data =>
      let content := opt_prop (js "content") (prop (js "message") data) in
      let done := prop (js "done") data in
      (if opt_truthy content
       then [{| chunk_content := content; toolCall := None;
                isComplete := opt_truthy done |}]
       else [])
      ++ (if opt_truthy done then [final_chunk] else [])
    end
  end.

(** The [while (true)] read loop: one iteration per piece that
    [reader.read()] delivers. *)
Fixpoint stream_read (pieces : list jsstring) (buffer : jsstring)
  : list AIStreamChunk :=
  match pieces with
  | [] => []
  | value :: rest =>
    let '(lines, buffer') := split_lines (buffer ++ value) in
    concat (map stream_line lines) ++ stream_read rest buffer'
  end.

(** [OllamaProvider.stream]. *)
Definition stream (fetched : Fetched) : Generated :=
  match fetched with
  | Rejected e => {| chunks := []; failure := Some e |}
  | Resolved response =>
    if negb (resp_ok response) then
      {| chunks := []; failure := Some (api_error response) |}
    else
      match resp_body response with
      | None => {| chunks := []; failure := Some (Error (js "无法读取响应流")) |}
      | Some pieces =>
        match resp_body_error response with
        | Some e => {| chunks := stream_read pieces []; failure := Some e |}
        | None =>
          {| chunks := stream_read pieces [] ++ [final_chunk]; failure := None |}
        end
      end
  end.

(** [parseResponse], up to the usage counters. *)
Definition parseResponse (data : JValue) : JValue :=
  match opt_prop (js "content") (prop (js "message") data) with
  | Some v => if truthy v then v else JStr []
  | None => JStr []
  end.

(** One attempt of [chat]: the closure handed to [retry]. *)
Definition chat_attempt (fetched : Fetched) : Outcome JValue :=
  match fetched with
  | Rejected e => Thrown e
  | Resolved response =>
    if negb (resp_ok response) then Thrown (api_error response)
    else
      match resp_body_error response with
      | Some e => Thrown e
      | None =>
        let text := concat (default [] (resp_body response)) in
        match JSON_parse text with
        | None => Thrown (SyntaxError text)
        | Some JNull =>
          Thrown (TypeError (js "Cannot read properties of null (reading 'message')"))
        | Some data => Returned (parseResponse data)
        end
      end
  end.

(** [OllamaProvider.chat]: [peer i] is what the [i]-th request meets. *)
Definition chat (peer : nat -> Fetched) : Retried JValue :=
  retry (fun i => chat_attempt (peer i)) default_maxRetries default_delayMs.

End OllamaProvider.

(** ** The MiniMax provider ([server/src/providers/minimax.provider.ts]) *)

Module MiniMaxProvider.

(** The chain-of-thought sentinels. *)
Definition open_sentinel : jsstring := js "[思考]".
Definition close_sentinel : jsstring := js "[/思考]".

(** [currentToolCall]: a structurally typed call whose argument text is
    still being collected. *)
Record Accumulating := {
  acc_id : JValue;
  acc_name : JValue;
  acc_arguments : jsstring
}.

(** The generator's local variables (the line buffer apart). *)
Record State := {
  hasYieldThinking : bool;
  currentToolCall : option Accumulating;
  fullTextContent : jsstring;
  tick : nat
}.

Definition initial (t : nat) : State :=
  {| hasYieldThinking := false; currentToolCall := None;
     fullTextContent := []; tick := t |}.

(** *** The inline XML form *)

(** The end of the invocation pattern after the parameters. *)
Definition invoke_end (s : jsstring) : option jsstring :=
  match strip_prefix (js "</invoke>") (skip is_space s) with
  | Some r => strip_prefix (js "</minimax:tool_call>") (skip is_space r)
  | None => None
  end.

(** The lazy group of the parameters: the shortest text after which the
    closing tag of the parameters and the end of the pattern match. *)
Fixpoint lazy_parameters (s : jsstring) : option (jsstring * jsstring) :=
  match match strip_prefix (js "</parameters>") s with
        | Some r => invoke_end r
        | None => None
        end with
  | Some rest => Some ([], rest)
  | None =>
    match s with
    | [] => None
    | c :: r =>
      match lazy_parameters r with
      | Some (p, rest) => Some (c :: p, rest)
      | None => None
      end
    end
  end.

(** A match of the tool-call pattern at the start of [s]: the opening tag,
    white space, the invoke tag with a name of one or more characters other
    than the double quote, white space, optionally the parameters element,
    white space, the closing invoke tag, white space and the closing tag.
    Returns the two groups ([match[1]], [match[2] || '']) and what follows
    the match. *)
Definition match_tool_call (s : jsstring) : option (jsstring * jsstring * jsstring) :=
  match strip_prefix (js "<minimax:tool_call>") s with
  | None => None
  | Some r0 =>
    match strip_prefix (jsq "<invoke name='") (skip is_space r0) with
    | None => None
    | Some r1 =>
      let '(toolName, r2) := span (fun c => negb (c =? 34)%N) r1 in
      match toolName, strip_prefix (jsq "'>") r2 with
      | _ :: _, Some r3 =>
        let r4 := skip is_space r3 in
        match match strip_prefix (js "<parameters>") r4 with
              | Some r5 => lazy_parameters r5
              | None => None
              end with
        | Some (paramsXml, rest) => Some (toolName, paramsXml, rest)
        | None =>
          match invoke_end r4 with
          | Some rest => Some (toolName, [], rest)
          | None => None
          end
        end
      | _, _ => None
      end
    end
  end.

(** [fullTextContent.matchAll(...)]: the matches from left to right, each
    search resuming where the previous match ended ([resume] code units are
    still covered by it). *)
Fixpoint matchAll_tool_calls (resume : nat) (s : jsstring)
  : list (jsstring * jsstring) :=
  match s with
  | [] => []
  | _ :: r =>
    match resume with
    | S k => matchAll_tool_calls k r
    | O =>
      match match_tool_call s with
      | Some (toolName, paramsXml, rest) =>
        (toolName, paramsXml)
        :: matchAll_tool_calls (length s - length rest - 1) r
      | None => matchAll_tool_calls 0 r
      end
    end
  end.

(** A match of the parameter pattern at the start of [s]: a tag whose name
    is one or more word characters, the shortest text, the closing tag of
    the same name. *)
Definition match_parameter (s : jsstring) : option (jsstring * jsstring * jsstring) :=
  match strip_prefix (js "<") s with
  | None => None
  | Some r0 =>
    let '(key, r1) := span is_word r0 in
    match key, strip_prefix (js ">") r1 with
    | _ :: _, Some r2 =>
      match until_close (js "</" ++ key ++ js ">") r2 with
      | Some (value, rest) => Some (key, value, rest)
      | None => None
      end
    | _, _ => None
    end
  end.

Fixpoint matchAll_parameters (resume : nat) (s : jsstring)
  : list (jsstring * jsstring) :=
  match s with
  | [] => []
  | _ :: r =>
    match resume with
    | S k => matchAll_parameters k r
    | O =>
      match match_parameter s with
      | Some (key, value, rest) =>
        (key, value) :: matchAll_parameters (length s - length rest - 1) r
      | None => matchAll_parameters 0 r
      end
    end
  end.

(** [params], filled by [params[paramMatch[1]] = paramMatch[2]]. *)
Definition parse_parameters (paramsXml : jsstring) : JValue :=
  JObj (fold_left (fun params kv => obj_assign (fst kv) (JStr (snd kv)) params)
          (matchAll_parameters 0 paramsXml) []).

(** The id given to an inline call: two oracle reads. *)
Definition inline_id (o : Oracle) (t : nat) : jsstring :=
  js "call-" ++ N_toString (Date_now o t) ++ js "-" ++ Math_random36 o (S t).

(** The chunks yielded for the inline matches, from tick [t] on. *)
Fixpoint inline_chunks (o : Oracle) (t : nat) (ms : list (jsstring * jsstring))
  : list AIStreamChunk :=
  match ms with
  | [] => []
  | (toolName, paramsXml) :: rest =>
    call_chunk {| tc_id := JStr (inline_id o t); tc_name := JStr toolName;
                  tc_arguments := parse_parameters paramsXml |} false
    :: inline_chunks o (t + 2) rest
  end.

(** *** The event stream *)

Definition is_string (v : option JValue) (lit : jsstring) : bool :=
  match v with
  | Some (JStr s) => str_eqb s lit
  | _ => false
  end.

(** [v || fallback]. *)
Definition or_else (v : option JValue) (fallback : JValue) : JValue :=
  match v with
  | Some x => if truthy x then x else fallback
  | None => fallback
  end.

(** [currentToolCall.arguments || '{}']. *)
Definition arguments_text (acc : Accumulating) : jsstring :=
  match acc_arguments acc with [] => js "{}" | a => a end.

(** The structurally typed call at [message_stop], inside its own [try]:
    [JSON.parse(currentToolCall.arguments || '{}')]; when the parse throws,
    the [catch] logs it and nothing is yielded. *)
Definition finalize (acc : Accumulating) : list AIStreamChunk :=
  match JSON_parse (arguments_text acc) with
  | Some args =>
    [call_chunk {| tc_id := acc_id acc; tc_name := acc_name acc;
                   tc_arguments := args |} false]
  | None => []
  end.

(** The body of the [try] for one parsed event that is not [null]: the
    chunks it yields, the state it leaves, and whether the generator
    returned. *)
Definition on_event (o : Oracle) (parsed : JValue) (st : State)
  : list AIStreamChunk * State * bool :=
  let delta := prop (js "delta") parsed in
  let contentBlock := prop (js "content_block") parsed in
  (* thinking content *)
  let '(out1, st1) :=
    if is_string (opt_prop (js "type") delta) (js "thinking_delta")
       && opt_truthy (opt_prop (js "thinking") delta)
    then
      ((if hasYieldThinking st then [] else [text_chunk (JStr open_sentinel)])
       ++ [{| chunk_content := opt_prop (js "thinking") delta; toolCall := None;
              isComplete := false |}],
       {| hasYieldThinking := true; currentToolCall := currentToolCall st;
          fullTextContent := fullTextContent st; tick := tick st |})
    else ([], st) in
  (* text content *)
  let '(out2, st2) :=
    if is_string (opt_prop (js "type") delta) (js "text_delta")
       && opt_truthy (opt_prop (js "text") delta)
    then
      ((if hasYieldThinking st1 then [text_chunk (JStr close_sentinel)] else [])
       ++ [{| chunk_content := opt_prop (js "text") delta; toolCall := None;
              isComplete := false |}],
       {| hasYieldThinking := false; currentToolCall := currentToolCall st1;
          fullTextContent :=
            fullTextContent st1
            ++ match opt_prop (js "text") delta with
               | Some v => ToString v
               | None => []
               end;
          tick := tick st1 |})
    else ([], st1) in
  (* start of a tool_use block *)
  let st3 :=
    if is_string (opt_prop (js "type") contentBlock) (js "tool_use") then
      let given := opt_prop (js "id") contentBlock in
      {| hasYieldThinking := hasYieldThinking st2;
         currentToolCall :=
           Some {| acc_id :=
                     or_else given
                       (JStr (js "call-" ++ N_toString (Date_now o (tick st2))));
                   acc_name := or_else (opt_prop (js "name") contentBlock) (JStr []);
                   acc_arguments := [] |};
         fullTextContent := fullTextContent st2;
         tick := if opt_truthy given then tick st2 else S (tick st2) |}
    else st2 in
  (* argument text of the open block *)
  let st4 :=
    if is_string (opt_prop (js "type") delta) (js "input_json_delta")
       && opt_truthy (opt_prop (js "partial_json") delta)
    then
      match currentToolCall st3, opt_prop (js "partial_json") delta with
      | Some acc, Some pj =>
        {| hasYieldThinking := hasYieldThinking st3;
           currentToolCall :=
             Some {| acc_id := acc_id acc; acc_name := acc_name acc;
                     acc_arguments := acc_arguments acc ++ ToString pj |};
           fullTextContent := fullTextContent st3;
           tick := tick st3 |}
      | _, _ => st3
      end
    else st3 in
  (* end of the message *)
  if is_string (prop (js "type") parsed) (js "message_stop") then
    let inline := matchAll_tool_calls 0 (fullTextContent st4) in
    (out1 ++ out2
     ++ (if hasYieldThinking st4 then [text_chunk (JStr close_sentinel)] else [])
     ++ inline_chunks o (tick st4) inline
     ++ match currentToolCall st4 with
        | Some acc => finalize acc
        | None => []
        end
     ++ [final_chunk],
     {| hasYieldThinking := hasYieldThinking st4;
        currentToolCall := None;
        fullTextContent := fullTextContent st4;
        tick := (tick st4 + 2 * length inline)%nat |},
     true)
  else (out1 ++ out2, st4, false).

(** One line of the body. *)
Definition on_line (o : Oracle) (line : jsstring) (st : State)
  : list AIStreamChunk * State * bool :=
  match trim line with
  | [] => ([], st, false)
  | _ =>
    match strip_prefix (js "data: ") line with
    | None => ([], st, false)
    | Some payload =>
      let data := trim payload in
      if str_eqb data (js "[DONE]") then ([final_chunk], st, true)
      else
        match JSON_parse data with
        | None | Some JNull => ([], st, false)
        | Some parsed => on_event o parsed st
        end
    end
  end.

Fixpoint on_lines (o : Oracle) (lines : list jsstring) (st : State)
  : list AIStreamChunk * State * bool :=
  match lines with
  | [] => ([], st, false)
  | line :: rest =>
    let '(out, st', returned) := on_line o line st in
    if returned then (out, st', true)
    else
      let '(out', st'', returned') := on_lines o rest st' in
      (out ++ out', st'', returned')
  end.

(** The [for await (const chunk of bodyStream)] loop. *)
Fixpoint on_pieces (o : Oracle) (pieces : list jsstring) (buffer : jsstring)
  (st : State) : list AIStreamChunk * State * bool :=
  match pieces with
  | [] => ([], st, false)
  | piece :: rest =>
    let '(lines, buffer') := split_lines (buffer ++ piece) in
    let '(out, st', returned) := on_lines o lines st in
    if returned then (out, st', true)
    else
      let '(out', st'', returned') := on_pieces o rest buffer' st' in
      (out ++ out', st'', returned')
  end.

(** The error of a response that is not [ok]; [error] is
    [await response.text()]. *)
Definition api_error (r : Response) : JSError :=
  match resp_body_error r with
  | Some e => e
  | None =>
    Error (js "MiniMax API 错误: " ++ N_toString (resp_status r) ++ js " - "
           ++ concat (default [] (resp_body r)))
  end.

(** [MiniMaxProvider.stream], started at tick [t]. *)
Definition stream (o : Oracle) (t : nat) (fetched : Fetched) : Generated :=
  match fetched with
  | Rejected e => {| chunks := []; failure := Some e |}
  | Resolved response =>
    if negb (resp_ok response) then
      {| chunks := []; failure := Some (api_error response) |}
    else
      match resp_body response with
      | None => {| chunks := []; failure := Some (Error (js "无法读取响应流")) |}
      | Some pieces =>
        let '(out, _, returned) := on_pieces o pieces [] (initial t) in
        if returned then {| chunks := out; failure := None |}
        else
          match resp_body_error response with
          | Some e => {| chunks := out; failure := Some e |}
          | None => {| chunks := out ++ [final_chunk]; failure := None |}
          end
      end
  end.

(** What a part of the generator yields: when it returned, chunks that are
    not final and then the final chunk; otherwise chunks that are not
    final. *)
Definition one_final_if_returned (r : list AIStreamChunk * State * bool) : Prop :=
  if snd r then
    exists pre, fst (fst r) = pre ++ [final_chunk] /\ final_count pre = 0%nat
  else final_count (fst (fst r)) = 0%nat.

(** [MiniMaxProvider.chat]: [attempt i] is the outcome of the [i]-th call of
    the closure ([fetch], the status check, [parseResponse]). *)
Definition chat {R} (attempt : nat -> Outcome R) : Retried R :=
  retry attempt default_maxRetries default_delayMs.

(** *** The request body *)

(** The fields of the provider that the request reads; [maxTokens = None]
    is [NaN]. *)
Record Config := {
  model : jsstring;
  maxTokens : option JNumber
}.

(** [formatMessages]. *)
Definition formatMessages (messages : list Message) : list JValue :=
  map (fun m => JObj [(js "role", JStr (role_string (role m)));
                      (js "content", JStr (content m))])
    messages.

(** [formatTools]: [None] is [undefined]. *)
Definition formatTools (tools : option (list Tool)) : option (list JValue) :=
  match tools with
  | None | Some [] => None
  | Some ts =>
    Some (map (fun t => JObj [(js "name", JStr (tool_name t));
                              (js "description", JStr (tool_description t));
                              (js "input_schema", tool_parameters t)])
            ts)
  end.

(** [this.maxTokens || 4096]. *)
Definition max_tokens (cfg : Config) : JNumber :=
  match maxTokens cfg with
  | Some n => if (mant n =? 0)%Z then {| mant := 4096; exp10 := 0 |} else n
  | None => {| mant := 4096; exp10 := 0 |}
  end.

(** The [body] that [stream] ([streaming = true]) and [chat] build from the
    messages and the tools they are given. *)
Definition request_body (cfg : Config) (streaming : bool) (messages : list Message)
  (tools : option (list Tool)) : JValue :=
  let systemMessage := List.find (fun m => is_system (role m)) messages in
  let chatMessages := List.filter (fun m => negb (is_system (role m))) messages in
  let body :=
    [(js "model", JStr (model cfg));
     (js "messages", JArr (formatMessages chatMessages));
     (js "max_tokens", JNum (max_tokens cfg))]
    ++ (if streaming then [(js "stream", JBool true)] else []) in
  let body :=
    match systemMessage with
    | Some m => obj_define (js "system") (JStr (content m)) body
    | None => body
    end in
  let body :=
    match formatTools tools with
    | Some formattedTools => obj_define (js "tools") (JArr formattedTools) body
    | None => body
    end in
  JObj body.

(** *** [parseResponse] *)

(** The local variables of [parseResponse]. *)
Record Parsing := {
  textContent : jsstring;
  thinkingContent : jsstring;
  toolCalls : list ToolCall;
  clock_tick : nat
}.

(** [text += v], where [v] may be [undefined]. *)
Definition appended_text (v : option JValue) : jsstring :=
  match v with
  | Some x => ToString x
  | None => js "undefined"
  end.

(** One iteration of [for (const block of content)]; reading [block.type]
    of [null] throws. *)
Definition on_block (o : Oracle) (block : JValue) (p : Parsing) : Outcome Parsing :=
  match block with
  | JNull => Thrown (TypeError (js "Cannot read properties of null (reading 'type')"))
  | _ =>
    let type := prop (js "type") block in
    if is_string type (js "text") then
      Returned {| textContent := textContent p ++ appended_text (prop (js "text") block);
                  thinkingContent := thinkingContent p;
                  toolCalls := toolCalls p; clock_tick := clock_tick p |}
    else if is_string type (js "thinking") then
      Returned {| textContent := textContent p;
                  thinkingContent :=
                    thinkingContent p ++ appended_text (prop (js "thinking") block);
                  toolCalls := toolCalls p; clock_tick := clock_tick p |}
    else if is_string type (js "tool_use") then
      let given := prop (js "id") block in
      Returned {| textContent := textContent p;
                  thinkingContent := thinkingContent p;
                  toolCalls :=
                    toolCalls p
                    ++ [{| tc_id :=
                             or_else given
                               (JStr (js "call-"
                                      ++ N_toString (Date_now o (clock_tick p))));
                           tc_name := or_else (prop (js "name") block) (JStr []);
                           tc_arguments := or_else (prop (js "input") block) (JObj []) |}];
                  clock_tick :=
                    if opt_truthy given then clock_tick p else S (clock_tick p) |}
    else Returned p
  end.

Fixpoint on_blocks (o : Oracle) (blocks : list JValue) (p : Parsing) : Outcome Parsing :=
  match blocks with
  | [] => Returned p
  | block :: rest =>
    match on_block o block p with
    | Returned p' => on_blocks o rest p'
    | Thrown e => Thrown e
    end
  end.

(** The code points that iterating a string yields. *)
Fixpoint code_points (s : jsstring) : list jsstring :=
  match s with
  | [] => []
  | c :: r =>
    if is_high_surrogate c then
      match r with
      | d :: r' =>
        if is_low_surrogate d then [c; d] :: code_points r' else [c] :: code_points r
      | [] => [[c]]
      end
    else [c] :: code_points r
  end.

(** [response.content || []], as the [for ... of] loop iterates it: an array
    gives its elements, a string its code points, and another truthy value
    is not iterable. *)
Definition content_blocks (response : JValue) : Outcome (list JValue) :=
  match response with
  | JNull => Thrown (TypeError (js "Cannot read properties of null (reading 'content')"))
  | _ =>
    match prop (js "content") response with
    | Some (JArr blocks) => Returned blocks
    | Some (JStr s) => Returned (map JStr (code_points s))
    | Some v =>
      if truthy v then Thrown (TypeError (js "content is not iterable")) else Returned []
    | None => Returned []
    end
  end.

(** [parseResponse], called at tick [t]. *)
Definition parseResponse (o : Oracle) (t : nat) (response : JValue) : Outcome AIResponse :=
  match content_blocks response with
  | Thrown e => Thrown e
  | Returned blocks =>
    match on_blocks o blocks
            {| textContent := []; thinkingContent := []; toolCalls := [];
               clock_tick := t |} with
    | Thrown e => Thrown e
    | Returned p =>
      Returned
        {| response_content :=
             match thinkingContent p with
             | [] => textContent p
             | thinking =>
               open_sentinel ++ thinking ++ close_sentinel ++ textContent p
             end;
           response_toolCalls :=
             match toolCalls p with
             | [] => None
             | calls => Some calls
             end |}
    end
  end.

End MiniMaxProvider.

(** ** The DeepSeek provider ([server/src/providers/deepseek.provider.ts]) *)

Module DeepSeekProvider.

(** The chunks of the OpenAI SDK's stream, as the SDK types them. *)
Record FunctionDelta := {
  fn_name : option jsstring;
  fn_arguments : option jsstring
}.

Record ToolCallDelta := {
  td_id : option jsstring;
  td_function : option FunctionDelta
}.

Record Delta := {
  delta_content : option jsstring;
  delta_tool_calls : option (list ToolCallDelta)
}.

Record Choice := {
  choice_delta : option Delta;
  finish_reason : option jsstring
}.

Record Chunk := { choices : list Choice }.

(** [currentToolCall]. *)
Record Accumulating := {
  acc_id : jsstring;
  acc_name : jsstring;
  acc_arguments : jsstring
}.

Definition nonempty (s : option jsstring) : bool :=
  match s with
  | Some (_ :: _) => true
  | _ => false
  end.

(** The [for (const toolDelta of delta.tool_calls)] loop. *)
Fixpoint on_tool_deltas (tds : list ToolCallDelta) (cur : option Accumulating)
  : option Accumulating :=
  match tds with
  | [] => cur
  | toolDelta :: rest =>
    let fn := td_function toolDelta in
    let cur' :=
      if nonempty (td_id toolDelta) then
        Some {| acc_id := default [] (td_id toolDelta);
                acc_name := default [] (fn ≫= fn_name);
                acc_arguments := default [] (fn ≫= fn_arguments) |}
      else if nonempty (fn ≫= fn_arguments) then
        match cur with
        | Some acc =>
          Some {| acc_id := acc_id acc; acc_name := acc_name acc;
                  acc_arguments :=
                    acc_arguments acc ++ default [] (fn ≫= fn_arguments) |}
        | None => None
        end
      else cur in
    on_tool_deltas rest cur'
  end.

(** The [for await (const chunk of stream)] loop; [JSON.parse] is not
    guarded, so its [SyntaxError] ends the generator. *)
Fixpoint on_chunks (cs : list Chunk) (cur : option Accumulating) : Generated :=
  match cs with
  | [] => {| chunks := []; failure := None |}
  | chunk :: rest =>
    match head (choices chunk) ≫= choice_delta with
    | None => on_chunks rest cur
    | Some delta =>
      let out1 :=
        if nonempty (delta_content delta)
        then [text_chunk (JStr (default [] (delta_content delta)))] else [] in
      let cur' :=
        match delta_tool_calls delta with
        | Some tds => on_tool_deltas tds cur
        | None => cur
        end in
      if nonempty (head (choices chunk) ≫= finish_reason) then
        match cur' with
        | Some acc =>
          let text := match acc_arguments acc with [] => js "{}" | a => a end in
          match JSON_parse text with
          | Some args =>
            let g := on_chunks rest cur' in
            {| chunks :=
                 out1
                 ++ [call_chunk {| tc_id := JStr (acc_id acc);
                                   tc_name := JStr (acc_name acc);
                                   tc_arguments := args |} true]
                 ++ chunks g;
               failure := failure g |}
          | None => {| chunks := out1; failure := Some (SyntaxError text) |}
          end
        | None =>
          let g := on_chunks rest cur' in
          {| chunks := out1 ++ [final_chunk] ++ chunks g; failure := failure g |}
        end
      else
        let g := on_chunks rest cur' in
        {| chunks := out1 ++ chunks g; failure := failure g |}
    end
  end.

(** [DeepSeekProvider.stream]: [created] is the outcome of
    [client.chat.completions.create], the chunks of the SDK's stream and
    the failure that ends it early, if any. *)
Definition stream (created : Outcome (list Chunk * option JSError)) : Generated :=
  match created with
  | Thrown e => {| chunks := []; failure := Some e |}
  | Returned (cs, err) =>
    let g := on_chunks cs None in
    {| chunks := chunks g;
       failure := match failure g with Some e => Some e | None => err end |}
  end.

(** [DeepSeekProvider.chat]: [attempt i] is the outcome of the [i]-th call of
    the closure ([create] followed by [parseResponse]). *)
Definition chat {R} (attempt : nat -> Outcome R) : Retried R :=
  retry attempt default_maxRetries default_delayMs.

End DeepSeekProvider.

(** ** The Claude provider ([server/src/providers/claude.provider.ts]) *)

Module ClaudeProvider.

(** The events of the Anthropic SDK's stream that the adapter looks at. *)
Inductive Event :=
| content_block_start (block_type : jsstring) (id name : jsstring)
| content_block_delta (delta_type : jsstring) (text : option jsstring)
    (partial_json : jsstring)
| message_stop
| other_event.

Record Accumulating := {
  acc_id : jsstring;
  acc_name : jsstring;
  acc_arguments : jsstring
}.

Fixpoint on_events (es : list Event) (cur : option Accumulating) : Generated :=
  match es with
  | [] => {| chunks := []; failure := None |}
  | chunk :: rest =>
    match chunk with
    | content_block_delta delta_type text partial_json =>
      let out :=
        if str_eqb delta_type (js "text_delta") || str_eqb delta_type (js "text")
        then [text_chunk (JStr (default [] text))] else [] in
      let cur' :=
        if str_eqb delta_type (js "input_json_delta") then
          match cur with
          | Some acc =>
            Some {| acc_id := acc_id acc; acc_name := acc_name acc;
                    acc_arguments := acc_arguments acc ++ partial_json |}
          | None => None
          end
        else cur in
      let g := on_events rest cur' in
      {| chunks := out ++ chunks g; failure := failure g |}
    | content_block_start block_type id name =>
      on_events rest
        (if str_eqb block_type (js "tool_use")
         then Some {| acc_id := id; acc_name := name; acc_arguments := [] |}
         else cur)
    | message_stop =>
      match cur with
      | Some acc =>
        let text := match acc_arguments acc with [] => js "{}" | a => a end in
        match JSON_parse text with
        | Some args =>
          let g := on_events rest cur in
          {| chunks :=
               call_chunk {| tc_id := JStr (acc_id acc);
                             tc_name := JStr (acc_name acc);
                             tc_arguments := args |} true
               :: chunks g;
             failure := failure g |}
        | None => {| chunks := []; failure := Some (SyntaxError text) |}
        end
      | None =>
        let g := on_events rest cur in
        {| chunks := final_chunk :: chunks g; failure := failure g |}
      end
    | other_event => on_events rest cur
    end
  end.

(** [ClaudeProvider.stream]. *)
Definition stream (created : Outcome (list Event * option JSError)) : Generated :=
  match created with
  | Thrown e => {| chunks := []; failure := Some e |}
  | Returned (es, err) =>
    let g := on_events es None in
    {| chunks := chunks g;
       failure := match failure g with Some e => Some e | None => err end |}
  end.

(** [ClaudeProvider.chat]. *)
Definition chat {R} (attempt : nat -> Outcome R) : Retried R :=
  retry attempt default_maxRetries default_delayMs.

End ClaudeProvider.

(** ** The tool registry ([server/src/tools/index.ts]) *)

Module ToolRegistry.

(** What a tool's [execute] function does with its parameters: the value
    it resolves to, or the message of the error it throws. *)
Inductive ToolOutcome :=
| Returns (result : JValue)
| Throws (message : jsstring).

(** A registered tool; the implementation is an external collaborator, read
    at a tick. *)
Record Entry := {
  definition : Tool;
  execute_fn : nat -> JValue -> ToolOutcome
}.

(** [tools : Map<string, ...>], in insertion order. *)
Definition Registry := list (jsstring * Entry).

Fixpoint get (tools : Registry) (name : jsstring) : option Entry :=
  match tools with
  | [] => None
  | (k, e) :: r => if str_eqb name k then Some e else get r name
  end.

Fixpoint set (tools : Registry) (name : jsstring) (e : Entry) : Registry :=
  match tools with
  | [] => [(name, e)]
  | (k, e') :: r => if str_eqb name k then (k, e) :: r else (k, e') :: set r name e
  end.

Definition register (tools : Registry) (d : Tool) (f : nat -> JValue -> ToolOutcome)
  : Registry :=
  set tools (tool_name d) {| definition := d; execute_fn := f |}.

Definition getAllDefinitions (tools : Registry) : list Tool :=
  map (fun kv => definition (snd kv)) tools.

(** [tools.get(name)] for the value found in a tool call: the keys are
    strings, so only a string finds one. *)
Definition lookup (tools : Registry) (name : JValue) : option Entry :=
  match name with
  | JStr s => get tools s
  | _ => None
  end.

Definition has (tools : Registry) (name : JValue) : bool :=
  match lookup tools name with Some _ => true | None => false end.

Definition failure_result (message : jsstring) : JValue :=
  JObj [(js "success", JBool false); (js "error", JStr message)].

(** [getDefinition]. *)
Definition getDefinition (tools : Registry) (name : jsstring) : option Tool :=
  option_map definition (get tools name).

(** [definitions.forEach(tool => this.register(tool, ...))], as
    [registerDefaultTools] does for each tool class. *)
Definition registerAll (tools : Registry)
  (entries : list (Tool * (nat -> JValue -> ToolOutcome))) : Registry :=
  fold_left (fun ts e => register ts (fst e) (snd e)) entries tools.

(** [ToolRegistry.execute]. *)
Definition execute (tools : Registry) (t : nat) (name : JValue) (params : JValue)
  : JValue :=
  match lookup tools name with
  | None => failure_result (js "工具不存在: " ++ ToString name)
  | Some tool =>
    match execute_fn tool t params with
    | Returns result => result
    | Throws message => failure_result (js "工具执行失败: " ++ message)
    end
  end.

End ToolRegistry.

(** ** The system tool ([server/src/tools/system.tool.ts]) *)

Module SystemTool.

(** What [execAsync] does with a command: it resolves with the output, or
    rejects with an error that carries a message and the output so far. *)
Inductive Executed :=
| Exited (stdout stderr : jsstring)
| Failed (message stdout stderr : jsstring).

(** The machine the tool runs on: the engine's
    [String.prototype.toLowerCase], [os.platform()], and the shell behind
    [execAsync] (given the command and the timeout). *)
Record Platform := {
  toLowerCase : jsstring -> jsstring;
  os_platform : jsstring;
  execAsync : jsstring -> JNumber -> Executed
}.

Definition dangerousPatterns : list jsstring :=
  [js "rm -rf /"; js "del /f /s /q C:" ++ [92%N]; js "format"; js "dd if=";
   js "mkfs"; js "shutdown"; js "reboot"].

Definition guiApps : list jsstring :=
  [js "code"; js "notepad"; js "explorer"; js "chrome"; js "firefox"].

(** The result returned for a command that the check refuses. *)
Definition refused : JValue :=
  JObj [(js "success", JBool false);
        (js "error", JStr (js "检测到危险命令，已阻止执行"))].

(** The result of the [catch] block: [error.stdout || ''] is the output
    carried by the error. *)
Definition failed (message stdout stderr : jsstring) : JValue :=
  JObj [(js "success", JBool false); (js "error", JStr message);
        (js "data", JObj [(js "stdout", JStr stdout); (js "stderr", JStr stderr)])].

(** [isDangerous]. *)
Definition isDangerous (P : Platform) (command : jsstring) : bool :=
  existsb (fun pattern => includes (toLowerCase P command) (toLowerCase P pattern))
    dangerousPatterns.

(** [isGuiApp]. *)
Definition isGuiApp (P : Platform) (command : jsstring) : bool :=
  existsb (fun app => includes (toLowerCase P command) app) guiApps.

(** [executeCommand(command, timeout)] for a string [command]; [timeout =
    None] is an argument left [undefined].  Returns the result and the
    commands handed to [execAsync], each with its timeout. *)
Definition executeCommand (P : Platform) (command : jsstring)
  (timeout : option JNumber) : JValue * list (jsstring * JNumber) :=
  let timeout := default {| mant := 3; exp10 := 4 |} timeout in
  if isDangerous P command then (refused, [])
  else if isGuiApp P command && str_eqb (os_platform P) (js "win32") then
    let startCommand := jsq "start '' " ++ command in
    (match execAsync P startCommand timeout with
     | Exited stdout stderr =>
       JObj [(js "success", JBool true);
             (js "data",
              JObj [(js "message", JStr (js "GUI 应用已启动"));
                    (js "command", JStr command);
                    (js "stdout", JStr (trim stdout));
                    (js "stderr", JStr (trim stderr))])]
     | Failed message stdout stderr => failed message stdout stderr
     end,
     [(startCommand, timeout)])
  else
    (match execAsync P command timeout with
     | Exited stdout stderr =>
       JObj [(js "success", JBool true);
             (js "data",
              JObj [(js "stdout", JStr (trim stdout));
                    (js "stderr", JStr (trim stderr));
                    (js "message", JStr (js "命令执行成功"))])]
     | Failed message stdout stderr => failed message stdout stderr
     end,
     [(command, timeout)]).

End SystemTool.

(** ** The file tool ([server/src/tools/system.tool.ts], class [FileTool]) *)

Module FileTool.

(** The calls [deleteFile] makes to [fs/promises], each on a path.
    [fs_rm] is [fs.rm(path, { recursive: true, force: true })]. *)
Inductive FsCall :=
| fs_stat (path : jsstring)
| fs_rm (path : jsstring)
| fs_rmdir (path : jsstring)
| fs_unlink (path : jsstring).

(** A promise of [fs/promises]: it resolves, or rejects with an error
    that carries a message. *)
Inductive Settled (T : Type) :=
| Resolved (v : T)
| RejectedWith (message : jsstring).
Arguments Resolved {T} v.
Arguments RejectedWith {T} message.

(** The machine the tool runs on: the engine's
    [String.prototype.toLowerCase], [path.resolve], [fs.stat] (resolving
    with what [isDirectory()] answers) and the three removals. *)
Record FileSystem := {
  toLowerCase : jsstring -> jsstring;
  path_resolve : jsstring -> jsstring;
  stat : jsstring -> Settled bool;
  remove : FsCall -> Settled unit
}.

Definition dangerousPaths : list jsstring :=
  [js "C:" ++ [92%N] ++ js "Windows";
   js "C:" ++ [92%N] ++ js "Program Files";
   js "C:" ++ [92%N] ++ js "Program Files (x86)";
   js "/System"; js "/usr"; js "/bin"; js "/sbin"; js "/etc"].

(** The result returned for a path that the check refuses. *)
Definition refused : JValue :=
  JObj [(js "success", JBool false);
        (js "error", JStr (js "拒绝删除系统关键目录"))].

(** The result of the [catch] block. *)
Definition failed (message : jsstring) : JValue :=
  JObj [(js "success", JBool false);
        (js "error", JStr (js "删除失败: " ++ message))].

(** [isDangerous]. *)
Definition isDangerous (F : FileSystem) (resolvedPath : jsstring) : bool :=
  existsb (fun dangerous =>
             startsWith (toLowerCase F resolvedPath) (toLowerCase F dangerous))
    dangerousPaths.


End FileTool.

(** ** The provider factory ([server/src/providers/index.ts]) *)

Module Providers.

(** The provider classes. *)
Inductive ProviderClass := DeepSeek | OpenAI | Claude | Ollama | MiniMax.

(** [createProvider(provider, config)]: the class whose constructor is
    called on [config], or the error thrown.  [toLowerCase] is the
    engine's [String.prototype.toLowerCase]. *)
Definition createProvider {C : Type} (toLowerCase : jsstring -> jsstring)
  (provider : jsstring) (config : C) : Outcome (ProviderClass * C) :=
  let name := toLowerCase provider in
  if str_eqb name (js "deepseek") then Returned (DeepSeek, config)
  else if str_eqb name (js "openai") then Returned (OpenAI, config)
  else if str_eqb name (js "claude") || str_eqb name (js "anthropic") then
    Returned (Claude, config)
  else if str_eqb name (js "ollama") then Returned (Ollama, config)
  else if str_eqb name (js "minimax") then Returned (MiniMax, config)
  else Thrown (Error (js "不支持的 AI 提供者: " ++ provider)).

Definition getSupportedProviders : list jsstring :=
  [js "deepseek"; js "openai"; js "claude"; js "ollama"; js "minimax"].

Definition getDefaultModel (toLowerCase : jsstring -> jsstring)
  (provider : jsstring) : jsstring :=
  let name := toLowerCase provider in
  if str_eqb name (js "deepseek") then js "deepseek-chat"
  else if str_eqb name (js "openai") then js "gpt-4"
  else if str_eqb name (js "claude") then js "claude-3-sonnet-20240229"
  else if str_eqb name (js "ollama") then js "llama2"
  else if str_eqb name (js "minimax") then js "MiniMax-Text-01"
  else [].

End Providers.

(** ** The configuration ([server/src/config/index.ts]) *)

Module Config.

(** [process.env]: the variables that are set, each with its value. *)
Definition ProcessEnv := jsstring -> option jsstring.

(** [value || fallback] for a variable of the environment: an unset
    variable and an empty one give the fallback. *)
Definition or_default (value : option jsstring) (fallback : jsstring) : jsstring :=
  match value with
  | Some (c :: s) => c :: s
  | _ => fallback
  end.

(** The strings of the [ai] part of the configuration. *)
Record AIConfig := {
  ai_provider : jsstring;
  ai_model : jsstring;
  ai_apiKey : jsstring;
  ai_baseURL : option jsstring
}.

(** [getConfig().ai], its strings: the numbers [temperature] and
    [maxTokens] are left out, with the [server] and [security] parts. *)
Definition getConfig (env : ProcessEnv) : AIConfig :=
  {| ai_provider := or_default (env (js "AI_PROVIDER")) (js "deepseek");
     ai_model := or_default (env (js "AI_MODEL")) (js "deepseek-chat");
     ai_apiKey := or_default (env (js "AI_API_KEY")) [];
     ai_baseURL := env (js "AI_BASE_URL") |}.

Definition supportedProviders : list jsstring :=
  [js "deepseek"; js "openai"; js "claude"; js "zhipu"; js "ollama"; js "minimax"].

(** [supportedProviders.join(', ')]. *)
Fixpoint join (sep : jsstring) (items : list jsstring) : jsstring :=
  match items with
  | [] => []
  | [item] => item
  | item :: rest => item ++ sep ++ join sep rest
  end.

(** A string that is truthy. *)
Definition nonempty (s : jsstring) : bool :=
  match s with [] => false | _ :: _ => true end.

(** [validateConfig()]: returns, or throws the error of the first check
    that fails. *)
Definition validateConfig (env : ProcessEnv) : Outcome unit :=
  let config := getConfig env in
  if negb (nonempty (ai_apiKey config)) then
    Thrown (Error (js "AI_API_KEY 未设置，请在 .env 文件中配置"))
  else if negb (existsb (str_eqb (ai_provider config)) supportedProviders) then
    Thrown (Error (js "不支持的 AI 提供商: " ++ ai_provider config
                   ++ js "，支持的提供商: " ++ join (js ", ") supportedProviders))
  else Returned tt.

End Config.

(** ** The constructor of [AIService] ([server/src/services/ai.service.ts]) *)

Module AIService.

Import Providers Config.

(** The strings of the configuration handed to a provider (the numbers
    [temperature] and [maxTokens] are left out). *)
Record ProviderConfig := {
  apiKey : jsstring;
  model : jsstring;
  baseURL : option jsstring
}.

(** [new AIService()]: the provider class that [createProvider] is asked
    for, with the configuration handed to it, or the error that
    [createProvider] throws.
    [config.ai.model || getDefaultModel(config.ai.provider)] evaluates
    [getDefaultModel] only for an empty [config.ai.model]. *)
Definition constructor (toLowerCase : jsstring -> jsstring) (env : ProcessEnv)
  : Outcome (ProviderClass * ProviderConfig) :=
  let config := getConfig env in
  createProvider toLowerCase (ai_provider config)
    {| apiKey := ai_apiKey config;
       model :=
         if nonempty (ai_model config) then ai_model config
         else getDefaultModel toLowerCase (ai_provider config);
       baseURL := ai_baseURL config |}.

End AIService.

(** ** The server's state and effects *)

Module Server.

Record Task := {
  task_id : jsstring;
  task_type : jsstring;
  task_params : ToolCall;
  task_status : TaskStatus;
  task_result : option JValue;
  task_error : option jsstring;
  task_createdAt : N;
  task_updatedAt : N
}.

Record ChatSession := {
  session_id : jsstring;
  messages : list Message;
  createdAt : N;
  updatedAt : N
}.

(** What the server lets the outside observe: the callbacks handed to
    [processMessageStream], the callbacks of the task executor (which the
    server forwards to the socket), the calls of [aiService.stream] with the
    history they pass, and the round number that each round logs. *)
Inductive Event :=
| onChunk (chunk : AIStreamChunk)
| onToolCall (toolCall : ToolCall)
| onToolResult (result : option JValue)
| onComplete
| onError (error : JSError)
| TASK_UPDATE (task : Task)
| TOOL_CALL (toolCall : ToolCall)
| TOOL_RESULT (result : JValue)
| stream_request (history : list Message) (useTools : bool)
| console_round (currentRound : nat).

(** The mutable state: [ChatService.sessions], [TaskExecutor.runningTasks]
    and the tick at which the next oracle is read. *)
Record World := {
  sessions : gmap jsstring ChatSession;
  runningTasks : gmap jsstring Task;
  tick : nat
}.

(** What the server is configured with. *)
Record Env := {
  oracle : Oracle;
  provider : IAIProvider;
  systemPrompt : jsstring;
  tools : ToolRegistry.Registry
}.

(** Computations: they read and write the world, emit events, and return
    or throw. *)
Record Ran (A : Type) := {
  outcome : A + JSError;
  world : World;
  trace : list Event
}.
Arguments outcome {A}.
Arguments world {A}.
Arguments trace {A}.

Definition M (A : Type) := World -> Ran A.

Definition ret {A} (a : A) : M A :=
  fun w => {| outcome := inl a; world := w; trace := [] |}.

Definition throw {A} (e : JSError) : M A :=
  fun w => {| outcome := inr e; world := w; trace := [] |}.

Definition bind {A B} (m : M A) (f : A -> M B) : M B :=
  fun w =>
    let r := m w in
    match outcome r with
    | inl a =>
      let r' := f a (world r) in
      {| outcome := outcome r'; world := world r'; trace := trace r ++ trace r' |}
    | inr e => {| outcome := inr e; world := world r; trace := trace r |}
    end.

(** [try { m } catch (error) { handler(error) }]. *)
Definition try_catch {A} (m : M A) (handler : JSError -> M A) : M A :=
  fun w =>
    let r := m w in
    match outcome r with
    | inl a => r
    | inr e =>
      let r' := handler e (world r) in
      {| outcome := outcome r'; world := world r'; trace := trace r ++ trace r' |}
    end.

Definition emit (e : Event) : M unit :=
  fun w => {| outcome := inl tt; world := w; trace := [e] |}.

Definition get_world : M World :=
  fun w => {| outcome := inl w; world := w; trace := [] |}.

Definition put_world (w' : World) : M unit :=
  fun _ => {| outcome := inl tt; world := w'; trace := [] |}.

(** Read the tick and advance it. *)
Definition next_tick : M nat :=
  fun w =>
    {| outcome := inl (tick w);
       world := {| sessions := sessions w; runningTasks := runningTasks w;
                   tick := S (tick w) |};
       trace := [] |}.

Notation "'let*' x ':=' m 'in' k" := (bind m (fun x => k))
  (at level 10, x name, m at level 100, k at level 200).

Section WithEnv.

Variable env : Env.

Definition Date_now_ : M N :=
  let* t := next_tick in ret (Date_now (oracle env) t).

Definition random_id : M jsstring :=
  let* t := next_tick in ret (Math_random36 (oracle env) t).

Definition set_sessions (f : gmap jsstring ChatSession -> gmap jsstring ChatSession)
  : M unit :=
  let* w := get_world in
  put_world {| sessions := f (sessions w); runningTasks := runningTasks w;
               tick := tick w |}.

Definition set_runningTasks (f : gmap jsstring Task -> gmap jsstring Task)
  : M unit :=
  let* w := get_world in
  put_world {| sessions := sessions w; runningTasks := f (runningTasks w);
               tick := tick w |}.

(** *** [TaskExecutor] ([server/src/executor/task.executor.ts]) *)

(** [generateTaskId]. *)
Definition generateTaskId : M jsstring :=
  let* now := Date_now_ in
  let* r := random_id in
  ret (js "task-" ++ N_toString now ++ js "-" ++ r).

(** [createTask]. *)
Definition createTask (type : jsstring) (params : ToolCall) : M Task :=
  let* now := Date_now_ in
  let* id := generateTaskId in
  ret {| task_id := id; task_type := type; task_params := params;
         task_status := pending; task_result := None; task_error := None;
         task_createdAt := now; task_updatedAt := now |}.

(** [executeToolCall]. *)
Definition executeToolCall (toolCall : ToolCall) : M JValue :=
  let* _ := emit (TOOL_CALL toolCall) in
  let* t := next_tick in
  let result :=
    ToolRegistry.execute (tools env) t (tc_name toolCall) (tc_arguments toolCall) in
  let* _ := emit (TOOL_RESULT result) in
  ret result.

Definition with_status (task : Task) (st : TaskStatus) (now : N) : Task :=
  {| task_id := task_id task; task_type := task_type task;
     task_params := task_params task; task_status := st;
     task_result := task_result task; task_error := task_error task;
     task_createdAt := task_createdAt task; task_updatedAt := now |}.

Definition with_result (task : Task) (r : JValue) : Task :=
  {| task_id := task_id task; task_type := task_type task;
     task_params := task_params task; task_status := task_status task;
     task_result := Some r; task_error := task_error task;
     task_createdAt := task_createdAt task; task_updatedAt := task_updatedAt task |}.

Definition with_error (task : Task) (message : jsstring) : Task :=
  {| task_id := task_id task; task_type := task_type task;
     task_params := task_params task; task_status := task_status task;
     task_result := task_result task; task_error := Some message;
     task_createdAt := task_createdAt task; task_updatedAt := task_updatedAt task |}.

(** The end of [execute]'s [try] block and its [catch], at time [now]:
    the result is stored first; reading [result.success] then throws when
    the tool resolved to [null], and the [catch] records the error. *)
Definition settle (task : Task) (result : JValue) (now : N) : Task :=
  match result with
  | JNull =>
    with_status
      (with_error (with_result task result)
         (js "Cannot read properties of null (reading 'success')"))
      failed now
  | _ =>
    with_status (with_result task result)
      (if opt_truthy (prop (js "success") result) then completed else failed)
      now
  end.

(** [TaskExecutor.execute]. *)
Definition execute (task : Task) : M Task :=
  let* now := Date_now_ in
  let task := with_status task running now in
  let* _ := set_runningTasks (insert (task_id task) task) in
  let* _ := emit (TASK_UPDATE task) in
  let* result := executeToolCall (task_params task) in
  let* now := Date_now_ in
  let task := settle task result now in
  let* _ := set_runningTasks (delete (task_id task)) in
  let* _ := emit (TASK_UPDATE task) in
  ret task.

(** [TaskExecutor.executeToolCalls]: the loop stops after the first result
    whose [success] is falsy. *)
Fixpoint executeToolCalls (toolCalls : list ToolCall) : M (list JValue) :=
  match toolCalls with
  | [] => ret []
  | toolCall :: rest =>
    let* result := executeToolCall toolCall in
    match result with
    | JNull =>
      throw (TypeError (js "Cannot read properties of null (reading 'success')"))
    | _ =>
      if negb (opt_truthy (prop (js "success") result)) then ret [result]
      else
        let* results := executeToolCalls rest in
        ret (result :: results)
    end
  end.

(** *** [AIService.stream] ([server/src/services/ai.service.ts]) *)

Definition aiService_stream (history : list Message) (useTools : bool) : M Generated :=
  let fullMessages :=
    {| role := system; content := systemPrompt env; timestamp := None |} :: history in
  let catalog :=
    if useTools then Some (ToolRegistry.getAllDefinitions (tools env)) else None in
  let* _ := emit (stream_request history useTools) in
  let* t := next_tick in
  ret (provider_stream (provider env) t fullMessages catalog).

(** *** [ChatService] ([server/src/services/chat.service.ts]) *)

(** [createSession]. *)
Definition createSession : M ChatSession :=
  let* now := Date_now_ in
  let* r := random_id in
  let session :=
    {| session_id := js "session-" ++ N_toString now ++ js "-" ++ r;
       messages := []; createdAt := now; updatedAt := now |} in
  let* _ := set_sessions (insert (session_id session) session) in
  ret session.

(** [addMessage]. *)
Definition addMessage (sessionId : jsstring) (r : MessageRole) (text : jsstring)
  : M unit :=
  let* w := get_world in
  match sessions w !! sessionId with
  | Some session =>
    let* stamp := Date_now_ in
    let* now := Date_now_ in
    set_sessions
      (insert sessionId
         {| session_id := session_id session;
            messages :=
              messages session
              ++ [{| role := r; content := text; timestamp := Some stamp |}];
            createdAt := createdAt session; updatedAt := now |})
  | None => ret tt
  end.

(** [getMessages]; [messages.slice(-limit)] keeps the last [limit]. *)
Definition getMessages (w : World) (sessionId : jsstring) (limit : option nat)
  : list Message :=
  match sessions w !! sessionId with
  | None => []
  | Some session =>
    match limit with
    | Some (S n) => skipn (length (messages session) - S n) (messages session)
    | _ => messages session
    end
  end.

(** The first [for await] loop of a round. *)
Fixpoint consume_turn (cs : list AIStreamChunk) (failure : option JSError)
  (assistantContent : jsstring) (pendingToolCalls : list ToolCall)
  : M (jsstring * list ToolCall) :=
  match cs with
  | [] =>
    match failure with
    | Some e => throw e
    | None => ret (assistantContent, pendingToolCalls)
    end
  | chunk :: rest =>
    let* _ := emit (onChunk chunk) in
    let assistantContent := assistantContent ++ chunk_text chunk in
    let pendingToolCalls :=
      match toolCall chunk with
      | Some tc => pendingToolCalls ++ [tc]
      | None => pendingToolCalls
      end in
    if isComplete chunk then ret (assistantContent, pendingToolCalls)
    else consume_turn rest failure assistantContent pendingToolCalls
  end.

(** The second [for await] loop of a round. *)
Fixpoint consume_followUp (cs : list AIStreamChunk) (failure : option JSError)
  (followUpContent : jsstring) (newToolCalls : list ToolCall)
  : M (jsstring * list ToolCall) :=
  match cs with
  | [] =>
    match failure with
    | Some e => throw e
    | None => ret (followUpContent, newToolCalls)
    end
  | chunk :: rest =>
    let* _ :=
      if opt_truthy (chunk_content chunk) then emit (onChunk chunk) else ret tt in
    let followUpContent := followUpContent ++ chunk_text chunk in
    let* _ :=
      match toolCall chunk with
      | Some tc => emit (onToolCall tc)
      | None => ret tt
      end in
    let newToolCalls :=
      match toolCall chunk with
      | Some tc => newToolCalls ++ [tc]
      | None => newToolCalls
      end in
    if isComplete chunk then ret (followUpContent, newToolCalls)
    else consume_followUp rest failure followUpContent newToolCalls
  end.

(** A match of the tool-call markup at the start of [s], the lazy [.*?]
    running to the first closing tag: what follows the match. *)
Definition match_markup (s : jsstring) : option jsstring :=
  match strip_prefix (js "<minimax:tool_call>") s with
  | Some r =>
    match until_close (js "</minimax:tool_call>") r with
    | Some (_, rest) => Some rest
    | None => None
    end
  | None => None
  end.

(** [text.replace(/<minimax:tool_call>.*?<\/minimax:tool_call>/gs, '')]. *)
Fixpoint remove_markup (resume : nat) (s : jsstring) : jsstring :=
  match s with
  | [] => []
  | c :: r =>
    match resume with
    | S k => remove_markup k r
    | O =>
      match match_markup s with
      | Some rest => remove_markup (length s - length rest - 1) r
      | None => c :: remove_markup 0 r
      end
    end
  end.

Definition clean (text : jsstring) : jsstring := trim (remove_markup 0 text).

Definition is_empty {A} (l : list A) : bool :=
  match l with [] => true | _ => false end.

(** The context message that carries a tool's result. *)
Definition toolResultMessage (toolCall : ToolCall) (result : option JValue) : jsstring :=
  js "工具 " ++ ToString (tc_name toolCall) ++ js " 执行结果: "
  ++ match result with
     | Some r => JSON_stringify r
     | None => js "undefined"
     end.

(** The loop that executes the tool calls of the turn. *)
Fixpoint execute_pending (sessionId : jsstring) (pendingToolCalls : list ToolCall)
  : M unit :=
  match pendingToolCalls with
  | [] => ret tt
  | toolCall :: rest =>
    let* _ := emit (onToolCall toolCall) in
    let* task := createTask (js "tool_call") toolCall in
    let* result := execute task in
    let* _ := emit (onToolResult (task_result result)) in
    let* _ :=
      addMessage sessionId system (toolResultMessage toolCall (task_result result)) in
    execute_pending sessionId rest
  end.

(** The loop that executes the tool calls of the follow-up turn. *)
Fixpoint execute_new (sessionId : jsstring) (newToolCalls : list ToolCall)
  : M unit :=
  match newToolCalls with
  | [] => ret tt
  | toolCall :: rest =>
    let* task := createTask (js "tool_call") toolCall in
    let* result := execute task in
    let* _ := emit (onToolResult (task_result result)) in
    let* _ :=
      addMessage sessionId system (toolResultMessage toolCall (task_result result)) in
    execute_new sessionId rest
  end.

(** The notices that the loop itself puts on the visible stream. *)
Definition completion_notice : AIStreamChunk :=
  text_chunk (JStr ([10; 10]%N ++ js "任务已完成。")).

Definition truncation_notice : AIStreamChunk :=
  text_chunk (JStr ([10; 10]%N ++ js "[已达到最大处理轮数，任务可能未完全完成]")).

(** The test of the duplicate-call guard on the last call of the turn and
    the first call of the follow-up turn. *)
Definition same_call (lastToolCall newToolCall : ToolCall) : bool :=
  strict_eq (tc_name lastToolCall) (tc_name newToolCall)
  && str_eqb (JSON_stringify (tc_arguments lastToolCall))
             (JSON_stringify (tc_arguments newToolCall)).

(** How an iteration of the [while] loop ends. *)
Inductive Exit := NoToolCalls | DuplicateCall | NoMoreToolCalls | RoundLimit.
Inductive Control := Continue | Break (reason : Exit).

(** The first half of an iteration: log the round, stream the turn and
    store its text; the value is [pendingToolCalls]. *)
Definition stream_turn (sessionId : jsstring) (currentRound : nat)
  : M (list ToolCall) :=
  let* _ := emit (console_round currentRound) in
  let* w := get_world in
  let history := getMessages w sessionId (Some 20%nat) in
  let* g := aiService_stream history true in
  let* turn := consume_turn (chunks g) (failure g) [] [] in
  let assistantContent := fst turn in
  let pendingToolCalls := snd turn in
  let cleanContent := clean assistantContent in
  let* _ :=
    if is_empty cleanContent then ret tt
    else addMessage sessionId assistant cleanContent in
  ret pendingToolCalls.

(** The second half, up to the duplicate-call guard: execute the calls of
    the turn, stream the follow-up turn and store its text; the value is
    [cleanFollowUpContent] and [newToolCalls]. *)
Definition stream_followUp (sessionId : jsstring) (pendingToolCalls : list ToolCall)
  : M (jsstring * list ToolCall) :=
  let* _ := execute_pending sessionId pendingToolCalls in
  let* w := get_world in
  let updatedMessages := getMessages w sessionId (Some 20%nat) in
  let* g := aiService_stream updatedMessages true in
  let* followUp := consume_followUp (chunks g) (failure g) [] [] in
  let followUpContent := fst followUp in
  let newToolCalls := snd followUp in
  let cleanFollowUpContent := clean followUpContent in
  let* _ :=
    if is_empty cleanFollowUpContent then ret tt
    else addMessage sessionId assistant cleanFollowUpContent in
  ret (cleanFollowUpContent, newToolCalls).

(** The condition of the duplicate-call guard. *)
Definition repeated (pendingToolCalls : list ToolCall)
  (cleanFollowUpContent : jsstring) (newToolCalls : list ToolCall) : bool :=
  is_empty cleanFollowUpContent
  && match last pendingToolCalls, head newToolCalls with
     | Some lastToolCall, Some newToolCall => same_call lastToolCall newToolCall
     | _, _ => false
     end.

(** The body of the [while] loop, after [currentRound++]. *)
Definition round (sessionId : jsstring) (currentRound : nat) : M Control :=
  let* pendingToolCalls := stream_turn sessionId currentRound in
  if is_empty pendingToolCalls then ret (Break NoToolCalls)
  else
    let* followUp := stream_followUp sessionId pendingToolCalls in
    let cleanFollowUpContent := fst followUp in
    let newToolCalls := snd followUp in
    if repeated pendingToolCalls cleanFollowUpContent newToolCalls then
      let* _ := emit (onChunk completion_notice) in
      ret (Break DuplicateCall)
    else if is_empty newToolCalls then ret (Break NoMoreToolCalls)
    else
      let* _ := execute_new sessionId newToolCalls in
      ret Continue.

Definition maxRounds : nat := 5.

(** The [while (currentRound < maxRounds)] loop, by recursion on
    [maxRounds - currentRound]: the value of [currentRound] at the exit and
    how the loop was left. *)
Fixpoint rounds (left : nat) (sessionId : jsstring) (currentRound : nat)
  : M (nat * Exit) :=
  match left with
  | O => ret (currentRound, RoundLimit)
  | S left' =>
    let currentRound := S currentRound in
    let* c := round sessionId currentRound in
    match c with
    | Break reason => ret (currentRound, reason)
    | Continue => rounds left' sessionId currentRound
    end
  end.

(** The [try] block of [processMessageStream] up to the end of the loop. *)
Definition process_rounds (sessionId content : jsstring) : M (nat * Exit) :=
  let* w := get_world in
  let* _ :=
    match sessions w !! sessionId with
    | Some _ => ret tt
    | None => let* _ := createSession in ret tt
    end in
  let* _ := addMessage sessionId user content in
  rounds maxRounds sessionId 0.

(** [processMessageStream]. *)
Definition processMessageStream (sessionId content : jsstring) : M unit :=
  try_catch
    (let* r := process_rounds sessionId content in
     let* _ :=
       if (maxRounds <=? fst r)%nat then emit (onChunk truncation_notice)
       else ret tt in
     emit onComplete)
    (fun error => emit (onError error)).

(** *** The rest of [ChatService] *)

(** [getSession]. *)
Definition getSession (w : World) (sessionId : jsstring) : option ChatSession :=
  sessions w !! sessionId.

(** [deleteSession]: [Map.delete] tells whether the key was there. *)
Definition deleteSession (sessionId : jsstring) : M bool :=
  let* w := get_world in
  let* _ := set_sessions (delete sessionId) in
  ret (match sessions w !! sessionId with Some _ => true | None => false end).

(** [clearMessages]. *)
Definition clearMessages (sessionId : jsstring) : M unit :=
  let* w := get_world in
  match sessions w !! sessionId with
  | Some session =>
    let* now := Date_now_ in
    set_sessions
      (insert sessionId
         {| session_id := session_id session; messages := [];
            createdAt := createdAt session; updatedAt := now |})
  | None => ret tt
  end.

(** *** The rest of [TaskExecutor] *)

Definition is_running (st : TaskStatus) : bool :=
  match st with running => true | _ => false end.

(** [cancelTask]. *)
Definition cancelTask (taskId : jsstring) : M bool :=
  let* w := get_world in
  match runningTasks w !! taskId with
  | Some task =>
    if is_running (task_status task) then
      let* now := Date_now_ in
      let task := with_status task cancelled now in
      let* _ := set_runningTasks (delete taskId) in
      let* _ := emit (TASK_UPDATE task) in
      ret true
    else ret false
  | None => ret false
  end.

(** [isTaskRunning]. *)
Definition isTaskRunning (w : World) (taskId : jsstring) : bool :=
  match runningTasks w !! taskId with
  | Some task => is_running (task_status task)
  | None => false
  end.

(** *** [AIService.chat] and [ChatService.processMessage] *)

(** [IAIProvider.chat], typed as the interface types it; the first argument
    is the tick at which the request is made. *)
Definition ChatFn : Type :=
  nat -> list Message -> option (list Tool) -> Outcome AIResponse.

(** [AIService.chat]. *)
Definition aiService_chat (chat : ChatFn) (history : list Message) (useTools : bool)
  : M AIResponse :=
  let fullMessages :=
    {| role := system; content := systemPrompt env; timestamp := None |} :: history in
  let catalog :=
    if useTools then Some (ToolRegistry.getAllDefinitions (tools env)) else None in
  let* t := next_tick in
  match chat t fullMessages catalog with
  | Returned response => ret response
  | Thrown e => throw e
  end.

(** What [processMessage] returns; [None] is a property that is not set. *)
Record Reply := {
  reply_content : jsstring;
  reply_toolCalls : option (list ToolCall);
  reply_toolResults : option (list (option JValue))
}.

(** The context message of [processMessage] for a tool's result. *)
Definition plainResultMessage (result : option JValue) : jsstring :=
  js "工具执行结果: "
  ++ match result with
     | Some r => JSON_stringify r
     | None => js "undefined"
     end.

(** The loop of [processMessage] over [response.toolCalls]. *)
Fixpoint execute_replied (sessionId : jsstring) (toolCalls : list ToolCall)
  (toolResults : list (option JValue)) : M (list (option JValue)) :=
  match toolCalls with
  | [] => ret toolResults
  | toolCall :: rest =>
    let* task := createTask (js "tool_call") toolCall in
    let* taskResult := execute task in
    let toolResults := toolResults ++ [task_result taskResult] in
    let* _ :=
      addMessage sessionId system (plainResultMessage (task_result taskResult)) in
    execute_replied sessionId rest toolResults
  end.

(** [processMessage]. *)
Definition processMessage (chat : ChatFn) (sessionId content : jsstring) : M Reply :=
  let* w := get_world in
  let* _ :=
    match sessions w !! sessionId with
    | Some _ => ret tt
    | None => let* _ := createSession in ret tt
    end in
  let* _ := addMessage sessionId user content in
  let* w := get_world in
  let history := getMessages w sessionId (Some 20%nat) in
  let* response := aiService_chat chat history true in
  let* _ := addMessage sessionId assistant (response_content response) in
  match response_toolCalls response with
  | Some (toolCall :: rest) =>
    let* toolResults := execute_replied sessionId (toolCall :: rest) [] in
    let* w := get_world in
    let updatedMessages := getMessages w sessionId (Some 20%nat) in
    let* followUpResponse := aiService_chat chat updatedMessages false in
    let* _ := addMessage sessionId assistant (response_content followUpResponse) in
    ret {| reply_content := response_content followUpResponse;
           reply_toolCalls := Some (toolCall :: rest);
           reply_toolResults := Some toolResults |}
  | _ =>
    ret {| reply_content := response_content response;
           reply_toolCalls := None; reply_toolResults := None |}
  end.

End WithEnv.

End Server.

(** ** What a run lets one observe *)

Module Observations.

Import Server.

(** The tool calls handed to the registry, in order. *)
Definition executed (tr : list Event) : list ToolCall :=
  omap (fun e => match e with TOOL_CALL tc => Some tc | _ => None end) tr.

(** The results the registry gave back, in order. *)
Definition results_sent (tr : list Event) : list JValue :=
  omap (fun e => match e with TOOL_RESULT r => Some r | _ => None end) tr.

(** The round numbers logged, in order. *)
Definition rounds_logged (tr : list Event) : list nat :=
  omap (fun e => match e with console_round n => Some n | _ => None end) tr.

(** The histories passed to [aiService.stream], in order. *)
Definition histories (tr : list Event) : list (list Message) :=
  omap (fun e => match e with stream_request h _ => Some h | _ => None end) tr.

(** The chunks put on the visible stream, in order. *)
Definition visible (tr : list Event) : list AIStreamChunk :=
  omap (fun e => match e with onChunk c => Some c | _ => None end) tr.

(** The chunks a [for await] loop that breaks on [isComplete] pulls. *)
Fixpoint taken (cs : list AIStreamChunk) : list AIStreamChunk :=
  match cs with
  | [] => []
  | c :: rest => if isComplete c then [c] else c :: taken rest
  end.

(** [result.success], as a condition. *)
Definition succeeded (result : JValue) : bool :=
  opt_truthy (prop (js "success") result).

(** A computation followed by nothing but its result being prefixed with
    earlier events. *)
Definition after {A} (tr : list Event) (r : Ran A) : Ran A :=
  {| outcome := outcome r; world := world r; trace := tr ++ trace r |}.

(** The world [n] oracle readings later. *)
Definition ticked (n : nat) (w : World) : World :=
  {| sessions := sessions w; runningTasks := runningTasks w;
     tick := (n + tick w)%nat |}.

(** The task that [createTask] makes in world [w]. *)
Definition created (env : Env) (type : jsstring) (params : ToolCall) (w : World)
  : Task :=
  {| task_id := js "task-" ++ N_toString (Date_now (oracle env) (S (tick w)))
                ++ js "-" ++ Math_random36 (oracle env) (S (S (tick w)));
     task_type := type; task_params := params; task_status := pending;
     task_result := None; task_error := None;
     task_createdAt := Date_now (oracle env) (tick w);
     task_updatedAt := Date_now (oracle env) (tick w) |}.

(** [execute task] started in world [w]: the task as announced, the result
    the registry gives, and the task as returned. *)
Definition started (env : Env) (task : Task) (w : World) : Task :=
  with_status task running (Date_now (oracle env) (tick w)).

Definition registry_result (env : Env) (toolCall : ToolCall) (w : World) : JValue :=
  ToolRegistry.execute (tools env) (S (tick w)) (tc_name toolCall)
    (tc_arguments toolCall).

(** The result the registry gives [executeToolCall] called in world [w]. *)
Definition direct_result (env : Env) (toolCall : ToolCall) (w : World) : JValue :=
  ToolRegistry.execute (tools env) (tick w) (tc_name toolCall)
    (tc_arguments toolCall).

Definition finished (env : Env) (task : Task) (w : World) : Task :=
  settle (started env task w) (registry_result env (task_params task) w)
    (Date_now (oracle env) (S (S (tick w)))).

(** The world after [execute task] started in world [w]. *)
Definition executed_world (env : Env) (task : Task) (w : World) : World :=
  {| sessions := sessions w;
     runningTasks :=
       delete (task_id (finished env task w))
         (insert (task_id task) (started env task w) (runningTasks w));
     tick := (3 + tick w)%nat |}.

(** The world after [addMessage] in world [w]. *)
Definition message_added (env : Env) (sessionId : jsstring) (r : MessageRole)
  (text : jsstring) (w : World) : World :=
  match sessions w !! sessionId with
  | Some session =>
    {| sessions :=
         insert sessionId
           {| session_id := session_id session;
              messages :=
                messages session
                ++ [{| role := r; content := text;
                       timestamp := Some (Date_now (oracle env) (tick w)) |}];
              createdAt := createdAt session;
              updatedAt := Date_now (oracle env) (S (tick w)) |}
           (sessions w);
       runningTasks := runningTasks w;
       tick := (2 + tick w)%nat |}
  | None => w
  end.

(** One tool call of a turn executed in world [w]: the task, the events
    from the creation of the task to the result callback, and the world
    after the context message was added. *)
Definition call_task (env : Env) (toolCall : ToolCall) (w : World) : Task :=
  created env (js "tool_call") toolCall w.

Definition call_result (env : Env) (toolCall : ToolCall) (w : World) : JValue :=
  registry_result env toolCall (ticked 3 w).

Definition call_events (env : Env) (toolCall : ToolCall) (w : World) : list Event :=
  [TASK_UPDATE (started env (call_task env toolCall w) (ticked 3 w));
   TOOL_CALL toolCall;
   TOOL_RESULT (call_result env toolCall w);
   TASK_UPDATE (finished env (call_task env toolCall w) (ticked 3 w));
   onToolResult (Some (call_result env toolCall w))].

Definition call_world (env : Env) (sessionId : jsstring) (toolCall : ToolCall)
  (w : World) : World :=
  message_added env sessionId system
    (toolResultMessage toolCall (Some (call_result env toolCall w)))
    (executed_world env (call_task env toolCall w) (ticked 3 w)).

(** What [executeToolCalls] does after the first call returned [r]. *)
Definition batch_rest (env : Env) (r : JValue) (rest : list ToolCall) : M (list JValue) :=
  match r with
  | JNull =>
    throw (TypeError (js "Cannot read properties of null (reading 'success')"))
  | _ =>
    if negb (succeeded r) then ret [r]
    else bind (executeToolCalls env rest) (fun results => ret (r :: results))
  end.

(** The generator that [aiService.stream] returns for a request made in
    world [w]. *)
Definition system_message (env : Env) : Message :=
  {| role := system; content := systemPrompt env; timestamp := None |}.

Definition request (env : Env) (history : list Message) (useTools : bool)
  (w : World) : Generated :=
  provider_stream (provider env) (tick w) (system_message env :: history)
    (if useTools then Some (ToolRegistry.getAllDefinitions (tools env)) else None).

(** What a [for await] loop that breaks on [isComplete] gets out of a
    generator: the text and the tool calls of the chunks it pulls, or the
    generator's failure when it comes before a complete chunk. *)
Definition pulled (g : Generated) : (jsstring * list ToolCall) + JSError :=
  if existsb isComplete (chunks g) then
    inl (emitted_text (taken (chunks g)), emitted_calls (taken (chunks g)))
  else
    match failure g with
    | Some e => inr e
    | None => inl (emitted_text (taken (chunks g)), emitted_calls (taken (chunks g)))
    end.

(** The callbacks of the follow-up loop for the chunks it pulls. *)
Definition followUp_events (cs : list AIStreamChunk) : list Event :=
  flat_map
    (fun c =>
       (if opt_truthy (chunk_content c) then [onChunk c] else [])
       ++ match toolCall c with
          | Some tc => [onToolCall tc]
          | None => []
          end)
    cs.

(** The world after the text of a turn was stored, if it is not empty once
    cleaned. *)
Definition stored (env : Env) (sessionId : jsstring) (text : jsstring) (w : World)
  : World :=
  if is_empty (clean text) then w
  else message_added env sessionId assistant (clean text) w.

(** The generator of the turn streamed in world [w]. *)
Definition turn_request (env : Env) (sessionId : jsstring) (w : World) : Generated :=
  request env (getMessages w sessionId (Some 20%nat)) true w.

(** The events of a tool execution and of its callbacks. *)
Definition tool_event (e : Event) : bool :=
  match e with
  | onToolCall _ | onToolResult _ | TASK_UPDATE _ | TOOL_CALL _ | TOOL_RESULT _ => true
  | _ => false
  end.

(** The callbacks of a [for await] loop. *)
Definition callback_event (e : Event) : bool :=
  match e with
  | onChunk _ | onToolCall _ => true
  | _ => false
  end.

(** An iteration of the loop, phase by phase: the turn, the follow-up turn
    when the turn made calls, and the execution of the new calls when the
    guard lets them through. *)
Definition round_outline (env : Env) (sessionId : jsstring) (currentRound : nat)
  (w : World) : Ran Control :=
  let r1 := stream_turn env sessionId currentRound w in
  match outcome r1 with
  | inr e => {| outcome := inr e; world := world r1; trace := trace r1 |}
  | inl pendingToolCalls =>
    if is_empty pendingToolCalls then
      {| outcome := inl (Break NoToolCalls); world := world r1; trace := trace r1 |}
    else
      let r2 := stream_followUp env sessionId pendingToolCalls (world r1) in
      match outcome r2 with
      | inr e =>
        {| outcome := inr e; world := world r2; trace := trace r1 ++ trace r2 |}
      | inl followUp =>
        if repeated pendingToolCalls (fst followUp) (snd followUp) then
          {| outcome := inl (Break DuplicateCall); world := world r2;
             trace := trace r1 ++ trace r2 ++ [onChunk completion_notice] |}
        else if is_empty (snd followUp) then
          {| outcome := inl (Break NoMoreToolCalls); world := world r2;
             trace := trace r1 ++ trace r2 |}
        else
          let r3 := execute_new env sessionId (snd followUp) (world r2) in
          {| outcome := inl Continue; world := world r3;
             trace := trace r1 ++ trace r2 ++ trace r3 |}
      end
  end.

(** The world after [createSession] in world [w], and the session made. *)
Definition blank_session (env : Env) (w : World) : ChatSession :=
  {| session_id :=
       js "session-" ++ N_toString (Date_now (oracle env) (tick w)) ++ js "-"
       ++ Math_random36 (oracle env) (S (tick w));
     messages := [];
     createdAt := Date_now (oracle env) (tick w);
     updatedAt := Date_now (oracle env) (tick w) |}.

Definition session_created (env : Env) (w : World) : World :=
  {| sessions :=
       insert (session_id (blank_session env w)) (blank_session env w) (sessions w);
     runningTasks := runningTasks w;
     tick := (2 + tick w)%nat |}.

(** The world in which the loop of [processMessageStream] starts. *)
Definition entered (env : Env) (sessionId content : jsstring) (w : World) : World :=
  message_added env sessionId user content
    (match sessions w !! sessionId with
     | Some _ => w
     | None => session_created env w
     end).

(** How [processMessageStream] ends, given how its loop ended. *)
Definition closing (r : Ran (nat * Exit)) : list Event :=
  match outcome r with
  | inl (n, _) =>
    (if (maxRounds <=? n)%nat then [onChunk truncation_notice] else [])
    ++ [onComplete]
  | inr e => [onError e]
  end.

(** A computation never throws. *)
Definition total {A} (m : M A) : Prop :=
  forall w, exists a, outcome (m w) = inl a.

(** The id that [createSession] gives a session created in world [w]. *)
Definition next_session_id (env : Env) (w : World) : jsstring :=
  js "session-" ++ N_toString (Date_now (oracle env) (tick w)) ++ js "-"
  ++ Math_random36 (oracle env) (S (tick w)).

(** *** The requests and the end of a run *)

(** The requests made through [aiService.stream], in order: the history
    passed and whether the tools were offered. *)
Definition requests (tr : list Event) : list (list Message * bool) :=
  omap (fun e => match e with stream_request h b => Some (h, b) | _ => None end) tr.

(** The callbacks that end a run of [processMessageStream]. *)
Definition terminal (e : Event) : bool :=
  match e with
  | onComplete | onError _ => true
  | _ => false
  end.

(** An event that the loop of [processMessageStream] can produce: none that
    ends the run, and a request only with the tools offered and a history of
    at most twenty messages. *)
Definition loop_event (e : Event) : Prop :=
  match e with
  | onComplete | onError _ => False
  | stream_request h b => (length h <= 20)%nat /\ b = true
  | _ => True
  end.

(** *** What a run appends to a session *)

(** The session exists. *)
Definition known (sessionId : jsstring) (w : World) : Prop :=
  exists session, sessions w !! sessionId = Some session.

(** From [w] to [w'] the session [sessionId] kept its id and its creation
    time and had [added] appended to its messages, and no other session
    changed. *)
Definition grown (sessionId : jsstring) (w w' : World) (added : list Message) : Prop :=
  (exists s s',
      sessions w !! sessionId = Some s /\ sessions w' !! sessionId = Some s'
      /\ session_id s' = session_id s /\ createdAt s' = createdAt s
      /\ messages s' = messages s ++ added)
  /\ (forall other, other <> sessionId -> sessions w' !! other = sessions w !! other).

(** A message that the loop stores: an assistant message that is not empty,
    or a context message. *)
Definition reply_message (m : Message) : Prop :=
  match role m with
  | user => False
  | assistant => content m <> []
  | system => True
  end.

(** The number of context messages. *)
Definition context_count (added : list Message) : nat :=
  length (List.filter (fun m => is_system (role m)) added).

(** A phase of the loop started in world [w]: what it appended to the
    session is made of replies and context messages, one context message
    for each call handed to the registry. *)
Definition phase {A} (sessionId : jsstring) (w : World) (r : Ran A) : Prop :=
  exists added,
    grown sessionId w (world r) added
    /\ Forall reply_message added
    /\ context_count added = length (executed (trace r)).

(** *** [processMessage] *)

(** The request that [aiService.chat] makes in world [w]. *)
Definition chat_request (env : Env) (chat : ChatFn) (history : list Message)
  (useTools : bool) (w : World) : Outcome AIResponse :=
  chat (tick w) (system_message env :: history)
    (if useTools then Some (ToolRegistry.getAllDefinitions (tools env)) else None).

(** One tool call of [processMessage] executed in world [w]: the events,
    and the world after the context message was added. *)
Definition replied_events (env : Env) (toolCall : ToolCall) (w : World) : list Event :=
  [TASK_UPDATE (started env (call_task env toolCall w) (ticked 3 w));
   TOOL_CALL toolCall;
   TOOL_RESULT (call_result env toolCall w);
   TASK_UPDATE (finished env (call_task env toolCall w) (ticked 3 w))].

Definition replied_world (env : Env) (sessionId : jsstring) (toolCall : ToolCall)
  (w : World) : World :=
  message_added env sessionId system
    (plainResultMessage (Some (call_result env toolCall w)))
    (executed_world env (call_task env toolCall w) (ticked 3 w)).

(** *** The adapters, the registry and the system tool *)

(** What a content block of a MiniMax response contributes to the answer
    and to the thinking, and whether it is a tool call. *)
Definition block_text (block : JValue) : jsstring :=
  if MiniMaxProvider.is_string (prop (js "type") block) (js "text")
  then MiniMaxProvider.appended_text (prop (js "text") block) else [].

Definition block_thinking (block : JValue) : jsstring :=
  if MiniMaxProvider.is_string (prop (js "type") block) (js "thinking")
  then MiniMaxProvider.appended_text (prop (js "thinking") block) else [].

Definition block_is_call (block : JValue) : bool :=
  MiniMaxProvider.is_string (prop (js "type") block) (js "tool_use").

(** A field whose value is a string and whose key is not [__proto__]. *)
Definition string_field (kv : jsstring * JValue) : Prop :=
  (exists s, snd kv = JStr s) /\ fst kv <> js "__proto__".

(** Every key of the registry is the name of the definition stored under
    it. *)
Definition named (tools : ToolRegistry.Registry) : Prop :=
  Forall (fun kv => tool_name (ToolRegistry.definition (snd kv)) = fst kv) tools.

(** The command holds a fragment that is the pattern up to the case of its
    ASCII letters. *)
Definition holds (command pattern : jsstring) : Prop :=
  exists before fragment after,
    command = before ++ fragment ++ after
    /\ ascii_lower fragment = ascii_lower pattern.



End Observations.

(** ** Sample inputs *)

Module Samples.

Import Server Observations.

(** A clock that advances by one millisecond per reading, and a fixed
    sequence of random suffixes. *)
Definition clock : Oracle :=
  {| Date_now := fun t => (1700000000000 + N.of_nat t)%N;
     Math_random36 := fun t => js "k3j9x2m" ++ N_toString (N.of_nat t) |}.

(** A [200 OK] response whose body arrives in the given pieces. *)
Definition ok_body (pieces : list jsstring) : Fetched :=
  Resolved {| resp_ok := true; resp_status := 200; resp_statusText := js "OK";
              resp_body := Some pieces; resp_body_error := None |}.

(** A server-sent event line. *)
Definition sse (payload : jsstring) : jsstring := js "data: " ++ payload ++ [10%N].

(** Argument text cut off in the middle of an object. *)
Definition bad_arguments : jsstring := jsq "{'path':".

(** MiniMax: a [tool_use] block whose argument text is [bad_arguments]. *)
Definition minimax_bad_arguments : Fetched :=
  ok_body
    [sse (jsq "{'type':'content_block_start','content_block':{'type':'tool_use','id':'toolu_1','name':'read_file'}}");
     sse (jsq "{'type':'content_block_delta','delta':{'type':'input_json_delta','partial_json':'{\'path\':'}}");
     sse (jsq "{'type':'message_stop'}")].

(** DeepSeek: the same call in the delta format, then the finish marker. *)
Definition deepseek_bad_arguments
  : Outcome (list DeepSeekProvider.Chunk * option JSError) :=
  Returned
    ([{| DeepSeekProvider.choices :=
           [{| DeepSeekProvider.choice_delta :=
                 Some {| DeepSeekProvider.delta_content := None;
                         DeepSeekProvider.delta_tool_calls :=
                           Some [{| DeepSeekProvider.td_id := Some (js "call_1");
                                    DeepSeekProvider.td_function :=
                                      Some {| DeepSeekProvider.fn_name :=
                                                Some (js "read_file");
                                              DeepSeekProvider.fn_arguments :=
                                                Some bad_arguments |} |}] |};
               DeepSeekProvider.finish_reason := None |}] |};
      {| DeepSeekProvider.choices :=
           [{| DeepSeekProvider.choice_delta :=
                 Some {| DeepSeekProvider.delta_content := None;
                         DeepSeekProvider.delta_tool_calls := None |};
               DeepSeekProvider.finish_reason := Some (js "tool_calls") |}] |}],
     None).

(** MiniMax: the same call [screenshot] with no arguments, once inline in
    the text and once as a [tool_use] block. *)
Definition minimax_same_call_twice : Fetched :=
  ok_body
    [sse (jsq "{'type':'content_block_delta','delta':{'type':'text_delta','text':'<minimax:tool_call><invoke name=\'screenshot\'></invoke></minimax:tool_call>'}}");
     sse (jsq "{'type':'content_block_start','content_block':{'type':'tool_use','id':'toolu_1','name':'screenshot'}}");
     sse (jsq "{'type':'message_stop'}")].

(** MiniMax: a thinking delta, then the [DONE] line. *)
Definition minimax_thinking_then_DONE : Fetched :=
  ok_body
    [sse (jsq "{'type':'content_block_delta','delta':{'type':'thinking_delta','thinking':'hmm'}}");
     sse (js "[DONE]")].

(** MiniMax: a thinking delta, then the body ends. *)
Definition minimax_thinking_then_end : Fetched :=
  ok_body
    [sse (jsq "{'type':'content_block_delta','delta':{'type':'thinking_delta','thinking':'hmm'}}")].

(** Ollama: a line of text, then the line that reports [done]. *)
Definition ollama_two_lines : Fetched :=
  ok_body [jsq "{'message':{'role':'assistant','content':'hi'},'done':false}" ++ [10%N];
           jsq "{'message':{'role':'assistant','content':''},'done':true}" ++ [10%N]].

(** Ollama: one line that carries text and reports [done]. *)
Definition ollama_done_line : Fetched :=
  ok_body [jsq "{'message':{'content':'hi'},'done':true}" ++ [10%N]].

(** A registry with one tool, which succeeds. *)
Definition one_tool : ToolRegistry.Registry :=
  ToolRegistry.register []
    {| tool_name := js "get_system_info"; tool_description := js "system information";
       tool_parameters := JObj [(js "type", JStr (js "object"))] |}
    (fun _ _ =>
       ToolRegistry.Returns
         (JObj [(js "success", JBool true);
                (js "data", JObj [(js "platform", JStr (js "win32"))])])).

Definition call_known : ToolCall :=
  {| tc_id := JStr (js "call_1"); tc_name := JStr (js "get_system_info");
     tc_arguments := JObj [] |}.

Definition call_unknown : ToolCall :=
  {| tc_id := JStr (js "call_0"); tc_name := JStr (js "fly_to_moon");
     tc_arguments := JObj [] |}.

(** A provider whose every turn says [step] and calls the known tool. *)
Definition busy_provider : IAIProvider :=
  {| provider_name := js "busy";
     provider_stream := fun _ _ _ =>
       {| chunks := [text_chunk (JStr (js "step")); call_chunk call_known false;
                     final_chunk];
          failure := None |} |}.

(** A provider whose every turn calls the known tool and says nothing. *)
Definition stuck_provider : IAIProvider :=
  {| provider_name := js "stuck";
     provider_stream := fun _ _ _ =>
       {| chunks := [call_chunk call_known true]; failure := None |} |}.

Definition busy_env : Env :=
  {| oracle := clock; provider := busy_provider; systemPrompt := js "你是一个智能助手";
     tools := one_tool |}.

Definition stuck_env : Env :=
  {| oracle := clock; provider := stuck_provider; systemPrompt := js "你是一个智能助手";
     tools := one_tool |}.

(** A provider that answers in two pieces of text. *)
Definition answer_provider : IAIProvider :=
  {| provider_name := js "answer";
     provider_stream := fun _ _ _ =>
       {| chunks := [text_chunk (JStr (js "现在")); text_chunk (JStr (js "是下午三点"));
                     final_chunk];
          failure := None |} |}.

Definition call_screenshot : ToolCall :=
  {| tc_id := JStr (js "call_7"); tc_name := JStr (js "screenshot");
     tc_arguments := JObj [] |}.

(** A provider that asks for a screenshot until the history holds a tool
    result, and then reports. *)
Definition screenshot_provider : IAIProvider :=
  {| provider_name := js "screenshot";
     provider_stream := fun _ msgs _ =>
       if (length msgs <=? 2)%nat then
         {| chunks := [call_chunk call_screenshot false; final_chunk];
            failure := None |}
       else
         {| chunks := [text_chunk (JStr (js "已完成截图")); final_chunk];
            failure := None |} |}.

Definition screenshot_tools : ToolRegistry.Registry :=
  ToolRegistry.register one_tool
    {| tool_name := js "screenshot"; tool_description := js "capture the screen";
       tool_parameters := JObj [(js "type", JStr (js "object"))] |}
    (fun _ _ =>
       ToolRegistry.Returns
         (JObj [(js "success", JBool true);
                (js "data", JObj [(js "path", JStr (js "C:/shot.png"))])])).

Definition answer_env : Env :=
  {| oracle := clock; provider := answer_provider; systemPrompt := js "你是一个智能助手";
     tools := one_tool |}.

Definition screenshot_env : Env :=
  {| oracle := clock; provider := screenshot_provider;
     systemPrompt := js "你是一个智能助手"; tools := screenshot_tools |}.

(** A world with one empty session [s1], and the world with none. *)
Definition session_s1 : ChatSession :=
  {| session_id := js "s1"; messages := []; createdAt := 1699999999000;
     updatedAt := 1699999999000 |}.

Definition world_s1 : World :=
  {| sessions := {[ js "s1" := session_s1 ]}; runningTasks := ∅; tick := 0 |}.

Definition world_empty : World :=
  {| sessions := ∅; runningTasks := ∅; tick := 0 |}.


(** The [message_stop] event. *)
Definition message_stop_event : JValue :=
  JObj [(js "type", JStr (js "message_stop"))].


(** The adapter's state before [message_stop] in [minimax_bad_arguments]. *)
Definition state_bad_arguments : MiniMaxProvider.State :=
  {| MiniMaxProvider.hasYieldThinking := false;
     MiniMaxProvider.currentToolCall :=
       Some {| MiniMaxProvider.acc_id := JStr (js "toolu_1");
               MiniMaxProvider.acc_name := JStr (js "read_file");
               MiniMaxProvider.acc_arguments := bad_arguments |};
     MiniMaxProvider.fullTextContent := [];
     MiniMaxProvider.tick := 0 |}.

(** The adapter's state before [message_stop] after a text that mentions
    an invocation without the tool-call markup. *)
Definition state_plain_text : MiniMaxProvider.State :=
  {| MiniMaxProvider.hasYieldThinking := false;
     MiniMaxProvider.currentToolCall := None;
     MiniMaxProvider.fullTextContent := js "文件已创建成功 <invoke name=x>";
     MiniMaxProvider.tick := 0 |}.

(** A MiniMax chat response: an answer, the thinking that led to it, and a
    tool call. *)
Definition minimax_reply : JValue :=
  JObj [(js "content",
         JArr [JObj [(js "type", JStr (js "text")); (js "text", JStr (js "好的"))];
               JObj [(js "type", JStr (js "thinking"));
                     (js "thinking", JStr (js "先想想"))];
               JObj [(js "type", JStr (js "tool_use")); (js "id", JStr (js "toolu_1"));
                     (js "name", JStr (js "screenshot")); (js "input", JObj [])]])].

(** The call that [minimax_reply] asks for. *)
Definition call_screenshot_toolu : ToolCall :=
  {| tc_id := JStr (js "toolu_1"); tc_name := JStr (js "screenshot");
     tc_arguments := JObj [] |}.

(** A provider that makes a call in each turn until the request carries
    [n] messages, and then answers. *)
Definition patient_provider (n : nat) : IAIProvider :=
  {| provider_name := js "patient";
     provider_stream := fun _ msgs _ =>
       if (length msgs <? n)%nat then
         {| chunks := [text_chunk (JStr (js "step")); call_chunk call_known false;
                       final_chunk];
            failure := None |}
       else
         {| chunks := [text_chunk (JStr (js "done")); final_chunk];
            failure := None |} |}.

(** The fifth turn of this one is the first that makes no call. *)
Definition patient_env : Env :=
  {| oracle := clock; provider := patient_provider 18;
     systemPrompt := js "你是一个智能助手"; tools := one_tool |}.

(** A provider backed by the Ollama adapter. *)
Definition ollama_provider : IAIProvider :=
  {| provider_name := js "Ollama";
     provider_stream := fun _ _ _ => OllamaProvider.stream ollama_two_lines |}.

Definition ollama_env : Env :=
  {| oracle := clock; provider := ollama_provider;
     systemPrompt := js "你是一个智能助手"; tools := one_tool |}.

(** A chat that asks for two calls, the first of an unknown tool, when it
    is offered the tools, and reports when it is not. *)
Definition calling_chat : ChatFn :=
  fun _ _ catalog =>
    match catalog with
    | Some _ =>
      Returned {| response_content := js "正在处理";
                  response_toolCalls := Some [call_unknown; call_known] |}
    | None =>
      Returned {| response_content := js "已完成";
                  response_toolCalls := Some [call_known] |}
    end.

(** A chat whose provider cannot be reached. *)
Definition failing_chat : ChatFn :=
  fun _ _ _ => Thrown (Error (js "connect ECONNREFUSED")).

(** A Linux machine whose shell prints [ok]. *)
Definition linux_box : SystemTool.Platform :=
  {| SystemTool.toLowerCase := ascii_lower;
     SystemTool.os_platform := js "linux";
     SystemTool.execAsync := fun _ _ => SystemTool.Exited (js "ok") [] |}.


(** An environment that sets the key and asks for the provider [zhipu]. *)
Definition zhipu_env : Config.ProcessEnv :=
  fun name =>
    if str_eqb name (js "AI_API_KEY") then Some (js "sk-1")
    else if str_eqb name (js "AI_PROVIDER") then Some (js "zhipu")
    else None.

(** An environment that sets the key and asks for the provider [claude],
    with no model. *)
Definition claude_env : Config.ProcessEnv :=
  fun name =>
    if str_eqb name (js "AI_API_KEY") then Some (js "sk-1")
    else if str_eqb name (js "AI_PROVIDER") then Some (js "claude")
    else None.

(** A provider that never says anything: it asks for the system
    information while the request carries the system prompt and the message
    of the user only, and for a screenshot in every later turn. *)
Definition relapsing_provider : IAIProvider :=
  {| provider_name := js "relapsing";
     provider_stream := fun _ msgs _ =>
       if (length msgs <=? 2)%nat then
         {| chunks := [call_chunk call_known false; final_chunk]; failure := None |}
       else
         {| chunks := [call_chunk call_screenshot false; final_chunk];
            failure := None |} |}.

Definition relapsing_env : Env :=
  {| oracle := clock; provider := relapsing_provider;
     systemPrompt := js "你是一个智能助手"; tools := screenshot_tools |}.

(** The id that [createSession] generates in [world_empty] under [clock]. *)
Definition foreseen_id : jsstring := js "session-1700000000000-k3j9x2m1".

End Samples.

(** * Properties *)

(** ** The embedding at work *)

Section Examples.

Import Server Observations Samples.

Example literal_units : js "[思考]" = [91; 24605; 32771; 93]%N.
Proof. reflexivity. Qed.

Example parse_object :
  JSON_parse (jsq "{ 'b': [true, null, -1.50e2], '10': 'x\u601d', '2': {}, 'b': 0.5 }")
  = Some (JObj [(js "2", JObj []); (js "10", JStr (js "x思"));
                (js "b", JNum {| mant := 5; exp10 := -1 |})]).
Proof. vm_compute. reflexivity. Qed.

Example parse_rejects :
  JSON_parse (jsq "{'a': 1,}") = None /\ JSON_parse (js "01") = None
  /\ JSON_parse (js "") = None /\ JSON_parse (jsq "'a") = None
  /\ JSON_parse (js "[1 2]") = None /\ JSON_parse (js "nul") = None.
Proof. repeat split; vm_compute; reflexivity. Qed.

Example stringify_value :
  JSON_stringify
    (JObj [(js "success", JBool false); (js "n", JNum {| mant := -15; exp10 := 1 |});
           (js "error", JStr (jsq "a 'b'" ++ [10%N]))])
  = jsq "{'success':false,'n':-150,'error':'a \'b\'\n'}".
Proof. vm_compute. reflexivity. Qed.

Example number_strings :
  map Number_toString
    [{| mant := 1; exp10 := 21 |}; {| mant := 15; exp10 := -8 |};
     {| mant := 15; exp10 := -6 |}; {| mant := 12345; exp10 := -2 |}]
  = [js "1e+21"; js "1.5e-7"; js "0.000015"; js "123.45"].
Proof. vm_compute. reflexivity. Qed.

Example inline_invocation :
  MiniMaxProvider.matchAll_tool_calls 0
    (js "ok " ++ jsq "<minimax:tool_call>" ++ [10%N]
     ++ jsq "<invoke name='read_file'>" ++ [10%N]
     ++ js "<parameters><filePath>C:/a.txt</filePath><encoding>utf8</encoding></parameters>"
     ++ [10%N] ++ js "</invoke>" ++ [10%N] ++ js "</minimax:tool_call> done")
  = [(js "read_file",
      js "<filePath>C:/a.txt</filePath><encoding>utf8</encoding>")]
  /\ MiniMaxProvider.parse_parameters
       (js "<filePath>C:/a.txt</filePath><encoding>utf8</encoding>")
     = JObj [(js "filePath", JStr (js "C:/a.txt")); (js "encoding", JStr (js "utf8"))].
Proof. split; vm_compute; reflexivity. Qed.

Example markup_removed :
  clean (js "  好的 <minimax:tool_call>x</minimax:tool_call> 完成 " ++ [10%N])
  = js "好的  完成"
  /\ clean (js " <minimax:tool_call>x</minimax:tool_call> ") = [].
Proof. split; vm_compute; reflexivity. Qed.

(** A turn without tool calls: the text is stored as one assistant message
    and the loop is left in its first round. *)
Example plain_answer :
  let r := processMessageStream answer_env (js "s1") (js "现在几点") world_s1 in
  map (fun m => (role m, content m)) (getMessages (world r) (js "s1") None)
  = [(user, js "现在几点"); (assistant, js "现在是下午三点")]
  /\ outcome (process_rounds answer_env (js "s1") (js "现在几点") world_s1)
     = inl (1%nat, NoToolCalls)
  /\ rounds_logged (trace r) = [1%nat]
  /\ last (trace r) = Some onComplete
  /\ length (visible (trace r)) = 3%nat.
Proof. repeat split; vm_compute; reflexivity. Qed.

(** A turn with one tool call and a follow-up turn that reports. *)
Example screenshot_taken :
  let r := processMessageStream screenshot_env (js "s1") (js "截个图") world_s1 in
  map (fun m => (role m, content m)) (getMessages (world r) (js "s1") None)
  = [(user, js "截个图");
     (system,
      js "工具 screenshot 执行结果: " ++ jsq "{'success':true,'data':{'path':'C:/shot.png'}}");
     (assistant, js "已完成截图")]
  /\ outcome (process_rounds screenshot_env (js "s1") (js "截个图") world_s1)
     = inl (1%nat, NoMoreToolCalls)
  /\ executed (trace r) = [call_screenshot]
  /\ last (trace r) = Some onComplete.
Proof. repeat split; vm_compute; reflexivity. Qed.

End Examples.

(** ** Strings *)

Section StringFacts.

Lemma str_eqb_refl (s : jsstring) : str_eqb s s = true.
Proof.
  induction s as [|c s IH]; simpl; [reflexivity|].
  rewrite N.eqb_refl. exact IH.
Qed.

Lemma str_eqb_eq (a b : jsstring) : str_eqb a b = true -> a = b.
Proof.
  revert b. induction a as [|x a IH]; intros [|y b]; simpl; try discriminate.
  - reflexivity.
  - intros H. apply andb_true_iff in H as [Hx Hr].
    apply N.eqb_eq in Hx. subst y. f_equal. apply IH, Hr.
Qed.

Lemma skip_length (p : N -> bool) (s : jsstring) :
  (length (skip p s) <= length s)%nat.
Proof.
  induction s as [|c s IH]; simpl; [lia|].
  destruct (p c); simpl; lia.
Qed.

Lemma span_length (p : N -> bool) (s a b : jsstring) :
  span p s = (a, b) -> length s = (length a + length b)%nat.
Proof.
  revert a b. induction s as [|c s IH]; simpl; intros a b H.
  - inversion H. reflexivity.
  - destruct (p c).
    + destruct (span p s) as [a' b'] eqn:E. inversion H; subst.
      simpl. rewrite (IH a' b eq_refl). reflexivity.
    + inversion H. reflexivity.
Qed.

Lemma strip_prefix_length (p s r : jsstring) :
  strip_prefix p s = Some r -> length s = (length p + length r)%nat.
Proof.
  revert s. induction p as [|x p IH]; intros [|y s]; simpl; intros H;
    try discriminate.
  - inversion H. reflexivity.
  - inversion H. reflexivity.
  - destruct (x =? y)%N; [|discriminate]. rewrite (IH _ H). reflexivity.
Qed.

End StringFacts.

(** ** [JSON.parse] never exhausts its recursion bound *)

Section ParserBound.

Lemma skip_ws_length (s : jsstring) : (length (skip_ws s) <= length s)%nat.
Proof. apply skip_length. Qed.

Lemma skip_ws_cons (s r : jsstring) (c : N) :
  skip_ws s = c :: r -> (length r < length s)%nat.
Proof.
  intros H. pose proof (skip_ws_length s) as L. rewrite H in L. simpl in L. lia.
Qed.

Lemma parse_string_body_length (s t rest : jsstring) :
  parse_string_body s = Some (t, rest) -> (length rest < length s)%nat.
Proof.
  revert t rest.
  induction s as [s IH] using (induction_ltof1 _ (@length N)); unfold ltof in IH.
  intros t rest H. destruct s as [|c r]; simpl in H; [discriminate|].
  destruct (c =? 34)%N.
  { inversion H; subst. simpl. lia. }
  destruct (c <? 32)%N; [discriminate|].
  destruct (c =? 92)%N.
  - destruct r as [|e r1]; [discriminate|].
    assert (Hs : forall u, match parse_string_body r1 with
                           | Some (t0, rest0) => Some (u :: t0, rest0)
                           | None => None
                           end = Some (t, rest) ->
                           (length rest < length (c :: e :: r1))%nat).
    { intros u Hu. destruct (parse_string_body r1) as [[t0 rest0]|] eqn:E;
        [|discriminate].
      inversion Hu; subst. specialize (IH r1 ltac:(simpl; lia) _ _ E).
      simpl. lia. }
    repeat match type of H with
           | (if ?b then _ else _) = _ =>
             destruct b; [solve [eapply Hs; exact H]|]
           end.
    destruct (isc e "u"); [|discriminate].
    destruct r1 as [|h1 [|h2 [|h3 [|h4 r2]]]]; try discriminate.
    destruct (hex_value h1), (hex_value h2), (hex_value h3), (hex_value h4);
      try discriminate.
    destruct (parse_string_body r2) as [[t0 rest0]|] eqn:E; [|discriminate].
    inversion H; subst. specialize (IH r2 ltac:(simpl; lia) _ _ E).
    simpl. lia.
  - destruct (parse_string_body r) as [[t0 rest0]|] eqn:E; [|discriminate].
    inversion H; subst. specialize (IH r ltac:(simpl; lia) _ _ E).
    simpl. lia.
Qed.

Lemma span_digit_head (c : N) (r a b : jsstring) :
  is_digit c = true -> span is_digit (c :: r) = (a, b) ->
  (length b <= length r)%nat.
Proof.
  intros Hc H. simpl in H. rewrite Hc in H.
  destruct (span is_digit r) as [a' b'] eqn:E. inversion H; subst.
  apply span_length in E. lia.
Qed.

Lemma parse_number_length (s rest : jsstring) (n : JNumber) :
  parse_number s = Some (n, rest) -> (length rest < length s)%nat.
Proof.
  unfold parse_number. intros H.
  destruct (match s with
            | [] => (false, s)
            | c :: r => if isc c "-" then (true, r) else (false, s)
            end) as [neg s1] eqn:Hsign.
  assert (L1 : (length s1 <= length s)%nat).
  { destruct s as [|c r]; [inversion Hsign; subst; simpl; lia|].
    destruct (isc c "-"); inversion Hsign; subst; simpl; lia. }
  destruct (match s1 with
            | [] => None
            | c :: r =>
              if isc c "0" then Some ([c], r)
              else if is_digit c then Some (span is_digit s1) else None
            end) as [[ids s2]|] eqn:Hint; [|discriminate].
  assert (L2 : (length s2 < length s1)%nat).
  { destruct s1 as [|c r]; [discriminate|].
    destruct (isc c "0"); [inversion Hint; subst; simpl; lia|].
    destruct (is_digit c) eqn:Hd; [|discriminate].
    inversion Hint as [Hsp]. apply (span_digit_head _ _ _ _ Hd) in Hsp.
    simpl. lia. }
  destruct (match s2 with
            | [] => Some ([], s2)
            | c :: r =>
              if isc c "." then
                match span is_digit r with
                | ([], _) => None
                | (fds, r') => Some (fds, r')
                end
              else Some ([], s2)
            end) as [[fds s3]|] eqn:Hfrac; [|discriminate].
  assert (L3 : (length s3 <= length s2)%nat).
  { destruct s2 as [|c r]; [inversion Hfrac; subst; simpl; lia|].
    destruct (isc c "."); [|inversion Hfrac; subst; simpl; lia].
    destruct (span is_digit r) as [a b] eqn:E. apply span_length in E.
    destruct a; [discriminate|]. inversion Hfrac; subst. simpl in *. lia. }
  destruct (match s3 with
            | [] => Some (0%Z, s3)
            | c :: r =>
              if isc c "e" || isc c "E" then
                let '(eneg, r1) :=
                  match r with
                  | [] => (false, r)
                  | g :: r' =>
                    if isc g "-" then (true, r')
                    else if isc g "+" then (false, r') else (false, r)
                  end in
                match span is_digit r1 with
                | ([], _) => None
                | (eds, r2) =>
                  let e := Z.of_N (digits_value eds) in
                  Some (if eneg then (- e)%Z else e, r2)
                end
              else Some (0%Z, s3)
            end) as [[e s4]|] eqn:Hexp; [|discriminate].
  assert (L4 : (length s4 <= length s3)%nat).
  { destruct s3 as [|c r]; [inversion Hexp; subst; simpl; lia|].
    destruct (isc c "e" || isc c "E"); [|inversion Hexp; subst; simpl; lia].
    destruct (match r with
              | [] => (false, r)
              | g :: r' =>
                if isc g "-" then (true, r')
                else if isc g "+" then (false, r') else (false, r)
              end) as [eneg r1] eqn:Hs.
    assert (length r1 <= length r)%nat.
    { destruct r as [|g r']; [inversion Hs; subst; simpl; lia|].
      destruct (isc g "-"); [inversion Hs; subst; simpl; lia|].
      destruct (isc g "+"); inversion Hs; subst; simpl; lia. }
    destruct (span is_digit r1) as [a b] eqn:E. apply span_length in E.
    destruct a; [discriminate|]. inversion Hexp; subst. simpl in *. lia. }
  inversion H; subst. lia.
Qed.

Lemma parse_elements_bound (pv : jsstring -> PR JValue) (bound : nat) :
  forall s acc, (length s < bound)%nat -> bounded pv (length s) ->
    parse_elements pv bound s acc <> PFuel
    /\ forall l r, parse_elements pv bound s acc = POk l r ->
                   (length r < length s)%nat.
Proof.
  induction bound as [|bound IH]; intros s acc Hlen Hpv; [lia|].
  simpl. destruct (Hpv s (le_n _)) as [Hne Hok].
  destruct (pv s) as [v r| |] eqn:E; [|split; [discriminate|discriminate]|congruence].
  specialize (Hok v r eq_refl).
  destruct (skip_ws r) as [|c r'] eqn:Er; [split; discriminate|].
  apply skip_ws_cons in Er.
  destruct (isc c ",").
  - destruct (IH r' (acc ++ [v])) as [H1 H2]; [lia| |].
    + intros s' Hs'. apply Hpv. lia.
    + split; [exact H1|]. intros l r0 Hr0. specialize (H2 _ _ Hr0). lia.
  - destruct (isc c "]"); split; try discriminate.
    intros l r0 Hr0. inversion Hr0; subst. lia.
Qed.

Lemma parse_members_bound (pv : jsstring -> PR JValue) (bound : nat) :
  forall s acc, (length s < bound)%nat -> bounded pv (length s) ->
    parse_members pv bound s acc <> PFuel
    /\ forall l r, parse_members pv bound s acc = POk l r ->
                   (length r < length s)%nat.
Proof.
  induction bound as [|bound IH]; intros s acc Hlen Hpv; [lia|].
  simpl.
  destruct (skip_ws s) as [|q r0] eqn:E0; [split; discriminate|].
  apply skip_ws_cons in E0.
  destruct (q =? 34)%N; [|split; discriminate].
  destruct (parse_string_body r0) as [[k r1]|] eqn:E1; [|split; discriminate].
  apply parse_string_body_length in E1.
  destruct (skip_ws r1) as [|c r2] eqn:E2; [split; discriminate|].
  apply skip_ws_cons in E2.
  destruct (isc c ":"); [|split; discriminate].
  destruct (Hpv r2 ltac:(lia)) as [Hne Hok].
  destruct (pv r2) as [v r3| |] eqn:E3; [|split; discriminate|congruence].
  specialize (Hok v r3 eq_refl).
  destruct (skip_ws r3) as [|d r4] eqn:E4; [split; discriminate|].
  apply skip_ws_cons in E4.
  destruct (isc d ",").
  - destruct (IH r4 (obj_define k v acc)) as [H1 H2]; [lia| |].
    + intros s' Hs'. apply Hpv. lia.
    + split; [exact H1|]. intros l r Hr. specialize (H2 _ _ Hr). lia.
  - destruct (isc d "}"); split; try discriminate.
    intros l r Hr. inversion Hr; subst. lia.
Qed.

Lemma parse_literal_length (lit : jsstring) (v w : JValue) (s r : jsstring) :
  lit <> [] -> parse_literal lit v s = POk w r -> (length r < length s)%nat.
Proof.
  unfold parse_literal. intros Hl H.
  destruct (strip_prefix lit s) as [r'|] eqn:E; [|discriminate].
  inversion H; subst. apply strip_prefix_length in E.
  destruct lit; [congruence|]. simpl in E. lia.
Qed.

Lemma parse_value_bound (fuel : nat) :
  forall s, (length s < fuel)%nat ->
    parse_value fuel s <> PFuel
    /\ forall v r, parse_value fuel s = POk v r -> (length r < length s)%nat.
Proof.
  induction fuel as [|f IH]; intros s Hlen; [lia|].
  assert (Hb : forall n, (n < f)%nat -> bounded (parse_value f) n).
  { intros n Hn s' Hs'. apply IH. lia. }
  simpl.
  destruct (skip_ws s) as [|c r] eqn:E; [split; discriminate|].
  apply skip_ws_cons in E.
  destruct (isc c "{").
  { destruct (skip_ws r) as [|d r'] eqn:E'; [split; discriminate|].
    apply skip_ws_cons in E'.
    destruct (isc d "}").
    - split; [discriminate|]. intros v r0 H. inversion H; subst. lia.
    - destruct (parse_members_bound (parse_value f) f r []) as [H1 H2];
        [lia|apply Hb; lia|].
      destruct (parse_members (parse_value f) f r []) as [fs rest| |] eqn:Em;
        [|split; discriminate|congruence].
      split; [discriminate|]. intros v r0 H. inversion H; subst.
      specialize (H2 _ _ eq_refl). lia. }
  destruct (isc c "[").
  { destruct (skip_ws r) as [|d r'] eqn:E'; [split; discriminate|].
    apply skip_ws_cons in E'.
    destruct (isc d "]").
    - split; [discriminate|]. intros v r0 H. inversion H; subst. lia.
    - destruct (parse_elements_bound (parse_value f) f r []) as [H1 H2];
        [lia|apply Hb; lia|].
      destruct (parse_elements (parse_value f) f r []) as [l rest| |] eqn:Em;
        [|split; discriminate|congruence].
      split; [discriminate|]. intros v r0 H. inversion H; subst.
      specialize (H2 _ _ eq_refl). lia. }
  destruct (c =? 34)%N.
  { destruct (parse_string_body r) as [[str rest]|] eqn:Es; split;
      try discriminate.
    intros v r0 H. inversion H; subst. apply parse_string_body_length in Es. lia. }
  assert (Hlit : forall lit w, lit <> [] ->
            parse_literal lit w (c :: r) <> PFuel
            /\ forall v r0, parse_literal lit w (c :: r) = POk v r0 ->
                            (length r0 < length s)%nat).
  { intros lit w Hl. split.
    - unfold parse_literal. destruct (strip_prefix lit (c :: r)); discriminate.
    - intros v r0 H. apply parse_literal_length in H; [|exact Hl].
      simpl in H. lia. }
  destruct (isc c "t"); [apply Hlit; discriminate|].
  destruct (isc c "f"); [apply Hlit; discriminate|].
  destruct (isc c "n"); [apply Hlit; discriminate|].
  destruct (parse_number (c :: r)) as [[n rest]|] eqn:En; split; try discriminate.
  intros v r0 H. inversion H; subst. apply parse_number_length in En.
  simpl in En. lia.
Qed.

(** [JSON_parse] gives its parser enough: a [None] is a syntax error. *)
Lemma JSON_parse_bound (text : jsstring) :
  parse_value (S (length text)) text <> PFuel.
Proof. apply parse_value_bound. lia. Qed.

End ParserBound.

(** ** [retry] *)

Section RetryFacts.

Context {T : Type}.
Variables (fn : nat -> Outcome T) (maxRetries : nat) (delayMs : N).

Lemma retry_loop_attempts_le (left : nat) (lastError : option JSError) :
  (retry_attempts (retry_loop fn maxRetries delayMs left lastError) <= left)%nat.
Proof.
  revert lastError. induction left as [|l IH]; intros lastError; simpl; [lia|].
  destruct (fn (maxRetries - S l)); simpl; [lia|].
  specialize (IH (Some e)). lia.
Qed.

Lemma retry_loop_attempts_pos (left : nat) (lastError : option JSError) :
  (0 < left)%nat ->
  (0 < retry_attempts (retry_loop fn maxRetries delayMs left lastError))%nat.
Proof.
  intros H. destruct left as [|l]; [lia|]. simpl.
  destruct (fn (maxRetries - S l)); simpl; lia.
Qed.

(** The delay slept after attempt number [j] (counted from one) is
    [delayMs * j], and one is slept between any two attempts. *)
Lemma retry_loop_delays (left : nat) (lastError : option JSError) :
  (left <= maxRetries)%nat ->
  retry_delays (retry_loop fn maxRetries delayMs left lastError)
  = map (fun j => (delayMs * N.of_nat j)%N)
      (seq (maxRetries - left + 1)
         (retry_attempts (retry_loop fn maxRetries delayMs left lastError) - 1)).
Proof.
  revert lastError. induction left as [|l IH]; intros lastError Hle; simpl;
    [reflexivity|].
  destruct (fn (maxRetries - S l)) as [v|e]; simpl; [reflexivity|].
  rewrite IH by lia. rewrite Nat.sub_0_r.
  destruct l as [|l'].
  - simpl. replace (maxRetries - 1 <? maxRetries - 1)%nat with false
      by (symmetry; apply Nat.ltb_ge; lia). reflexivity.
  - pose proof (retry_loop_attempts_pos (S l') (Some e) ltac:(lia)) as Hpos.
    replace (maxRetries - S (S l') <? maxRetries - 1)%nat with true
      by (symmetry; apply Nat.ltb_lt; lia).
    destruct (retry_attempts (retry_loop fn maxRetries delayMs (S l') (Some e)))
      as [|a] eqn:Ea; [lia|].
    simpl. rewrite Nat.sub_0_r.
    replace (maxRetries - S l' + 1)%nat with (S (maxRetries - S (S l') + 1))%nat
      by lia.
    reflexivity.
Qed.

(** When every attempt throws, all are made and the last error is thrown. *)
Lemma retry_loop_exhausted (e : nat -> JSError) (left : nat)
  (lastError : option JSError) :
  (forall i, fn i = Thrown (e i)) ->
  (left <= maxRetries)%nat ->
  retry_attempts (retry_loop fn maxRetries delayMs left lastError) = left
  /\ retry_result (retry_loop fn maxRetries delayMs left lastError)
     = inr (match left with
            | O => lastError
            | S _ => Some (e (maxRetries - 1)%nat)
            end).
Proof.
  intros Hfn. revert lastError.
  induction left as [|l IH]; intros lastError Hle; simpl; [split; reflexivity|].
  rewrite Hfn. simpl.
  destruct (IH (Some (e (maxRetries - S l)%nat)) ltac:(lia)) as [Ha Hr].
  rewrite Ha, Hr. split; [reflexivity|].
  destruct l; reflexivity.
Qed.

End RetryFacts.

Lemma retry_three_failures {T} (fn : nat -> Outcome T) (e : nat -> JSError)
  (delayMs : N) :
  (forall i, fn i = Thrown (e i)) ->
  retry fn 3 delayMs
  = {| retry_result := inr (Some (e 2%nat)); retry_attempts := 3;
       retry_delays := [(delayMs * 1)%N; (delayMs * 2)%N] |}.
Proof.
  intros H. unfold retry. simpl. rewrite !H. simpl. reflexivity.
Qed.

(** ** The adapters *)

Section AdapterFacts.

Import Samples.

(** C6. The Ollama adapter fed a line of text and then the line that
    reports [done] yields two chunks whose [isComplete] is true, the marker
    for [done] and the marker after the read loop; fed the single line
    [{"message":{"content":"hi"},"done":true}] it yields three, the text
    chunk being the first of them. *)
Theorem ollama_yields_several_finals :
  OllamaProvider.stream ollama_two_lines
  = {| chunks := [text_chunk (JStr (js "hi")); final_chunk; final_chunk];
       failure := None |}
  /\ final_count (chunks (OllamaProvider.stream ollama_two_lines)) = 2%nat
  /\ OllamaProvider.stream ollama_done_line
     = {| chunks :=
            [{| chunk_content := Some (JStr (js "hi")); toolCall := None;
                isComplete := true |};
             final_chunk; final_chunk];
          failure := None |}
  /\ final_count (chunks (OllamaProvider.stream ollama_done_line)) = 3%nat.
Proof. repeat split; vm_compute; reflexivity. Qed.

(** C5. The MiniMax adapter fed a thinking delta followed by the [DONE]
    line, or by the end of the body, emits the open sentinel and never the
    close sentinel. *)
Theorem minimax_thinking_left_open :
  (let text := emitted_text (chunks (MiniMaxProvider.stream clock 0 minimax_thinking_then_DONE)) in
   text = js "[思考]hmm"
   /\ count_sub MiniMaxProvider.open_sentinel text = 1%nat
   /\ count_sub MiniMaxProvider.close_sentinel text = 0%nat)
  /\ (let text := emitted_text (chunks (MiniMaxProvider.stream clock 0 minimax_thinking_then_end)) in
      text = js "[思考]hmm"
      /\ count_sub MiniMaxProvider.open_sentinel text = 1%nat
      /\ count_sub MiniMaxProvider.close_sentinel text = 0%nat)
  /\ failure (MiniMaxProvider.stream clock 0 minimax_thinking_then_DONE) = None
  /\ failure (MiniMaxProvider.stream clock 0 minimax_thinking_then_end) = None.
Proof. repeat split; vm_compute; reflexivity. Qed.

(** The [DONE] line ends the generator with the final chunk and nothing
    else, whatever the state: an open thinking block stays open. *)
Lemma minimax_DONE_closes_nothing (o : Oracle) (st : MiniMaxProvider.State) :
  MiniMaxProvider.on_line o (js "data: [DONE]") st = ([final_chunk], st, true).
Proof. reflexivity. Qed.

Lemma is_string_eq (v : option JValue) (lit : jsstring) :
  MiniMaxProvider.is_string v lit = true -> v = Some (JStr lit).
Proof.
  destruct v as [[]|]; cbn; try discriminate.
  intros H. apply str_eqb_eq in H. subst. reflexivity.
Qed.

(** A text delta that arrives while a thinking block is open is preceded
    by the close sentinel. *)
Lemma minimax_text_closes_thinking (o : Oracle) (parsed d v : JValue)
  (st : MiniMaxProvider.State) :
  prop (js "delta") parsed = Some d ->
  MiniMaxProvider.is_string (prop (js "type") d) (js "text_delta") = true ->
  prop (js "text") d = Some v -> truthy v = true ->
  prop (js "content_block") parsed = None ->
  MiniMaxProvider.is_string (prop (js "type") parsed) (js "message_stop") = false ->
  MiniMaxProvider.hasYieldThinking st = true ->
  fst (fst (MiniMaxProvider.on_event o parsed st))
  = [text_chunk (JStr MiniMaxProvider.close_sentinel); text_chunk v]
  /\ MiniMaxProvider.hasYieldThinking (snd (fst (MiniMaxProvider.on_event o parsed st)))
     = false.
Proof.
  intros Hd Ht Hv Htr Hc Hstop Hopen.
  assert (Hd' : exists fs, d = JObj fs).
  { destruct d; try discriminate Hv. eexists. reflexivity. }
  destruct Hd' as [fs ->].
  apply is_string_eq in Ht.
  unfold MiniMaxProvider.on_event. rewrite Hd, Hc, Hstop.
  change (opt_prop (js "type") (Some (JObj fs))) with (prop (js "type") (JObj fs)).
  change (opt_prop (js "text") (Some (JObj fs))) with (prop (js "text") (JObj fs)).
  rewrite Ht, Hv.
  change (MiniMaxProvider.is_string (Some (JStr (js "text_delta"))) (js "thinking_delta"))
    with false.
  change (MiniMaxProvider.is_string (Some (JStr (js "text_delta"))) (js "text_delta"))
    with true.
  change (MiniMaxProvider.is_string (Some (JStr (js "text_delta")))
            (js "input_json_delta")) with false.
  change (opt_prop (js "type") None) with (@None JValue).
  change (MiniMaxProvider.is_string None (js "tool_use")) with false.
  cbn [andb opt_truthy]. rewrite Htr, Hopen.
  split; reflexivity.
Qed.

(** What a pure [message_stop] event yields. *)
Lemma minimax_message_stop (o : Oracle) (parsed : JValue)
  (st : MiniMaxProvider.State) :
  MiniMaxProvider.is_string (prop (js "type") parsed) (js "message_stop") = true ->
  prop (js "delta") parsed = None ->
  prop (js "content_block") parsed = None ->
  MiniMaxProvider.on_event o parsed st
  = ((if MiniMaxProvider.hasYieldThinking st
      then [text_chunk (JStr MiniMaxProvider.close_sentinel)] else [])
     ++ MiniMaxProvider.inline_chunks o (MiniMaxProvider.tick st)
          (MiniMaxProvider.matchAll_tool_calls 0 (MiniMaxProvider.fullTextContent st))
     ++ match MiniMaxProvider.currentToolCall st with
        | Some acc => MiniMaxProvider.finalize acc
        | None => []
        end
     ++ [final_chunk],
     {| MiniMaxProvider.hasYieldThinking := MiniMaxProvider.hasYieldThinking st;
        MiniMaxProvider.currentToolCall := None;
        MiniMaxProvider.fullTextContent := MiniMaxProvider.fullTextContent st;
        MiniMaxProvider.tick :=
          (MiniMaxProvider.tick st
           + 2 * length (MiniMaxProvider.matchAll_tool_calls 0
                           (MiniMaxProvider.fullTextContent st)))%nat |},
     true).
Proof.
  intros Ht Hd Hc. unfold MiniMaxProvider.on_event.
  rewrite Hd, Hc, Ht.
  change (opt_prop (js "type") None) with (@None JValue).
  change (MiniMaxProvider.is_string None (js "thinking_delta")) with false.
  change (MiniMaxProvider.is_string None (js "text_delta")) with false.
  change (MiniMaxProvider.is_string None (js "tool_use")) with false.
  change (MiniMaxProvider.is_string None (js "input_json_delta")) with false.
  cbn [andb app].
  reflexivity.
Qed.

Lemma emitted_calls_app (a b : list AIStreamChunk) :
  emitted_calls (a ++ b) = emitted_calls a ++ emitted_calls b.
Proof. unfold emitted_calls. apply omap_app. Qed.

Lemma emitted_calls_inline (o : Oracle) (t : nat) (ms : list (jsstring * jsstring)) :
  length (emitted_calls (MiniMaxProvider.inline_chunks o t ms)) = length ms.
Proof.
  revert t. induction ms as [|[n p] ms IH]; intros t; [reflexivity|].
  cbn. f_equal. apply IH.
Qed.

(** The MiniMax generator throws only what the response throws: whatever
    the body says, a body that is delivered whole ends the generator
    normally. *)
Lemma minimax_stream_no_failure (o : Oracle) (t : nat) (status : N)
  (statusText : jsstring) (pieces : list jsstring) :
  failure (MiniMaxProvider.stream o t
             (Resolved {| resp_ok := true; resp_status := status;
                          resp_statusText := statusText;
                          resp_body := Some pieces;
                          resp_body_error := None |}))
  = None.
Proof.
  unfold MiniMaxProvider.stream. cbn [resp_ok resp_body resp_body_error negb].
  destruct (MiniMaxProvider.on_pieces o pieces [] (MiniMaxProvider.initial t))
    as [[out st] returned].
  destruct returned; reflexivity.
Qed.

Lemma final_count_app (a b : list AIStreamChunk) :
  final_count (a ++ b) = (final_count a + final_count b)%nat.
Proof. unfold final_count. rewrite List.filter_app, length_app. reflexivity. Qed.

Lemma inline_chunks_not_final (o : Oracle) (t : nat) (ms : list (jsstring * jsstring)) :
  final_count (MiniMaxProvider.inline_chunks o t ms) = 0%nat.
Proof.
  revert t. induction ms as [|[n p] ms IH]; intros t; [reflexivity|].
  cbn [MiniMaxProvider.inline_chunks]. apply (IH (t + 2)%nat).
Qed.

Lemma finalize_not_final (acc : MiniMaxProvider.Accumulating) :
  final_count (MiniMaxProvider.finalize acc) = 0%nat.
Proof.
  unfold MiniMaxProvider.finalize.
  destruct (JSON_parse (MiniMaxProvider.arguments_text acc)); reflexivity.
Qed.

Lemma on_event_one_final (o : Oracle) (parsed : JValue) (st : MiniMaxProvider.State) :
  MiniMaxProvider.one_final_if_returned (MiniMaxProvider.on_event o parsed st).
Proof.
  unfold MiniMaxProvider.on_event, MiniMaxProvider.one_final_if_returned.
  repeat match goal with
         | |- context [let '(_, _) := (if ?b then _ else _) in _] => destruct b
         end;
    cbv zeta; cbn [fst snd];
    match goal with
    | |- context [if MiniMaxProvider.is_string (prop ?k ?p) ?l then _ else _] =>
      destruct (MiniMaxProvider.is_string (prop k p) l)
    end;
    cbn [fst snd];
    first
      [ rewrite !final_count_app;
        repeat match goal with
               | |- context [if ?b then _ else _] => destruct b
               end;
        reflexivity
      | eexists; split;
        [ rewrite !app_assoc; reflexivity
        | rewrite !final_count_app, inline_chunks_not_final;
          repeat match goal with
                 | |- context [match ?x with Some _ => _ | None => _ end] =>
                   destruct x eqn:?
                 | |- context [if ?b then _ else _] => destruct b
                 end;
          rewrite ?finalize_not_final; reflexivity ] ].
Qed.

Lemma on_line_one_final (o : Oracle) (line : jsstring) (st : MiniMaxProvider.State) :
  MiniMaxProvider.one_final_if_returned (MiniMaxProvider.on_line o line st).
Proof.
  unfold MiniMaxProvider.on_line.
  destruct (trim line); [reflexivity|].
  destruct (strip_prefix (js "data: ") line) as [payload|]; [|reflexivity].
  destruct (str_eqb (trim payload) (js "[DONE]")).
  { exists []. split; reflexivity. }
  destruct (JSON_parse (trim payload)) as [[]|]; try reflexivity;
    apply on_event_one_final.
Qed.

Lemma on_lines_one_final (o : Oracle) (lines : list jsstring) :
  forall st, MiniMaxProvider.one_final_if_returned (MiniMaxProvider.on_lines o lines st).
Proof.
  induction lines as [|line rest IH]; intros st; [reflexivity|].
  cbn [MiniMaxProvider.on_lines].
  pose proof (on_line_one_final o line st) as H1.
  destruct (MiniMaxProvider.on_line o line st) as [[out st'] returned].
  destruct returned; [exact H1|].
  pose proof (IH st') as H2.
  destruct (MiniMaxProvider.on_lines o rest st') as [[out' st''] returned'].
  unfold MiniMaxProvider.one_final_if_returned in *. cbn [fst snd] in *.
  destruct returned'.
  - destruct H2 as [pre [-> Hpre]]. exists (out ++ pre).
    split; [apply app_assoc|]. rewrite final_count_app. lia.
  - rewrite final_count_app. lia.
Qed.

Lemma on_pieces_one_final (o : Oracle) (pieces : list jsstring) :
  forall buffer st,
    MiniMaxProvider.one_final_if_returned (MiniMaxProvider.on_pieces o pieces buffer st).
Proof.
  induction pieces as [|piece rest IH]; intros buffer st; [reflexivity|].
  cbn [MiniMaxProvider.on_pieces].
  destruct (split_lines (buffer ++ piece)) as [lines buffer'].
  pose proof (on_lines_one_final o lines st) as H1.
  destruct (MiniMaxProvider.on_lines o lines st) as [[out st'] returned].
  destruct returned; [exact H1|].
  pose proof (IH buffer' st') as H2.
  destruct (MiniMaxProvider.on_pieces o rest buffer' st') as [[out' st''] returned'].
  unfold MiniMaxProvider.one_final_if_returned in *. cbn [fst snd] in *.
  destruct returned'.
  - destruct H2 as [pre [-> Hpre]]. exists (out ++ pre).
    split; [apply app_assoc|]. rewrite final_count_app. lia.
  - rewrite final_count_app. lia.
Qed.

(** X4. The MiniMax adapter returns after its final chunk: a stream that
    ends without failure yields exactly one final chunk, and it is the
    last. *)
Lemma minimax_one_final_chunk (o : Oracle) (t : nat) (fetched : Fetched) :
  failure (MiniMaxProvider.stream o t fetched) = None ->
  final_count (chunks (MiniMaxProvider.stream o t fetched)) = 1%nat
  /\ last (chunks (MiniMaxProvider.stream o t fetched)) = Some final_chunk.
Proof.
  unfold MiniMaxProvider.stream.
  destruct fetched as [e|response]; [discriminate|].
  destruct (negb (resp_ok response)); [discriminate|].
  destruct (resp_body response) as [pieces|]; [|discriminate].
  pose proof (on_pieces_one_final o pieces [] (MiniMaxProvider.initial t)) as H.
  destruct (MiniMaxProvider.on_pieces o pieces [] (MiniMaxProvider.initial t))
    as [[out st] returned].
  unfold MiniMaxProvider.one_final_if_returned in H. cbn [fst snd] in H.
  destruct returned.
  - intros _. destruct H as [pre [-> Hpre]]. cbn [chunks].
    rewrite final_count_app, Hpre. split; [reflexivity|apply last_snoc].
  - destruct (resp_body_error response); [discriminate|].
    intros _. cbn [chunks]. rewrite final_count_app, H.
    split; [reflexivity|apply last_snoc].
Qed.

(** C1, counterexample. The argument text [{"path":] does not parse; the
    MiniMax adapter then surfaces no tool call at all for the block, and the
    DeepSeek adapter ends the stream with the [SyntaxError]. *)
Lemma malformed_arguments_not_coerced :
  JSON_parse bad_arguments = None
  /\ MiniMaxProvider.stream clock 0 minimax_bad_arguments
     = {| chunks := [final_chunk]; failure := None |}
  /\ emitted_calls (chunks (MiniMaxProvider.stream clock 0 minimax_bad_arguments)) = []
  /\ DeepSeekProvider.stream deepseek_bad_arguments
     = {| chunks := []; failure := Some (SyntaxError bad_arguments) |}.
Proof. repeat split; vm_compute; reflexivity. Qed.

(** C1, as amended. In the MiniMax adapter, a structurally typed call whose
    argument text does not parse is dropped at [message_stop]: the event
    yields exactly what it yields when no call is open, ending with the
    final chunk, and the generator does not throw; argument text that is
    empty is read as the empty mapping; and a call that is surfaced carries
    the value that [JSON.parse] returned. *)
Theorem minimax_unparsable_arguments_dropped
  (o : Oracle) (parsed : JValue) (st : MiniMaxProvider.State)
  (acc : MiniMaxProvider.Accumulating)
  (Hstop : MiniMaxProvider.is_string (prop (js "type") parsed) (js "message_stop") = true)
  (Hdelta : prop (js "delta") parsed = None)
  (Hblock : prop (js "content_block") parsed = None)
  (Hopen : MiniMaxProvider.currentToolCall st = Some acc)
  (Hbad : JSON_parse (MiniMaxProvider.arguments_text acc) = None) :
  MiniMaxProvider.on_event o parsed st
  = MiniMaxProvider.on_event o parsed
      {| MiniMaxProvider.hasYieldThinking := MiniMaxProvider.hasYieldThinking st;
         MiniMaxProvider.currentToolCall := None;
         MiniMaxProvider.fullTextContent := MiniMaxProvider.fullTextContent st;
         MiniMaxProvider.tick := MiniMaxProvider.tick st |}
  /\ last (fst (fst (MiniMaxProvider.on_event o parsed st))) = Some final_chunk
  /\ (forall t status statusText pieces,
        failure (MiniMaxProvider.stream o t
                   (Resolved {| resp_ok := true; resp_status := status;
                                resp_statusText := statusText;
                                resp_body := Some pieces;
                                resp_body_error := None |}))
        = None)
  /\ (forall id name,
        MiniMaxProvider.finalize
          {| MiniMaxProvider.acc_id := id; MiniMaxProvider.acc_name := name;
             MiniMaxProvider.acc_arguments := [] |}
        = [call_chunk {| tc_id := id; tc_name := name; tc_arguments := JObj [] |}
             false])
  /\ (forall acc' tc,
        In tc (emitted_calls (MiniMaxProvider.finalize acc')) ->
        JSON_parse (MiniMaxProvider.arguments_text acc') = Some (tc_arguments tc)).
Proof.
  assert (Hfin : MiniMaxProvider.finalize acc = []).
  { unfold MiniMaxProvider.finalize. rewrite Hbad.
    reflexivity. }
  split; [|split; [|split; [|split]]].
  - rewrite !minimax_message_stop by assumption. cbn [MiniMaxProvider.hasYieldThinking
      MiniMaxProvider.currentToolCall MiniMaxProvider.fullTextContent
      MiniMaxProvider.tick]. rewrite Hopen, Hfin. reflexivity.
  - rewrite minimax_message_stop by assumption. cbn [fst].
    rewrite !app_assoc. apply last_snoc.
  - intros. apply minimax_stream_no_failure.
  - intros. vm_compute. reflexivity.
  - intros acc' tc. unfold MiniMaxProvider.finalize.
    destruct (JSON_parse (MiniMaxProvider.arguments_text acc')) as [args|]; cbn.
    + intros [<-|[]]. reflexivity.
    + intros [].
Qed.

Lemma minimax_unparsable_arguments_dropped_witness :
  fst (fst (MiniMaxProvider.on_event clock message_stop_event state_bad_arguments))
  = [final_chunk].
Proof.
  rewrite (proj1 (minimax_unparsable_arguments_dropped clock message_stop_event
                    state_bad_arguments _ eq_refl eq_refl eq_refl eq_refl eq_refl)).
  vm_compute. reflexivity.
Defined.





End AdapterFacts.

(** ** Retried and not retried *)

(** C7. A chat request is retried: at most [maxRetries] attempts are made,
    the delay slept after attempt [j] is [delayMs * j], and with the
    defaults (three attempts, 1000 ms) a request whose every attempt throws
    makes three attempts, sleeps 1000 and 2000 ms and throws the last
    error; this holds for the chat of every provider.  A stream request is
    made once: when the request is rejected or answered with a status that
    is not ok, the generator ends with that error before any chunk, and
    when the body fails while it is read, the generator ends with a
    failure (unless it had returned already, after its final chunk). *)
Theorem chat_retried_stream_not
  (T : Type) (fn : nat -> Outcome T) (e : nat -> JSError)
  (peer : nat -> Fetched) (ep : nat -> JSError)
  (Hfn : forall i, fn i = Thrown (e i))
  (Hpeer : forall i, OllamaProvider.chat_attempt (peer i) = Thrown (ep i)) :
  (forall (g : nat -> Outcome T) (maxRetries : nat) (delayMs : N),
      (retry_attempts (retry g maxRetries delayMs) <= maxRetries)%nat
      /\ retry_delays (retry g maxRetries delayMs)
         = map (fun j => (delayMs * N.of_nat j)%N)
             (seq 1 (retry_attempts (retry g maxRetries delayMs) - 1)))
  /\ (let exhausted (last : JSError) : Retried T :=
        {| retry_result := inr (Some last); retry_attempts := 3;
           retry_delays := [1000%N; 2000%N] |} in
      MiniMaxProvider.chat fn = exhausted (e 2%nat)
      /\ DeepSeekProvider.chat fn = exhausted (e 2%nat)
      /\ ClaudeProvider.chat fn = exhausted (e 2%nat))
  /\ OllamaProvider.chat peer
     = {| retry_result := inr (Some (ep 2%nat)); retry_attempts := 3;
          retry_delays := [1000%N; 2000%N] |}
  /\ (forall (err : JSError) (o : Oracle) (t : nat),
        OllamaProvider.stream (Rejected err) = {| chunks := []; failure := Some err |}
        /\ MiniMaxProvider.stream o t (Rejected err)
           = {| chunks := []; failure := Some err |}
        /\ DeepSeekProvider.stream (Thrown err)
           = {| chunks := []; failure := Some err |}
        /\ ClaudeProvider.stream (Thrown err)
           = {| chunks := []; failure := Some err |})
  /\ (forall (response : Response),
        resp_ok response = false ->
        OllamaProvider.stream (Resolved response)
        = {| chunks := []; failure := Some (OllamaProvider.api_error response) |}
        /\ forall o t,
             MiniMaxProvider.stream o t (Resolved response)
             = {| chunks := [];
                  failure := Some (MiniMaxProvider.api_error response) |})
  /\ (forall (err : JSError) (status : N) (statusText : jsstring)
        (pieces : list jsstring),
        let cut :=
          Resolved {| resp_ok := true; resp_status := status;
                      resp_statusText := statusText; resp_body := Some pieces;
                      resp_body_error := Some err |} in
        failure (OllamaProvider.stream cut) = Some err
        /\ forall o t,
             failure (MiniMaxProvider.stream o t cut) = Some err
             \/ (failure (MiniMaxProvider.stream o t cut) = None
                 /\ last (chunks (MiniMaxProvider.stream o t cut))
                    = Some final_chunk))
  /\ (forall (err : JSError) cs es,
        failure (DeepSeekProvider.stream (Returned (cs, Some err))) <> None
        /\ failure (ClaudeProvider.stream (Returned (es, Some err))) <> None).
Proof.
  split; [|split; [|split; [|split; [|split; [|split]]]]].
  - intros g maxRetries delayMs. split.
    + unfold retry. apply retry_loop_attempts_le.
    + unfold retry. rewrite retry_loop_delays by lia.
      rewrite Nat.sub_diag. reflexivity.
  - cbv zeta. split; [|split].
    + unfold MiniMaxProvider.chat. apply retry_three_failures, Hfn.
    + unfold DeepSeekProvider.chat. apply retry_three_failures, Hfn.
    + unfold ClaudeProvider.chat. apply retry_three_failures, Hfn.
  - unfold OllamaProvider.chat.
    apply (retry_three_failures (fun i => OllamaProvider.chat_attempt (peer i)) ep).
    exact Hpeer.
  - intros err o t. repeat split.
  - intros response Hok. split.
    + unfold OllamaProvider.stream. rewrite Hok. reflexivity.
    + intros o t. unfold MiniMaxProvider.stream. rewrite Hok. reflexivity.
  - intros err status statusText pieces cut. split; [reflexivity|].
    intros o t. unfold cut, MiniMaxProvider.stream.
    cbn [resp_ok resp_body resp_body_error negb].
    pose proof (on_pieces_one_final o pieces [] (MiniMaxProvider.initial t)) as H.
    destruct (MiniMaxProvider.on_pieces o pieces [] (MiniMaxProvider.initial t))
      as [[out st] returned].
    unfold MiniMaxProvider.one_final_if_returned in H. cbn [fst snd] in H.
    destruct returned; [right|left; reflexivity].
    destruct H as [pre [-> _]]. split; [reflexivity|apply last_snoc].
  - intros err cs es. split.
    + unfold DeepSeekProvider.stream. cbn [failure].
      destruct (failure (DeepSeekProvider.on_chunks cs None)); discriminate.
    + unfold ClaudeProvider.stream. cbn [failure].
      destruct (failure (ClaudeProvider.on_events es None)); discriminate.
Qed.

Lemma chat_retried_stream_not_witness :
  let refused := Error (js "connect ECONNREFUSED") in
  OllamaProvider.chat (fun _ => Rejected refused)
  = {| retry_result := inr (Some refused); retry_attempts := 3;
       retry_delays := [1000%N; 2000%N] |}.
Proof.
  intros refused.
  exact (proj1 (proj2 (proj2
    (chat_retried_stream_not JValue (fun _ => Thrown refused) (fun _ => refused)
       (fun _ => Rejected refused) (fun _ => refused)
       (fun _ => eq_refl) (fun _ => eq_refl))))).
Defined.

(** ** The server's computations *)

Section ServerFacts.

Import Server Observations.

Variable env : Env.

Lemma after_after {A} (a b : list Event) (r : Ran A) :
  after a (after b r) = after (a ++ b) r.
Proof. unfold after. cbn [outcome world trace]. rewrite app_assoc. reflexivity. Qed.

Lemma after_nil {A} (r : Ran A) : after [] r = r.
Proof. destruct r. reflexivity. Qed.

Lemma bind_run {A B} (m : M A) (f : A -> M B) (w : World) :
  bind m f w
  = match outcome (m w) with
    | inl a => after (trace (m w)) (f a (world (m w)))
    | inr e => {| outcome := inr e; world := world (m w); trace := trace (m w) |}
    end.
Proof. reflexivity. Qed.

(** *** Computations that do not throw *)

Lemma total_ret {A} (a : A) : total (ret a).
Proof. intros w. exists a. reflexivity. Qed.

Lemma total_emit (e : Event) : total (emit e).
Proof. intros w. exists tt. reflexivity. Qed.

Lemma total_bind {A B} (m : M A) (f : A -> M B) :
  total m -> (forall a, total (f a)) -> total (bind m f).
Proof.
  intros Hm Hf w. rewrite bind_run. destruct (Hm w) as [a Ha]. rewrite Ha.
  destruct (Hf a (world (m w))) as [b Hb]. exists b. exact Hb.
Qed.

(** *** What each operation does *)

Lemma createTask_run (type : jsstring) (params : ToolCall) (w : World) :
  createTask env type params w
  = {| outcome := inl (created env type params w); world := ticked 3 w;
       trace := [] |}.
Proof. reflexivity. Qed.

Lemma execute_run (task : Task) (w : World) :
  execute env task w
  = {| outcome := inl (finished env task w);
       world := executed_world env task w;
       trace :=
         [TASK_UPDATE (started env task w); TOOL_CALL (task_params task);
          TOOL_RESULT (registry_result env (task_params task) w);
          TASK_UPDATE (finished env task w)] |}.
Proof. reflexivity. Qed.

Lemma addMessage_run (sessionId : jsstring) (r : MessageRole) (text : jsstring)
  (w : World) :
  addMessage env sessionId r text w
  = {| outcome := inl tt; world := message_added env sessionId r text w;
       trace := [] |}.
Proof.
  unfold addMessage, message_added. rewrite bind_run.
  cbn [get_world outcome world trace].
  destruct (sessions w !! sessionId); [reflexivity|].
  rewrite after_nil. reflexivity.
Qed.

Lemma settle_result (task : Task) (result : JValue) (now : N) :
  task_result (settle task result now) = Some result.
Proof. destruct result; reflexivity. Qed.

Lemma finished_result (task : Task) (w : World) :
  task_result (finished env task w)
  = Some (registry_result env (task_params task) w).
Proof. apply settle_result. Qed.

Lemma execute_new_cons (sessionId : jsstring) (toolCall : ToolCall)
  (rest : list ToolCall) (w : World) :
  execute_new env sessionId (toolCall :: rest) w
  = after (call_events env toolCall w)
      (execute_new env sessionId rest (call_world env sessionId toolCall w)).
Proof.
  cbn [execute_new].
  rewrite bind_run, createTask_run. cbn [outcome world trace].
  rewrite bind_run, execute_run. cbn [outcome world trace].
  rewrite bind_run. cbn [emit outcome world trace].
  rewrite bind_run, addMessage_run. cbn [outcome world trace].
  rewrite !after_after.
  rewrite !finished_result. reflexivity.
Qed.

Lemma execute_pending_cons (sessionId : jsstring) (toolCall : ToolCall)
  (rest : list ToolCall) (w : World) :
  execute_pending env sessionId (toolCall :: rest) w
  = after (onToolCall toolCall :: call_events env toolCall w)
      (execute_pending env sessionId rest (call_world env sessionId toolCall w)).
Proof.
  cbn [execute_pending].
  rewrite bind_run. cbn [emit outcome world trace].
  rewrite bind_run, createTask_run. cbn [outcome world trace].
  rewrite bind_run, execute_run. cbn [outcome world trace].
  rewrite bind_run. cbn [emit outcome world trace].
  rewrite bind_run, addMessage_run. cbn [outcome world trace].
  rewrite !after_after.
  rewrite !finished_result. reflexivity.
Qed.

Lemma executeToolCall_run (toolCall : ToolCall) (w : World) :
  executeToolCall env toolCall w
  = {| outcome := inl (direct_result env toolCall w); world := ticked 1 w;
       trace := [TOOL_CALL toolCall; TOOL_RESULT (direct_result env toolCall w)] |}.
Proof. reflexivity. Qed.

Lemma executed_app (a b : list Event) : executed (a ++ b) = executed a ++ executed b.
Proof. apply omap_app. Qed.

Lemma results_sent_app (a b : list Event) :
  results_sent (a ++ b) = results_sent a ++ results_sent b.
Proof. apply omap_app. Qed.

Lemma aiService_stream_run (history : list Message) (useTools : bool) (w : World) :
  aiService_stream env history useTools w
  = {| outcome := inl (request env history useTools w); world := ticked 1 w;
       trace := [stream_request history useTools] |}.
Proof. reflexivity. Qed.

Lemma emitted_text_cons (c : AIStreamChunk) (cs : list AIStreamChunk) :
  emitted_text (c :: cs) = chunk_text c ++ emitted_text cs.
Proof. reflexivity. Qed.

Lemma emitted_calls_cons (c : AIStreamChunk) (cs : list AIStreamChunk) :
  emitted_calls (c :: cs)
  = match toolCall c with Some tc => [tc] | None => [] end ++ emitted_calls cs.
Proof. unfold emitted_calls. cbn. destruct (toolCall c); reflexivity. Qed.

Lemma consume_turn_run (cs : list AIStreamChunk) (fl : option JSError) :
  forall (text : jsstring) (calls : list ToolCall) (w : World),
    consume_turn cs fl text calls w
    = {| outcome :=
           match pulled {| chunks := cs; failure := fl |} with
           | inl tc => inl (text ++ fst tc, calls ++ snd tc)
           | inr e => inr e
           end;
         world := w;
         trace := map onChunk (taken cs) |}.
Proof.
  induction cs as [|c cs IH]; intros text calls w.
  - unfold pulled. cbn. destruct fl; cbn; rewrite ?app_nil_r; reflexivity.
  - cbn [consume_turn]. rewrite bind_run. cbn [emit outcome world trace].
    unfold pulled. cbn [chunks failure existsb taken].
    destruct (isComplete c) eqn:Hc.
    + cbn. destruct (toolCall c); cbn; rewrite ?app_nil_r; reflexivity.
    + rewrite IH. unfold after, pulled. cbn [outcome world trace chunks failure orb].
      rewrite emitted_text_cons, emitted_calls_cons.
      destruct (toolCall c); (destruct (existsb isComplete cs); [|destruct fl]);
        cbn [fst snd app]; rewrite <- ?app_assoc; cbn [app]; reflexivity.
Qed.

Lemma consume_followUp_run (cs : list AIStreamChunk) (fl : option JSError) :
  forall (text : jsstring) (calls : list ToolCall) (w : World),
    consume_followUp cs fl text calls w
    = {| outcome :=
           match pulled {| chunks := cs; failure := fl |} with
           | inl tc => inl (text ++ fst tc, calls ++ snd tc)
           | inr e => inr e
           end;
         world := w;
         trace := followUp_events (taken cs) |}.
Proof.
  induction cs as [|c cs IH]; intros text calls w.
  - unfold pulled. cbn. destruct fl; cbn; rewrite ?app_nil_r; reflexivity.
  - cbn [consume_followUp]. rewrite bind_run.
    assert (He : forall (b : bool) (e : Event) (w0 : World),
               (if b then emit e else ret tt) w0
               = {| outcome := inl tt; world := w0;
                    trace := if b then [e] else [] |}).
    { intros [] e w0; reflexivity. }
    rewrite He. cbn [outcome world trace]. rewrite bind_run.
    assert (Ht : forall (o : option ToolCall) (w0 : World),
               match o with Some tc => emit (onToolCall tc) | None => ret tt end w0
               = {| outcome := inl tt; world := w0;
                    trace := match o with Some tc => [onToolCall tc] | None => [] end |}).
    { intros [] w0; reflexivity. }
    rewrite Ht. cbn [outcome world trace].
    unfold pulled. cbn [chunks failure existsb taken].
    destruct (isComplete c) eqn:Hc.
    + cbn [fst snd]. rewrite emitted_text_cons, emitted_calls_cons.
      unfold after. cbn [outcome world trace ret followUp_events flat_map].
      destruct (toolCall c); destruct (opt_truthy (chunk_content c));
        cbn; rewrite ?app_nil_r; reflexivity.
    + rewrite IH. unfold after, pulled.
      cbn [outcome world trace chunks failure orb followUp_events flat_map].
      rewrite emitted_text_cons, emitted_calls_cons.
      destruct (toolCall c); destruct (opt_truthy (chunk_content c));
        (destruct (existsb isComplete cs); [|destruct fl]);
        cbn [fst snd app]; rewrite <- ?app_assoc; cbn [app]; reflexivity.
Qed.

(** *** The two batch paths *)

Lemma execute_pending_all (sessionId : jsstring) (toolCalls : list ToolCall) :
  forall w,
    outcome (execute_pending env sessionId toolCalls w) = inl tt
    /\ executed (trace (execute_pending env sessionId toolCalls w)) = toolCalls
    /\ length (results_sent (trace (execute_pending env sessionId toolCalls w)))
       = length toolCalls.
Proof.
  induction toolCalls as [|tc rest IH]; intros w.
  - repeat split.
  - rewrite execute_pending_cons. cbn [after outcome trace].
    destruct (IH (call_world env sessionId tc w)) as [Ho [He Hr]].
    split; [exact Ho|]. split.
    + change (onToolCall tc :: call_events env tc w)
        with ([onToolCall tc] ++ call_events env tc w).
      rewrite !executed_app, He. reflexivity.
    + change (onToolCall tc :: call_events env tc w)
        with ([onToolCall tc] ++ call_events env tc w).
      rewrite !results_sent_app, !length_app, Hr. reflexivity.
Qed.

Lemma execute_new_all (sessionId : jsstring) (toolCalls : list ToolCall) :
  forall w,
    outcome (execute_new env sessionId toolCalls w) = inl tt
    /\ executed (trace (execute_new env sessionId toolCalls w)) = toolCalls
    /\ length (results_sent (trace (execute_new env sessionId toolCalls w)))
       = length toolCalls.
Proof.
  induction toolCalls as [|tc rest IH]; intros w.
  - repeat split.
  - rewrite execute_new_cons. cbn [after outcome trace].
    destruct (IH (call_world env sessionId tc w)) as [Ho [He Hr]].
    split; [exact Ho|]. split.
    + rewrite executed_app, He. reflexivity.
    + rewrite results_sent_app, length_app, Hr. reflexivity.
Qed.

Lemma executeToolCalls_cons (toolCall : ToolCall) (rest : list ToolCall) (w : World) :
  executeToolCalls env (toolCall :: rest) w
  = after [TOOL_CALL toolCall; TOOL_RESULT (direct_result env toolCall w)]
      (batch_rest env (direct_result env toolCall w) rest (ticked 1 w)).
Proof.
  cbn [executeToolCalls]. rewrite bind_run, executeToolCall_run.
  cbn [outcome world trace]. unfold batch_rest, succeeded.
  destruct (direct_result env toolCall w); reflexivity.
Qed.

Lemma executeToolCalls_stops (toolCalls : list ToolCall) :
  forall w results,
    outcome (executeToolCalls env toolCalls w) = inl results ->
    executed (trace (executeToolCalls env toolCalls w))
    = firstn (length results) toolCalls
    /\ results_sent (trace (executeToolCalls env toolCalls w)) = results
    /\ (length results <= length toolCalls)%nat
    /\ Forall (fun r => succeeded r = true) (removelast results)
    /\ ((length results < length toolCalls)%nat ->
        exists r, last results = Some r /\ succeeded r = false).
Proof.
  induction toolCalls as [|tc rest IH]; intros w results H.
  - inversion H; subst. cbn. repeat split; try lia; constructor.
  - rewrite executeToolCalls_cons in H |- *. cbn [after outcome trace] in H |- *.
    set (r := direct_result env tc w) in *.
    assert (Hcases :
      (succeeded r = false /\ results = [r]
       /\ trace (batch_rest env r rest (ticked 1 w)) = [])
      \/ (succeeded r = true
          /\ exists results', results = r :: results'
             /\ outcome (executeToolCalls env rest (ticked 1 w)) = inl results'
             /\ trace (batch_rest env r rest (ticked 1 w))
                = trace (executeToolCalls env rest (ticked 1 w)))).
    { unfold batch_rest in H |- *.
      destruct (succeeded r) eqn:Hs.
      - right. split; [reflexivity|].
        assert (Hb : outcome (bind (executeToolCalls env rest)
                                (fun results0 => ret (r :: results0)) (ticked 1 w))
                     = inl results).
        { destruct r; try exact H. discriminate Hs. }
        rewrite bind_run in Hb.
        destruct (outcome (executeToolCalls env rest (ticked 1 w)))
          as [results'|e] eqn:Ho; [|discriminate].
        cbn in Hb. inversion Hb; subst. exists results'.
        split; [reflexivity|]. split; [reflexivity|].
        assert (Ht : trace (bind (executeToolCalls env rest)
                              (fun results0 => ret (r :: results0)) (ticked 1 w))
                     = trace (executeToolCalls env rest (ticked 1 w))).
        { rewrite bind_run, Ho. cbn. apply app_nil_r. }
        destruct r; try exact Ht. discriminate Hs.
      - left. split; [reflexivity|].
        destruct r; cbn in H |- *; try discriminate;
          inversion H; subst; split; reflexivity. }
    destruct Hcases as [[Hs [-> Ht]]|[Hs [results' [-> [Ho Ht]]]]].
    + rewrite Ht. cbn. repeat split; try lia; try constructor.
      intros _. exists r. split; [reflexivity|exact Hs].
    + rewrite Ht. destruct (IH (ticked 1 w) results' Ho) as [He [Hr [Hl [Hf Hlast]]]].
      rewrite executed_app, results_sent_app, He, Hr.
      split; [reflexivity|]. split; [reflexivity|].
      split; [cbn [length]; lia|]. split.
      * destruct results' as [|r' rs]; [constructor|].
        change (removelast (r :: r' :: rs)) with (r :: removelast (r' :: rs)).
        constructor; assumption.
      * intros Hlt. destruct Hlast as [r0 [Hl0 Hs0]]; [cbn [length] in Hlt; lia|].
        exists r0. split; [|exact Hs0].
        destruct results' as [|r' rs]; [discriminate|].
        rewrite last_cons, Hl0. reflexivity.
Qed.

(** C9. [executeToolCalls] runs the calls in order and stops after the first
    result whose [success] is falsy: the results it returns are those of a
    prefix of the calls, all successes but possibly the last, and when a
    call was left out the last result is a failure.  The loops of
    [processMessageStream] run every call of the turn in order and never
    throw, whatever the results. *)
Theorem batch_paths_differ_on_failure
  (sessionId : jsstring) (toolCalls : list ToolCall) (w : World)
  (results : list JValue)
  (Hreturned : outcome (executeToolCalls env toolCalls w) = inl results) :
  (executed (trace (executeToolCalls env toolCalls w))
   = firstn (length results) toolCalls
   /\ results_sent (trace (executeToolCalls env toolCalls w)) = results
   /\ (length results <= length toolCalls)%nat
   /\ Forall (fun r => succeeded r = true) (removelast results)
   /\ ((length results < length toolCalls)%nat ->
       exists r, last results = Some r /\ succeeded r = false))
  /\ (outcome (execute_pending env sessionId toolCalls w) = inl tt
      /\ executed (trace (execute_pending env sessionId toolCalls w)) = toolCalls
      /\ length (results_sent (trace (execute_pending env sessionId toolCalls w)))
         = length toolCalls)
  /\ (outcome (execute_new env sessionId toolCalls w) = inl tt
      /\ executed (trace (execute_new env sessionId toolCalls w)) = toolCalls
      /\ length (results_sent (trace (execute_new env sessionId toolCalls w)))
         = length toolCalls).
Proof.
  split; [apply executeToolCalls_stops, Hreturned|].
  split; [apply execute_pending_all|apply execute_new_all].
Qed.


(** *** A round *)

Lemma pulled_eta (g : Generated) :
  pulled {| chunks := chunks g; failure := failure g |} = pulled g.
Proof. reflexivity. Qed.

Lemma store_run (sessionId : jsstring) (text : jsstring) (w : World) :
  (if is_empty (clean text) then ret tt
   else addMessage env sessionId assistant (clean text)) w
  = {| outcome := inl tt; world := stored env sessionId text w; trace := [] |}.
Proof.
  unfold stored. destruct (is_empty (clean text)); [reflexivity|].
  apply addMessage_run.
Qed.

Lemma stream_turn_run (sessionId : jsstring) (currentRound : nat) (w : World) :
  stream_turn env sessionId currentRound w
  = {| outcome :=
         match pulled (turn_request env sessionId w) with
         | inl tc => inl (snd tc)
         | inr e => inr e
         end;
       world :=
         match pulled (turn_request env sessionId w) with
         | inl tc => stored env sessionId (fst tc) (ticked 1 w)
         | inr _ => ticked 1 w
         end;
       trace :=
         console_round currentRound
         :: stream_request (getMessages w sessionId (Some 20%nat)) true
         :: map onChunk (taken (chunks (turn_request env sessionId w))) |}.
Proof.
  unfold stream_turn.
  rewrite bind_run. cbn [emit outcome world trace].
  rewrite bind_run. cbn [get_world outcome world trace].
  rewrite bind_run, aiService_stream_run. cbn [outcome world trace].
  rewrite bind_run, consume_turn_run, pulled_eta. cbn [outcome world trace].
  fold (turn_request env sessionId w).
  destruct (pulled (turn_request env sessionId w)) as [[text calls]|e].
  - cbn [fst snd app]. rewrite bind_run, store_run. cbn [outcome world trace].
    unfold after. cbn [outcome world trace ret app]. rewrite app_nil_r.
    reflexivity.
  - reflexivity.
Qed.

Lemma stream_followUp_run (sessionId : jsstring) (pendingToolCalls : list ToolCall)
  (w : World) :
  let r := execute_pending env sessionId pendingToolCalls w in
  let g := turn_request env sessionId (world r) in
  stream_followUp env sessionId pendingToolCalls w
  = {| outcome :=
         match pulled g with
         | inl tc => inl (clean (fst tc), snd tc)
         | inr e => inr e
         end;
       world :=
         match pulled g with
         | inl tc => stored env sessionId (fst tc) (ticked 1 (world r))
         | inr _ => ticked 1 (world r)
         end;
       trace :=
         trace r
         ++ stream_request (getMessages (world r) sessionId (Some 20%nat)) true
            :: followUp_events (taken (chunks g)) |}.
Proof.
  intros r g. unfold stream_followUp.
  rewrite bind_run. fold r.
  destruct (execute_pending_all sessionId pendingToolCalls w) as [Ho _].
  fold r in Ho. rewrite Ho.
  rewrite bind_run. cbn [get_world outcome world trace].
  rewrite bind_run, aiService_stream_run. cbn [outcome world trace].
  rewrite bind_run, consume_followUp_run, pulled_eta. cbn [outcome world trace].
  fold (turn_request env sessionId (world r)). fold g.
  destruct (pulled g) as [[text calls]|e].
  - cbn [fst snd app]. rewrite bind_run, store_run. cbn [outcome world trace].
    unfold after. cbn [outcome world trace ret app]. rewrite app_nil_r.
    reflexivity.
  - reflexivity.
Qed.

Lemma round_run (sessionId : jsstring) (currentRound : nat) (w : World) :
  round env sessionId currentRound w = round_outline env sessionId currentRound w.
Proof.
  unfold round, round_outline. rewrite bind_run.
  destruct (outcome (stream_turn env sessionId currentRound w))
    as [pending|e]; [|reflexivity].
  destruct (is_empty pending).
  { unfold after. cbn. rewrite app_nil_r. reflexivity. }
  rewrite bind_run.
  destruct (outcome (stream_followUp env sessionId pending
                       (world (stream_turn env sessionId currentRound w))))
    as [followUp|e]; [|reflexivity].
  destruct (repeated pending (fst followUp) (snd followUp)).
  { reflexivity. }
  destruct (is_empty (snd followUp)).
  { unfold after. cbn. rewrite app_nil_r. reflexivity. }
  rewrite bind_run.
  destruct (execute_new_all sessionId (snd followUp)
              (world (stream_followUp env sessionId pending
                        (world (stream_turn env sessionId currentRound w)))))
    as [Ho _].
  rewrite Ho. unfold after. cbn. rewrite app_nil_r. reflexivity.
Qed.

(** *** Projections of the trace *)

Lemma rounds_logged_app (a b : list Event) :
  rounds_logged (a ++ b) = rounds_logged a ++ rounds_logged b.
Proof. apply omap_app. Qed.

Lemma histories_app (a b : list Event) :
  histories (a ++ b) = histories a ++ histories b.
Proof. apply omap_app. Qed.

Lemma visible_app (a b : list Event) : visible (a ++ b) = visible a ++ visible b.
Proof. apply omap_app. Qed.

Lemma omap_none {B} (f : Event -> option B) (tr : list Event) :
  Forall (fun e => f e = None) tr -> omap f tr = [].
Proof.
  induction 1 as [|e tr He _ IH]; [reflexivity|].
  cbn. rewrite He. exact IH.
Qed.

Lemma chunks_are_callbacks (cs : list AIStreamChunk) :
  Forall (fun e => callback_event e = true) (map onChunk cs).
Proof. induction cs; constructor; [reflexivity|assumption]. Qed.

Lemma followUp_events_are_callbacks (cs : list AIStreamChunk) :
  Forall (fun e => callback_event e = true) (followUp_events cs).
Proof.
  induction cs as [|c cs IH]; [constructor|].
  cbn [followUp_events flat_map]. apply Forall_app. split; [|exact IH].
  apply Forall_app. split.
  - destruct (opt_truthy (chunk_content c)); repeat constructor.
  - destruct (toolCall c); repeat constructor.
Qed.

Lemma call_events_are_tool_events (toolCall : ToolCall) (w : World) :
  Forall (fun e => tool_event e = true) (call_events env toolCall w).
Proof. repeat constructor. Qed.

Lemma execute_pending_tool_events (sessionId : jsstring) (toolCalls : list ToolCall) :
  forall w,
    Forall (fun e => tool_event e = true)
      (trace (execute_pending env sessionId toolCalls w)).
Proof.
  induction toolCalls as [|tc rest IH]; intros w; [constructor|].
  rewrite execute_pending_cons. cbn [after trace].
  constructor; [reflexivity|]. apply Forall_app. split; [|apply IH].
  apply call_events_are_tool_events.
Qed.

Lemma execute_new_tool_events (sessionId : jsstring) (toolCalls : list ToolCall) :
  forall w,
    Forall (fun e => tool_event e = true)
      (trace (execute_new env sessionId toolCalls w)).
Proof.
  induction toolCalls as [|tc rest IH]; intros w; [constructor|].
  rewrite execute_new_cons. cbn [after trace].
  apply Forall_app. split; [|apply IH].
  apply call_events_are_tool_events.
Qed.

Lemma omap_tool_events {B} (f : Event -> option B) (tr : list Event) :
  (forall e, tool_event e = true -> f e = None) ->
  Forall (fun e => tool_event e = true) tr -> omap f tr = [].
Proof.
  intros Hf H. apply omap_none. eapply Forall_impl; [exact H|].
  intros e He. apply Hf, He.
Qed.

Lemma omap_callbacks {B} (f : Event -> option B) (tr : list Event) :
  (forall e, callback_event e = true -> f e = None) ->
  Forall (fun e => callback_event e = true) tr -> omap f tr = [].
Proof.
  intros Hf H. apply omap_none. eapply Forall_impl; [exact H|].
  intros e He. apply Hf, He.
Qed.

Ltac kill_projection lem :=
  unfold executed, results_sent, rounds_logged, histories, visible;
  let ev := fresh "ev" in
  let Hev := fresh "Hev" in
  first
    [ apply omap_tool_events;
      [ intros ev Hev; destruct ev; solve [reflexivity | discriminate Hev]
      | solve [apply lem] ]
    | apply omap_callbacks;
      [ intros ev Hev; destruct ev; solve [reflexivity | discriminate Hev]
      | solve [apply lem] ] ].

Lemma executed_stream_turn (sessionId : jsstring) (currentRound : nat) (w : World) :
  executed (trace (stream_turn env sessionId currentRound w)) = [].
Proof.
  rewrite stream_turn_run. cbn [trace].
  change (executed (map onChunk (taken (chunks (turn_request env sessionId w)))) = []).
  kill_projection chunks_are_callbacks.
Qed.

Lemma executed_stream_followUp (sessionId : jsstring) (pendingToolCalls : list ToolCall)
  (w : World) :
  executed (trace (stream_followUp env sessionId pendingToolCalls w))
  = pendingToolCalls.
Proof.
  rewrite stream_followUp_run. cbn [trace]. rewrite executed_app.
  destruct (execute_pending_all sessionId pendingToolCalls w) as [_ [He _]].
  rewrite He.
  match goal with
  | |- _ ++ executed (stream_request ?h ?b :: ?tr) = _ =>
    change (executed (stream_request h b :: tr)) with (executed tr);
    replace (executed tr) with (@nil ToolCall); [apply app_nil_r|]
  end.
  symmetry. kill_projection followUp_events_are_callbacks.
Qed.

Lemma same_call_identical (lastToolCall newToolCall : ToolCall) (A : jsstring) :
  tc_name lastToolCall = JStr A -> tc_name newToolCall = JStr A ->
  tc_arguments newToolCall = tc_arguments lastToolCall ->
  same_call lastToolCall newToolCall = true.
Proof.
  intros Hl Hn Ha. unfold same_call. rewrite Hl, Hn, Ha. cbn [strict_eq].
  rewrite !str_eqb_refl. reflexivity.
Qed.

Lemma rounds_step (left : nat) (sessionId : jsstring) (currentRound : nat) (w : World) :
  rounds env (S left) sessionId currentRound w
  = let r := round env sessionId (S currentRound) w in
    match outcome r with
    | inl (Break reason) =>
      {| outcome := inl (S currentRound, reason); world := world r; trace := trace r |}
    | inl Continue => after (trace r) (rounds env left sessionId (S currentRound) (world r))
    | inr e => {| outcome := inr e; world := world r; trace := trace r |}
    end.
Proof.
  cbn [rounds]. rewrite bind_run. cbv zeta.
  destruct (outcome (round env sessionId (S currentRound) w)) as [[|reason]|e];
    try reflexivity.
  unfold after. cbn. rewrite app_nil_r. reflexivity.
Qed.

(** X29. The duplicate guard, where the code has it: when the last call of
    a turn and the first call of its follow-up turn, in the same round,
    have the same name (a string) and the same arguments, and the
    follow-up turn leaves no text once the tool-call markup is removed, the
    loop ends in that round: the calls of the turn are the only ones
    executed, and the last thing put on the visible stream is the
    completion notice. *)
Theorem duplicate_call_stops_the_loop
  (sessionId : jsstring) (currentRound left : nat) (w : World)
  (text followUpText : jsstring) (pendingToolCalls newToolCalls : list ToolCall)
  (lastToolCall newToolCall : ToolCall) (A : jsstring)
  (Hturn : pulled (turn_request env sessionId w) = inl (text, pendingToolCalls))
  (Hlast : last pendingToolCalls = Some lastToolCall)
  (HfollowUp :
     pulled (turn_request env sessionId
               (world (execute_pending env sessionId pendingToolCalls
                         (world (stream_turn env sessionId (S currentRound) w)))))
     = inl (followUpText, newToolCalls))
  (Hnotext : clean followUpText = [])
  (Hfirst : head newToolCalls = Some newToolCall)
  (HnameLast : tc_name lastToolCall = JStr A)
  (HnameNew : tc_name newToolCall = JStr A)
  (Hargs : tc_arguments newToolCall = tc_arguments lastToolCall) :
  let r := rounds env (S left) sessionId currentRound w in
  outcome r = inl (S currentRound, DuplicateCall)
  /\ executed (trace r) = pendingToolCalls
  /\ last (trace r) = Some (onChunk completion_notice)
  /\ last (visible (trace r)) = Some completion_notice.
Proof.
  intros r. subst r. rewrite rounds_step, round_run. cbv zeta.
  unfold round_outline.
  pose proof (stream_turn_run sessionId (S currentRound) w) as H1.
  rewrite Hturn in H1. cbn [fst snd] in H1.
  assert (Ho1 : outcome (stream_turn env sessionId (S currentRound) w)
                = inl pendingToolCalls) by (rewrite H1; reflexivity).
  rewrite Ho1.
  assert (Hne : is_empty pendingToolCalls = false).
  { destruct pendingToolCalls; [discriminate Hlast|reflexivity]. }
  rewrite Hne.
  pose proof (stream_followUp_run sessionId pendingToolCalls
                (world (stream_turn env sessionId (S currentRound) w))) as H2.
  cbv zeta in H2. rewrite HfollowUp in H2. cbn [fst snd] in H2.
  assert (Ho2 : outcome (stream_followUp env sessionId pendingToolCalls
                           (world (stream_turn env sessionId (S currentRound) w)))
                = inl (clean followUpText, newToolCalls))
    by (rewrite H2; reflexivity).
  rewrite Ho2. cbn [fst snd].
  assert (Hrep : repeated pendingToolCalls (clean followUpText) newToolCalls = true).
  { unfold repeated. rewrite Hnotext, Hlast, Hfirst. cbn [is_empty andb].
    eapply same_call_identical; eassumption. }
  rewrite Hrep. cbn [outcome trace].
  split; [reflexivity|]. split; [|split].
  - rewrite !executed_app, executed_stream_turn, executed_stream_followUp.
    cbn. apply app_nil_r.
  - rewrite !app_assoc. apply last_snoc.
  - rewrite !visible_app. rewrite app_assoc.
    change (visible [onChunk completion_notice]) with [completion_notice].
    apply last_snoc.
Qed.

(** *** The loop *)

Lemma createSession_run (w : World) :
  createSession env w
  = {| outcome := inl (blank_session env w); world := session_created env w;
       trace := [] |}.
Proof. reflexivity. Qed.

Lemma process_rounds_run (sessionId content : jsstring) (w : World) :
  process_rounds env sessionId content w
  = rounds env maxRounds sessionId 0 (entered env sessionId content w).
Proof.
  unfold process_rounds, entered.
  rewrite bind_run. cbn [get_world outcome world trace].
  rewrite bind_run.
  destruct (sessions w !! sessionId).
  - cbn [ret outcome world trace].
    rewrite bind_run, addMessage_run. cbn [outcome world trace].
    rewrite !after_nil. reflexivity.
  - rewrite bind_run, createSession_run. cbn [ret after outcome world trace].
    rewrite bind_run, addMessage_run. cbn [outcome world trace app].
    rewrite !after_nil. reflexivity.
Qed.

Lemma processMessageStream_run (sessionId content : jsstring) (w : World) :
  processMessageStream env sessionId content w
  = {| outcome := inl tt;
       world := world (process_rounds env sessionId content w);
       trace :=
         trace (process_rounds env sessionId content w)
         ++ closing (process_rounds env sessionId content w) |}.
Proof.
  unfold processMessageStream, try_catch, closing. rewrite bind_run.
  destruct (outcome (process_rounds env sessionId content w)) as [[n x]|e].
  - cbn [fst after outcome world trace]. rewrite bind_run.
    destruct (maxRounds <=? n)%nat; reflexivity.
  - reflexivity.
Qed.

Lemma rounds_logged_stream_turn (sessionId : jsstring) (currentRound : nat) (w : World) :
  rounds_logged (trace (stream_turn env sessionId currentRound w)) = [currentRound].
Proof.
  rewrite stream_turn_run. cbn [trace].
  change (currentRound
          :: rounds_logged (map onChunk (taken (chunks (turn_request env sessionId w))))
          = [currentRound]).
  f_equal. kill_projection chunks_are_callbacks.
Qed.

Lemma rounds_logged_stream_followUp (sessionId : jsstring)
  (pendingToolCalls : list ToolCall) (w : World) :
  rounds_logged (trace (stream_followUp env sessionId pendingToolCalls w)) = [].
Proof.
  rewrite stream_followUp_run. cbn [trace]. rewrite rounds_logged_app.
  replace (rounds_logged (trace (execute_pending env sessionId pendingToolCalls w)))
    with (@nil nat)
    by (symmetry; kill_projection execute_pending_tool_events).
  match goal with
  | |- [] ++ rounds_logged (stream_request ?h ?b :: ?tr) = _ =>
    change (rounds_logged (stream_request h b :: tr)) with (rounds_logged tr)
  end.
  cbn [app]. kill_projection followUp_events_are_callbacks.
Qed.

Lemma rounds_logged_execute_new (sessionId : jsstring) (toolCalls : list ToolCall)
  (w : World) :
  rounds_logged (trace (execute_new env sessionId toolCalls w)) = [].
Proof. kill_projection execute_new_tool_events. Qed.

Lemma rounds_logged_round (sessionId : jsstring) (currentRound : nat) (w : World) :
  rounds_logged (trace (round env sessionId currentRound w)) = [currentRound].
Proof.
  rewrite round_run. unfold round_outline.
  destruct (outcome (stream_turn env sessionId currentRound w)) as [pending|e];
    [|apply rounds_logged_stream_turn].
  destruct (is_empty pending); [apply rounds_logged_stream_turn|].
  destruct (outcome (stream_followUp env sessionId pending
                       (world (stream_turn env sessionId currentRound w))))
    as [followUp|e];
    [destruct (repeated pending (fst followUp) (snd followUp));
     [|destruct (is_empty (snd followUp))]|];
    cbn [trace];
    rewrite ?rounds_logged_app, ?rounds_logged_stream_turn,
      ?rounds_logged_stream_followUp, ?rounds_logged_execute_new;
    reflexivity.
Qed.





(** *** A session id that is not in the map *)

Section UnknownSession.

Variable sessionId : jsstring.

Lemma message_added_unknown (r : MessageRole) (text : jsstring) (w : World) :
  sessions w !! sessionId = None -> message_added env sessionId r text w = w.
Proof. intros H. unfold message_added. rewrite H. reflexivity. Qed.

Lemma stored_unknown (text : jsstring) (w : World) :
  sessions w !! sessionId = None -> stored env sessionId text w = w.
Proof.
  intros H. unfold stored. destruct (is_empty (clean text)); [reflexivity|].
  apply message_added_unknown, H.
Qed.

Lemma getMessages_unknown (limit : option nat) (w : World) :
  sessions w !! sessionId = None -> getMessages w sessionId limit = [].
Proof. intros H. unfold getMessages. rewrite H. reflexivity. Qed.

Lemma call_world_unknown (toolCall : ToolCall) (w : World) :
  sessions w !! sessionId = None ->
  sessions (call_world env sessionId toolCall w) = sessions w.
Proof.
  intros H. unfold call_world. rewrite message_added_unknown; [reflexivity|].
  exact H.
Qed.

Lemma execute_pending_unknown (toolCalls : list ToolCall) :
  forall w, sessions w !! sessionId = None ->
    sessions (world (execute_pending env sessionId toolCalls w)) = sessions w.
Proof.
  induction toolCalls as [|tc rest IH]; intros w H; [reflexivity|].
  rewrite execute_pending_cons. cbn [after world].
  rewrite IH; rewrite call_world_unknown; auto.
Qed.

Lemma execute_new_unknown (toolCalls : list ToolCall) :
  forall w, sessions w !! sessionId = None ->
    sessions (world (execute_new env sessionId toolCalls w)) = sessions w.
Proof.
  induction toolCalls as [|tc rest IH]; intros w H; [reflexivity|].
  rewrite execute_new_cons. cbn [after world].
  rewrite IH; rewrite call_world_unknown; auto.
Qed.

Lemma stream_turn_unknown (currentRound : nat) (w : World) :
  sessions w !! sessionId = None ->
  sessions (world (stream_turn env sessionId currentRound w)) = sessions w
  /\ histories (trace (stream_turn env sessionId currentRound w)) = [[]].
Proof.
  intros H. rewrite stream_turn_run. cbn [world trace]. split.
  - destruct (pulled (turn_request env sessionId w)) as [[text calls]|e];
      [|reflexivity].
    cbn [fst]. rewrite stored_unknown; [reflexivity|exact H].
  - rewrite (getMessages_unknown _ _ H).
    change ([] :: histories (map onChunk (taken (chunks (turn_request env sessionId w))))
            = [[]]).
    f_equal. kill_projection chunks_are_callbacks.
Qed.

Lemma stream_followUp_unknown (pendingToolCalls : list ToolCall) (w : World) :
  sessions w !! sessionId = None ->
  sessions (world (stream_followUp env sessionId pendingToolCalls w)) = sessions w
  /\ histories (trace (stream_followUp env sessionId pendingToolCalls w)) = [[]].
Proof.
  intros H. rewrite stream_followUp_run. cbv zeta. cbn [world trace].
  pose proof (execute_pending_unknown pendingToolCalls w H) as Hs.
  set (w1 := world (execute_pending env sessionId pendingToolCalls w)) in *.
  assert (H1 : sessions w1 !! sessionId = None) by (rewrite Hs; exact H).
  split.
  - destruct (pulled (turn_request env sessionId w1)) as [[text calls]|e];
      [|exact Hs].
    cbn [fst]. rewrite stored_unknown; [exact Hs|exact H1].
  - rewrite histories_app, (getMessages_unknown _ _ H1).
    replace (histories (trace (execute_pending env sessionId pendingToolCalls w)))
      with (@nil (list Message))
      by (symmetry; kill_projection execute_pending_tool_events).
    change ([] :: histories (followUp_events
                               (taken (chunks (turn_request env sessionId w1))))
            = [[]]).
    f_equal. kill_projection followUp_events_are_callbacks.
Qed.

Lemma round_unknown (currentRound : nat) (w : World) :
  sessions w !! sessionId = None ->
  sessions (world (round env sessionId currentRound w)) = sessions w
  /\ Forall (fun h => h = []) (histories (trace (round env sessionId currentRound w))).
Proof.
  intros H. rewrite round_run. unfold round_outline.
  destruct (stream_turn_unknown currentRound w H) as [Hs1 Hh1].
  set (r1 := stream_turn env sessionId currentRound w) in *.
  assert (H1 : sessions (world r1) !! sessionId = None) by (rewrite Hs1; exact H).
  destruct (outcome r1) as [pending|e];
    [|cbn [world trace]; rewrite Hh1; split; [exact Hs1|repeat constructor]].
  destruct (is_empty pending);
    [cbn [world trace]; rewrite Hh1; split; [exact Hs1|repeat constructor]|].
  destruct (stream_followUp_unknown pending (world r1) H1) as [Hs2 Hh2].
  set (r2 := stream_followUp env sessionId pending (world r1)) in *.
  assert (H2 : sessions (world r2) !! sessionId = None)
    by (rewrite Hs2, Hs1; exact H).
  assert (Hnew : forall calls,
             histories (trace (execute_new env sessionId calls (world r2))) = [])
    by (intros calls; kill_projection execute_new_tool_events).
  destruct (outcome r2) as [followUp|e];
    [destruct (repeated pending (fst followUp) (snd followUp));
     [|destruct (is_empty (snd followUp))]|];
    cbn [world trace];
    rewrite ?histories_app, ?Hh1, ?Hh2, ?Hnew;
    (split; [|repeat constructor]);
    rewrite ?execute_new_unknown by exact H2; congruence.
Qed.

Lemma rounds_unknown (left : nat) :
  forall (currentRound : nat) (w : World),
    sessions w !! sessionId = None ->
    sessions (world (rounds env left sessionId currentRound w)) = sessions w
    /\ Forall (fun h => h = [])
         (histories (trace (rounds env left sessionId currentRound w))).
Proof.
  induction left as [|left IH]; intros currentRound w H.
  - split; [reflexivity|constructor].
  - rewrite rounds_step. cbv zeta.
    destruct (round_unknown (S currentRound) w H) as [Hs Hh].
    set (r := round env sessionId (S currentRound) w) in *.
    destruct (outcome r) as [[|reason]|e]; try (split; assumption).
    destruct (IH (S currentRound) (world r)) as [Hs' Hh'].
    { rewrite Hs. exact H. }
    cbn [after world trace]. split; [congruence|].
    rewrite histories_app. apply Forall_app. split; assumption.
Qed.

End UnknownSession.

(** C10, as amended. [addMessage] with a session id that is not in the map
    changes nothing.  When [processMessageStream] is called with such an
    id, the session it creates gets the id that [createSession] generates,
    which the code does not compare with the requested one; whenever the
    two differ, the only change to the map is the new, empty session: no
    message of the turn is stored anywhere, every request to the provider
    passes an empty history, and [getMessages] for the id is empty at the
    end as well. *)
Theorem unknown_session_receives_nothing
  (sessionId content : jsstring) (w : World)
  (Hunknown : sessions w !! sessionId = None)
  (Hfresh : next_session_id env w <> sessionId) :
  (forall r text w',
      sessions w' !! sessionId = None ->
      addMessage env sessionId r text w'
      = {| outcome := inl tt; world := w'; trace := [] |})
  /\ sessions (world (processMessageStream env sessionId content w))
     = insert (next_session_id env w) (blank_session env w) (sessions w)
  /\ messages (blank_session env w) = []
  /\ Forall (fun h => h = [])
       (histories (trace (processMessageStream env sessionId content w)))
  /\ getMessages (world (processMessageStream env sessionId content w))
       sessionId None = []
  /\ (forall other session,
        other <> next_session_id env w ->
        sessions w !! other = Some session ->
        sessions (world (processMessageStream env sessionId content w)) !! other
        = Some session).
Proof.
  assert (Hadd : forall r text w',
             sessions w' !! sessionId = None ->
             addMessage env sessionId r text w'
             = {| outcome := inl tt; world := w'; trace := [] |}).
  { intros r text w' H. rewrite addMessage_run, message_added_unknown; auto. }
  assert (Hcreated : sessions (session_created env w) !! sessionId = None).
  { unfold session_created. cbn [sessions].
    rewrite lookup_insert_ne; [exact Hunknown|exact Hfresh]. }
  assert (Hentered : entered env sessionId content w = session_created env w).
  { unfold entered. rewrite Hunknown. apply message_added_unknown, Hcreated. }
  destruct (rounds_unknown sessionId maxRounds 0 (session_created env w) Hcreated)
    as [Hs Hh].
  assert (Hsessions :
            sessions (world (processMessageStream env sessionId content w))
            = insert (next_session_id env w) (blank_session env w) (sessions w)).
  { rewrite processMessageStream_run. cbn [world].
    rewrite process_rounds_run, Hentered, Hs. reflexivity. }
  split; [exact Hadd|]. split; [exact Hsessions|]. split; [reflexivity|].
  split; [|split].
  - rewrite processMessageStream_run. cbn [trace]. rewrite histories_app.
    apply Forall_app. split.
    + rewrite process_rounds_run, Hentered. exact Hh.
    + unfold closing.
      destruct (outcome (process_rounds env sessionId content w)) as [[n x]|e];
        [destruct (maxRounds <=? n)%nat|]; constructor.
  - apply getMessages_unknown. rewrite Hsessions.
    rewrite lookup_insert_ne; [exact Hunknown|exact Hfresh].
  - intros other session Hne Hlook. rewrite Hsessions.
    rewrite lookup_insert_ne; [exact Hlook|]. congruence.
Qed.

End ServerFacts.

(** ** Two runs of the loop *)

Section LoopRuns.

Import Server Observations Samples.

(** C3. A call that the second tool loop of a round executed last, and that
    the next turn asks for again, with no text, is executed again.  Round 1
    of this run executes [get_system_info] and then, from its follow-up
    turn, [screenshot]; the turn of round 2 says nothing and asks for
    [screenshot], with the same arguments, and the call is executed a
    second time; the guard ends the loop only after the follow-up turn of
    round 2 has asked for it once more. *)
Lemma repeated_call_runs_again :
  let w0 := entered relapsing_env (js "s1") (js "hi") world_s1 in
  let first := round relapsing_env (js "s1") 1 w0 in
  let ran := processMessageStream relapsing_env (js "s1") (js "hi") world_s1 in
  executed (trace first) = [call_known; call_screenshot]
  /\ outcome first = inl Continue
  /\ pulled (turn_request relapsing_env (js "s1") (world first))
     = inl ([], [call_screenshot])
  /\ same_call call_screenshot call_screenshot = true
  /\ executed (trace ran) = [call_known; call_screenshot; call_screenshot]
  /\ rounds_logged (trace ran) = [1%nat; 2%nat]
  /\ outcome (process_rounds relapsing_env (js "s1") (js "hi") world_s1)
     = inl (2%nat, DuplicateCall).
Proof. vm_compute. repeat split. Qed.

(** C10, counterexample. The id that [createSession] generates can be the
    requested one: [foreseen_id] is not in the map, the session created
    for it gets that very id, the request to the provider carries the
    message of the user, and the messages of the turn are stored under the
    id. *)
Lemma unknown_session_can_receive_messages :
  let ran := processMessageStream answer_env foreseen_id (js "hi") world_empty in
  sessions world_empty !! foreseen_id = None
  /\ next_session_id answer_env world_empty = foreseen_id
  /\ map (map (fun m => (role m, content m))) (histories (trace ran))
     = [[(user, js "hi")]]
  /\ map (fun m => (role m, content m)) (getMessages (world ran) foreseen_id None)
     = [(user, js "hi"); (assistant, js "现在是下午三点")].
Proof. vm_compute. repeat split. Qed.

End LoopRuns.

(** ** The theorems at the sample inputs *)

Section Witnesses.

Import Server Observations Samples.

Lemma batch_paths_differ_on_failure_witness :
  executed (trace (executeToolCalls busy_env [call_unknown; call_known] world_s1))
  = [call_unknown]
  /\ executed (trace (execute_pending busy_env (js "s1") [call_unknown; call_known]
                       world_s1))
     = [call_unknown; call_known].
Proof.
  destruct (batch_paths_differ_on_failure busy_env (js "s1")
              [call_unknown; call_known] world_s1
              [ToolRegistry.failure_result (js "工具不存在: fly_to_moon")] eq_refl)
    as [[H1 _] [[_ [H2 _]] _]].
  split; [exact H1|exact H2].
Defined.


Lemma duplicate_call_stops_the_loop_witness :
  outcome (rounds stuck_env 5 (js "s1") 0 world_s1) = inl (1%nat, DuplicateCall)
  /\ executed (trace (rounds stuck_env 5 (js "s1") 0 world_s1)) = [call_known].
Proof.
  destruct (duplicate_call_stops_the_loop stuck_env (js "s1") 0 4 world_s1
              [] [] [call_known] [call_known] call_known call_known
              (js "get_system_info")
              eq_refl eq_refl eq_refl eq_refl eq_refl eq_refl eq_refl eq_refl)
    as [Ho [He _]].
  split; [exact Ho|exact He].
Defined.


Lemma unknown_session_receives_nothing_witness :
  getMessages (world (processMessageStream busy_env (js "ghost") (js "hi") world_s1))
    (js "ghost") None = []
  /\ sessions (world (processMessageStream busy_env (js "ghost") (js "hi") world_s1))
     !! js "s1" = Some session_s1.
Proof.
  assert (Hunknown : sessions world_s1 !! js "ghost" = None)
    by (vm_compute; reflexivity).
  assert (Hfresh : next_session_id busy_env world_s1 <> js "ghost")
    by (intros H; vm_compute in H; discriminate H).
  destruct (unknown_session_receives_nothing busy_env (js "ghost") (js "hi")
              world_s1 Hunknown Hfresh) as [_ [_ [_ [_ [Hg Hother]]]]].
  split; [exact Hg|].
  apply Hother.
  - intros H. vm_compute in H. discriminate H.
  - vm_compute. reflexivity.
Defined.

End Witnesses.

(** * Further properties *)

(** * Further properties of the code *)

(** ** [retry] on success *)

Section RetrySuccess.

Context {T : Type}.
Variables (fn : nat -> Outcome T) (maxRetries : nat) (delayMs : N).

Lemma retry_loop_first_success (k : nat) (v : T) :
  (k < maxRetries)%nat ->
  (forall i, (i < k)%nat -> exists e, fn i = Thrown e) ->
  fn k = Returned v ->
  forall (left : nat) (lastError : option JSError),
    (left <= maxRetries)%nat -> (maxRetries - left <= k)%nat ->
    retry_loop fn maxRetries delayMs left lastError
    = {| retry_result := inl v;
         retry_attempts := S (k - (maxRetries - left));
         retry_delays :=
           map (fun j => (delayMs * N.of_nat j)%N)
             (seq (maxRetries - left + 1) (k - (maxRetries - left))) |}.
Proof.
  intros Hk Hfail Hok.
  induction left as [|l IH]; intros lastError Hle Hge; [lia|].
  cbn [retry_loop].
  destruct (Nat.eq_dec (maxRetries - S l) k) as [Heq|Hne].
  - rewrite Heq, Hok, Nat.sub_diag. reflexivity.
  - destruct (Hfail (maxRetries - S l)%nat ltac:(lia)) as [e He]. rewrite He.
    rewrite IH by lia. cbn [retry_result retry_attempts retry_delays].
    replace (maxRetries - S l <? maxRetries - 1)%nat with true
      by (symmetry; apply Nat.ltb_lt; lia).
    replace (k - (maxRetries - S l))%nat with (S (k - (maxRetries - l)))%nat by lia.
    cbn [seq map app].
    replace (maxRetries - l + 1)%nat with (S (maxRetries - S l + 1))%nat by lia.
    reflexivity.
Qed.

End RetrySuccess.

(** X1. [retry] stops at the first attempt that succeeds: when the attempts
    before attempt [k] (counted from zero, [k < maxRetries]) throw and
    attempt [k] returns [v], [retry] returns [v] after [k + 1] attempts,
    having slept [delayMs * 1], ..., [delayMs * k] between them.  With
    [maxRetries = 0] the function is never called and [retry] throws
    [undefined]. *)
Theorem retry_returns_first_success
  (T : Type) (fn : nat -> Outcome T) (maxRetries k : nat) (delayMs : N) (v : T)
  (Hk : (k < maxRetries)%nat)
  (Hfail : forall i, (i < k)%nat -> exists e, fn i = Thrown e)
  (Hok : fn k = Returned v) :
  retry fn maxRetries delayMs
  = {| retry_result := inl v; retry_attempts := S k;
       retry_delays := map (fun j => (delayMs * N.of_nat j)%N) (seq 1 k) |}
  /\ retry fn 0 delayMs
     = {| retry_result := inr None; retry_attempts := 0; retry_delays := [] |}.
Proof.
  split; [|reflexivity].
  unfold retry.
  rewrite (retry_loop_first_success fn maxRetries delayMs k v Hk Hfail Hok) by lia.
  rewrite Nat.sub_diag, Nat.sub_0_r. reflexivity.
Qed.

Lemma retry_returns_first_success_witness :
  retry (fun i => if (i <? 2)%nat then Thrown (Error (js "ETIMEDOUT")) else Returned i)
    3 1000
  = {| retry_result := inl 2%nat; retry_attempts := 3;
       retry_delays := [1000%N; 2000%N] |}.
Proof.
  apply (retry_returns_first_success nat
           (fun i => if (i <? 2)%nat then Thrown (Error (js "ETIMEDOUT")) else Returned i)
           3 2 1000 2%nat).
  - lia.
  - intros i Hi. exists (Error (js "ETIMEDOUT")).
    destruct i as [|[|i]]; [reflexivity|reflexivity|lia].
  - reflexivity.
Defined.

(** ** What the adapters hand to the chat loop *)

Section MoreAdapterFacts.

Import Server Observations Samples.

Lemma ollama_line_no_calls (line : jsstring) :
  emitted_calls (OllamaProvider.stream_line line) = [].
Proof.
  unfold OllamaProvider.stream_line.
  destruct (trim line); [reflexivity|].
  destruct (JSON_parse line) as [data|]; [|reflexivity].
  destruct data; try reflexivity;
    match goal with
    | |- context [opt_truthy ?c] => destruct (opt_truthy c)
    end;
    match goal with
    | |- context [if opt_truthy ?d then [final_chunk] else []] =>
      destruct (opt_truthy d)
    end; reflexivity.
Qed.

Lemma ollama_lines_no_calls (lines : list jsstring) :
  emitted_calls (concat (map OllamaProvider.stream_line lines)) = [].
Proof.
  induction lines as [|l ls IH]; [reflexivity|].
  cbn [map concat]. rewrite emitted_calls_app, ollama_line_no_calls, IH. reflexivity.
Qed.

Lemma ollama_read_no_calls (pieces : list jsstring) :
  forall buffer, emitted_calls (OllamaProvider.stream_read pieces buffer) = [].
Proof.
  induction pieces as [|p ps IH]; intros buffer; [reflexivity|].
  cbn [OllamaProvider.stream_read].
  destruct (split_lines (buffer ++ p)) as [lines buffer'].
  rewrite emitted_calls_app, ollama_lines_no_calls, IH. reflexivity.
Qed.

(** X2. The Ollama adapter never surfaces a tool call: whatever the
    response, no chunk of its stream carries one. *)
Theorem ollama_never_calls_tools (fetched : Fetched) :
  emitted_calls (chunks (OllamaProvider.stream fetched)) = []
  /\ Forall (fun c => toolCall c = None) (chunks (OllamaProvider.stream fetched)).
Proof.
  assert (H : emitted_calls (chunks (OllamaProvider.stream fetched)) = []).
  { unfold OllamaProvider.stream.
    destruct fetched as [e|response]; [reflexivity|].
    destruct (negb (resp_ok response)); [reflexivity|].
    destruct (resp_body response) as [pieces|]; [|reflexivity].
    destruct (resp_body_error response); cbn [chunks].
    - apply ollama_read_no_calls.
    - rewrite emitted_calls_app, ollama_read_no_calls. reflexivity. }
  split; [exact H|].
  revert H. generalize (chunks (OllamaProvider.stream fetched)).
  induction l as [|c cs IH]; intros H; [constructor|].
  unfold emitted_calls in H. cbn in H.
  destruct (toolCall c) eqn:E; [discriminate|].
  constructor; [exact E|]. apply IH, H.
Qed.

(** A generator whose tool calls all come in complete chunks hands at most
    one to a loop that breaks on a complete chunk. *)
Lemma taken_one_call (cs : list AIStreamChunk) :
  Forall (fun c => toolCall c <> None -> isComplete c = true) cs ->
  (length (emitted_calls (taken cs)) <= 1)%nat.
Proof.
  induction 1 as [|c cs Hc _ IH]; [cbn; lia|].
  cbn [taken]. destruct (isComplete c) eqn:E.
  - unfold emitted_calls. cbn. destruct (toolCall c); cbn; lia.
  - unfold emitted_calls in *. cbn. destruct (toolCall c) eqn:Et.
    + exfalso. assert (false = true) by (apply Hc; discriminate). discriminate.
    + exact IH.
Qed.

Lemma deepseek_calls_complete (cs : list DeepSeekProvider.Chunk) :
  forall cur,
    Forall (fun c => toolCall c <> None -> isComplete c = true)
      (chunks (DeepSeekProvider.on_chunks cs cur)).
Proof.
  induction cs as [|chunk rest IH]; intros cur; [constructor|].
  cbn [DeepSeekProvider.on_chunks].
  destruct (head (DeepSeekProvider.choices chunk) ≫= DeepSeekProvider.choice_delta)
    as [delta|]; [|apply IH].
  set (out1 := if DeepSeekProvider.nonempty (DeepSeekProvider.delta_content delta)
               then _ else _).
  assert (Hout : Forall (fun c => toolCall c <> None -> isComplete c = true) out1).
  { subst out1. destruct (DeepSeekProvider.nonempty _); repeat constructor.
    cbn. congruence. }
  clearbody out1.
  destruct (DeepSeekProvider.nonempty
              (head (DeepSeekProvider.choices chunk) ≫= DeepSeekProvider.finish_reason)).
  - destruct (match DeepSeekProvider.delta_tool_calls delta with
              | Some tds => DeepSeekProvider.on_tool_deltas tds cur
              | None => cur
              end) as [acc|] eqn:Ecur.
    + destruct (JSON_parse _); cbn [chunks].
      * apply Forall_app. split; [exact Hout|].
        constructor; [reflexivity|]. apply IH.
      * exact Hout.
    + cbn [chunks]. apply Forall_app. split; [exact Hout|].
      constructor; [reflexivity|]. apply IH.
  - cbn [chunks]. apply Forall_app. split; [exact Hout|]. apply IH.
Qed.

Lemma claude_calls_complete (es : list ClaudeProvider.Event) :
  forall cur,
    Forall (fun c => toolCall c <> None -> isComplete c = true)
      (chunks (ClaudeProvider.on_events es cur)).
Proof.
  induction es as [|ev rest IH]; intros cur; [constructor|].
  cbn [ClaudeProvider.on_events]. destruct ev.
  - apply IH.
  - cbn [chunks]. apply Forall_app. split; [|apply IH].
    destruct (_ || _); repeat constructor. cbn. congruence.
  - destruct cur as [acc|].
    + destruct (JSON_parse _); cbn [chunks].
      * constructor; [reflexivity|]. apply IH.
      * constructor.
    + cbn [chunks]. constructor; [reflexivity|]. apply IH.
  - apply IH.
Qed.

Lemma pulled_one_call (g : Generated) :
  Forall (fun c => toolCall c <> None -> isComplete c = true) (chunks g) ->
  match pulled g with
  | inl tc => (length (snd tc) <= 1)%nat
  | inr _ => True
  end.
Proof.
  intros H. apply taken_one_call in H. unfold pulled.
  destruct (existsb isComplete (chunks g)); [exact H|].
  destruct (failure g); [exact I|exact H].
Qed.

(** X3. The DeepSeek and Claude adapters surface a tool call only in a
    chunk that is complete, so the loops of [processMessageStream], which
    stop pulling at the first complete chunk, receive at most one tool call
    per turn from them, however many the response holds. *)
Theorem one_call_per_turn_from_sdk_adapters :
  (forall created,
      Forall (fun c => toolCall c <> None -> isComplete c = true)
        (chunks (DeepSeekProvider.stream created))
      /\ match pulled (DeepSeekProvider.stream created) with
         | inl tc => (length (snd tc) <= 1)%nat
         | inr _ => True
         end)
  /\ (forall created,
        Forall (fun c => toolCall c <> None -> isComplete c = true)
          (chunks (ClaudeProvider.stream created))
        /\ match pulled (ClaudeProvider.stream created) with
           | inl tc => (length (snd tc) <= 1)%nat
           | inr _ => True
           end).
Proof.
  split; intros created.
  - assert (H : Forall (fun c => toolCall c <> None -> isComplete c = true)
                  (chunks (DeepSeekProvider.stream created))).
    { unfold DeepSeekProvider.stream. destruct created as [[cs err]|e];
        cbn [chunks]; [apply deepseek_calls_complete|constructor]. }
    split; [exact H|apply pulled_one_call, H].
  - assert (H : Forall (fun c => toolCall c <> None -> isComplete c = true)
                  (chunks (ClaudeProvider.stream created))).
    { unfold ClaudeProvider.stream. destruct created as [[es err]|e];
        cbn [chunks]; [apply claude_calls_complete|constructor]. }
    split; [exact H|apply pulled_one_call, H].
Qed.

Lemma minimax_one_final_chunk_witness :
  final_count (chunks (MiniMaxProvider.stream clock 0 minimax_same_call_twice)) = 1%nat
  /\ last (chunks (MiniMaxProvider.stream clock 0 minimax_same_call_twice))
     = Some final_chunk.
Proof.
  apply (minimax_one_final_chunk clock 0 minimax_same_call_twice).
  vm_compute. reflexivity.
Defined.

End MoreAdapterFacts.

(** ** The tool-call markup *)

Section MarkupFacts.

Import Server Observations Samples.

Lemma match_tool_call_starts (s : jsstring) :
  MiniMaxProvider.match_tool_call s <> None ->
  startsWith s (js "<minimax:tool_call>") = true.
Proof.
  unfold MiniMaxProvider.match_tool_call, startsWith.
  destruct (strip_prefix (js "<minimax:tool_call>") s); [reflexivity|congruence].
Qed.

Lemma matchAll_tool_calls_bound (s : jsstring) :
  forall resume,
    (length (MiniMaxProvider.matchAll_tool_calls resume s)
     <= count_sub (js "<minimax:tool_call>") s)%nat.
Proof.
  induction s as [|c r IH]; intros resume; [cbn; lia|].
  cbn [MiniMaxProvider.matchAll_tool_calls count_sub].
  destruct resume as [|k].
  - destruct (MiniMaxProvider.match_tool_call (c :: r)) as [[[n p] rest]|] eqn:E.
    + rewrite (match_tool_call_starts (c :: r)) by congruence.
      change (S (length (MiniMaxProvider.matchAll_tool_calls
                           (length (c :: r) - length rest - 1) r))
              <= S (count_sub (js "<minimax:tool_call>") r))%nat.
      apply le_n_S, IH.
    + etransitivity; [apply IH|]. lia.
  - etransitivity; [apply IH|]. lia.
Qed.

Lemma finalize_calls (acc : MiniMaxProvider.Accumulating) :
  (length (emitted_calls (MiniMaxProvider.finalize acc)) <= 1)%nat.
Proof.
  unfold MiniMaxProvider.finalize.
  destruct (JSON_parse (MiniMaxProvider.arguments_text acc)); cbn; lia.
Qed.

(** X5. At [message_stop] the MiniMax adapter surfaces at most as many
    tool calls as the text holds opening tags of the tool-call markup, plus
    one for an open [tool_use] block: text without the markup yields no
    inline call. *)
Theorem inline_calls_need_markup
  (o : Oracle) (parsed : JValue) (st : MiniMaxProvider.State)
  (Hstop : MiniMaxProvider.is_string (prop (js "type") parsed) (js "message_stop") = true)
  (Hdelta : prop (js "delta") parsed = None)
  (Hblock : prop (js "content_block") parsed = None) :
  (length (emitted_calls (fst (fst (MiniMaxProvider.on_event o parsed st))))
   <= count_sub (js "<minimax:tool_call>") (MiniMaxProvider.fullTextContent st)
      + match MiniMaxProvider.currentToolCall st with Some _ => 1 | None => 0 end)%nat
  /\ (length (MiniMaxProvider.matchAll_tool_calls 0 (MiniMaxProvider.fullTextContent st))
      <= count_sub (js "<minimax:tool_call>") (MiniMaxProvider.fullTextContent st))%nat.
Proof.
  split; [|apply matchAll_tool_calls_bound].
  rewrite minimax_message_stop by assumption. cbn [fst].
  rewrite !emitted_calls_app, !length_app, emitted_calls_inline.
  pose proof (matchAll_tool_calls_bound (MiniMaxProvider.fullTextContent st) 0) as Hb.
  assert (Hs : length (emitted_calls
                         (if MiniMaxProvider.hasYieldThinking st
                          then [text_chunk (JStr MiniMaxProvider.close_sentinel)]
                          else [])) = 0%nat)
    by (destruct (MiniMaxProvider.hasYieldThinking st); reflexivity).
  rewrite Hs.
  change (length (emitted_calls [final_chunk])) with 0%nat.
  destruct (MiniMaxProvider.currentToolCall st) as [acc|].
  - pose proof (finalize_calls acc). lia.
  - change (length (emitted_calls [])) with 0%nat. lia.
Qed.

Lemma inline_calls_need_markup_witness :
  emitted_calls
    (fst (fst (MiniMaxProvider.on_event clock message_stop_event state_plain_text)))
  = [].
Proof.
  pose proof (proj1 (inline_calls_need_markup clock message_stop_event state_plain_text
                       eq_refl eq_refl eq_refl)) as H.
  change (count_sub (js "<minimax:tool_call>")
            (MiniMaxProvider.fullTextContent state_plain_text)) with 0%nat in H.
  cbn [MiniMaxProvider.currentToolCall state_plain_text] in H.
  destruct (emitted_calls _); [reflexivity|cbn in H; lia].
Defined.

Lemma obj_replace_fields (Q : jsstring * JValue -> Prop) (k : jsstring) (v : JValue) :
  Q (k, v) ->
  forall fs fs', Forall Q fs -> obj_replace k v fs = Some fs' -> Forall Q fs'.
Proof.
  intros Hq. induction fs as [|[k' v'] r IH]; intros fs' Hf H; [discriminate|].
  cbn [obj_replace] in H. inversion Hf; subst.
  destruct (str_eqb k k').
  - inversion H. constructor; assumption.
  - destruct (obj_replace k v r) as [r'|]; [|discriminate].
    inversion H. constructor; [assumption|]. apply IH; [assumption|reflexivity].
Qed.

Lemma obj_insert_index_fields (Q : jsstring * JValue -> Prop) (i : N) (k : jsstring)
  (v : JValue) :
  Q (k, v) -> forall fs, Forall Q fs -> Forall Q (obj_insert_index i k v fs).
Proof.
  intros Hq. induction fs as [|[k' v'] r IH]; intros Hf.
  - repeat constructor. exact Hq.
  - cbn [obj_insert_index]. inversion Hf; subst.
    destruct (array_index k') as [j|].
    + destruct (j <? i)%N; constructor; auto.
    + constructor; auto.
Qed.

Lemma obj_define_fields (Q : jsstring * JValue -> Prop) (k : jsstring) (v : JValue)
  (fs : list (jsstring * JValue)) :
  Q (k, v) -> Forall Q fs -> Forall Q (obj_define k v fs).
Proof.
  intros Hq Hf. unfold obj_define.
  destruct (obj_replace k v fs) as [fs'|] eqn:E.
  - eapply obj_replace_fields; eassumption.
  - destruct (array_index k).
    + apply obj_insert_index_fields; assumption.
    + apply Forall_app. split; [assumption|]. repeat constructor. exact Hq.
Qed.

Lemma obj_get_field (Q : jsstring * JValue -> Prop) (k : jsstring) (v : JValue) :
  forall fs, Forall Q fs -> obj_get k fs = Some v -> Q (k, v).
Proof.
  induction fs as [|[k' v'] r IH]; intros Hf H; [discriminate|].
  cbn [obj_get] in H. inversion Hf; subst.
  destruct (str_eqb k k') eqn:E.
  - apply str_eqb_eq in E. subst k'. inversion H; subst. assumption.
  - apply IH; assumption.
Qed.

Lemma parameters_fields (ms : list (jsstring * jsstring)) :
  forall params,
    Forall string_field params ->
    Forall string_field
      (fold_left (fun params kv => obj_assign (fst kv) (JStr (snd kv)) params) ms params).
Proof.
  induction ms as [|[k v] ms IH]; intros params H; [exact H|].
  cbn [fold_left fst snd]. apply IH. unfold obj_assign.
  destruct (str_eqb k (js "__proto__")) eqn:E; [exact H|].
  apply obj_define_fields; [|exact H].
  split; [eexists; reflexivity|]. cbn [fst].
  intros ->. rewrite str_eqb_refl in E. discriminate.
Qed.

(** X6. The arguments of an inline tool call are strings: every value that
    the adapter reads from the parameters element is kept as the text
    between the tags, never converted to a number or a boolean, and no
    parameter is stored under the key [__proto__]. *)
Theorem inline_arguments_are_strings (paramsXml k : jsstring) (v : JValue) :
  prop k (MiniMaxProvider.parse_parameters paramsXml) = Some v ->
  (exists s, v = JStr s) /\ k <> js "__proto__".
Proof.
  unfold MiniMaxProvider.parse_parameters. cbn [prop]. intros H.
  exact (obj_get_field string_field k v _ (parameters_fields _ [] ltac:(constructor)) H).
Qed.

Lemma inline_arguments_are_strings_witness :
  prop (js "x") (MiniMaxProvider.parse_parameters (js "<x>100</x><y>200</y>"))
  = Some (JStr (js "100"))
  /\ exists s, JStr (js "100") = JStr s.
Proof.
  split; [vm_compute; reflexivity|].
  apply (inline_arguments_are_strings (js "<x>100</x><y>200</y>") (js "x")).
  vm_compute. reflexivity.
Defined.

Lemma count_sub_zero_cons (pat : jsstring) (c : N) (r : jsstring) :
  count_sub pat (c :: r) = 0%nat ->
  startsWith (c :: r) pat = false /\ count_sub pat r = 0%nat.
Proof.
  cbn [count_sub]. destruct (startsWith (c :: r) pat); [lia|].
  intros H. split; [reflexivity|exact H].
Qed.

Lemma remove_markup_nothing (s : jsstring) :
  count_sub (js "<minimax:tool_call>") s = 0%nat -> remove_markup 0 s = s.
Proof.
  induction s as [|c r IH]; intros H; [reflexivity|].
  apply count_sub_zero_cons in H as [Hs Hr].
  cbn [remove_markup]. unfold match_markup.
  unfold startsWith in Hs.
  destruct (strip_prefix (js "<minimax:tool_call>") (c :: r)); [discriminate|].
  rewrite (IH Hr). reflexivity.
Qed.

Lemma remove_markup_length (s : jsstring) :
  forall resume, (length (remove_markup resume s) <= length s)%nat.
Proof.
  induction s as [|c r IH]; intros resume; [cbn; lia|].
  cbn [remove_markup]. destruct resume as [|k].
  - destruct (match_markup (c :: r)) as [rest|].
    + etransitivity; [apply IH|]. cbn [length]. lia.
    + cbn [length]. apply le_n_S, IH.
  - etransitivity; [apply IH|]. cbn [length]. lia.
Qed.

Lemma trim_length (s : jsstring) : (length (trim s) <= length s)%nat.
Proof.
  unfold trim, trimEnd, trimStart. rewrite length_rev.
  pose proof (skip_length is_space (rev (skip is_space s))) as H1.
  rewrite length_rev in H1.
  pose proof (skip_length is_space s) as H2. lia.
Qed.

Lemma count_sub_strip (pat p : jsstring) :
  forall s r, strip_prefix p s = Some r -> (count_sub pat r <= count_sub pat s)%nat.
Proof.
  induction p as [|x p IH]; intros s r H.
  - destruct s; inversion H; lia.
  - destruct s as [|y s]; [discriminate|]. cbn [strip_prefix] in H.
    destruct (x =? y)%N; [|discriminate].
    cbn [count_sub]. specialize (IH s r H). lia.
Qed.

Lemma until_close_found (close : jsstring) (s v rest : jsstring) :
  close <> [] -> until_close close s = Some (v, rest) ->
  (0 < count_sub close s)%nat.
Proof.
  intros Hne. revert v rest. induction s as [|c r IH]; intros v rest H.
  - cbn [until_close] in H. destruct close; [congruence|discriminate].
  - cbn [until_close] in H. cbn [count_sub]. unfold startsWith.
    destruct (strip_prefix close (c :: r)); [lia|].
    destruct (until_close close r) as [[v' rest']|] eqn:E; [|discriminate].
    specialize (IH v' rest' eq_refl). lia.
Qed.

Lemma match_markup_closed (s rest : jsstring) :
  match_markup s = Some rest ->
  (0 < count_sub (js "</minimax:tool_call>") s)%nat.
Proof.
  unfold match_markup.
  destruct (strip_prefix (js "<minimax:tool_call>") s) as [r|] eqn:E; [|discriminate].
  destruct (until_close (js "</minimax:tool_call>") r) as [[v rest']|] eqn:U;
    [|discriminate].
  intros _.
  pose proof (until_close_found (js "</minimax:tool_call>") r v rest'
                ltac:(discriminate) U).
  pose proof (count_sub_strip (js "</minimax:tool_call>") _ _ _ E). lia.
Qed.

Lemma remove_markup_unclosed (s : jsstring) :
  count_sub (js "</minimax:tool_call>") s = 0%nat -> remove_markup 0 s = s.
Proof.
  induction s as [|c r IH]; intros H; [reflexivity|].
  cbn [remove_markup].
  destruct (match_markup (c :: r)) as [rest|] eqn:E.
  - apply match_markup_closed in E. lia.
  - apply count_sub_zero_cons in H as [_ Hr]. rewrite (IH Hr). reflexivity.
Qed.

(** X7. Cleaning the text of a turn only removes: the cleaned text is never
    longer than the text, and a text without an opening tag of the
    tool-call markup, or without a closing tag, is stored as it is, trimmed. *)
Theorem clean_only_removes_markup (text : jsstring) :
  (length (clean text) <= length text)%nat
  /\ (count_sub (js "<minimax:tool_call>") text = 0%nat -> clean text = trim text)
  /\ (count_sub (js "</minimax:tool_call>") text = 0%nat -> clean text = trim text).
Proof.
  unfold clean. split; [|split].
  - etransitivity; [apply trim_length|apply remove_markup_length].
  - intros H. rewrite remove_markup_nothing by exact H. reflexivity.
  - intros H. rewrite remove_markup_unclosed by exact H. reflexivity.
Qed.

End MarkupFacts.

(** ** The MiniMax request and the registry *)

Section RequestFacts.

Import Server Observations.
Import MiniMaxProvider.

Lemma formatMessages_roles (messages : list Message) :
  Forall (fun m => is_system (role m) = false) messages ->
  Forall (fun v => prop (js "role") v <> Some (JStr (js "system")))
    (formatMessages messages).
Proof.
  induction 1 as [|m ms Hm _ IH]; [constructor|].
  cbn [formatMessages map]. constructor; [|exact IH].
  destruct (role m); try discriminate Hm; vm_compute; discriminate.
Qed.

Lemma filter_not_system (messages : list Message) :
  Forall (fun m => is_system (role m) = false)
    (List.filter (fun m => negb (is_system (role m))) messages).
Proof.
  induction messages as [|m ms IH]; [constructor|].
  cbn [List.filter]. destruct (is_system (role m)) eqn:E; cbn [negb]; [exact IH|].
  constructor; assumption.
Qed.

Lemma body_messages (cfg : Config) (streaming : bool) (messages : list Message)
  (tools : option (list Tool)) :
  prop (js "messages") (request_body cfg streaming messages tools)
  = Some (JArr (formatMessages
                  (List.filter (fun m => negb (is_system (role m))) messages))).
Proof.
  unfold request_body.
  destruct (List.find _ messages) as [m|]; destruct (formatTools tools) as [ts|];
    destruct streaming; reflexivity.
Qed.

Lemma body_system (cfg : Config) (streaming : bool) (messages : list Message)
  (tools : option (list Tool)) :
  prop (js "system") (request_body cfg streaming messages tools)
  = option_map (fun m => JStr (content m))
      (List.find (fun m => is_system (role m)) messages).
Proof.
  unfold request_body.
  destruct (List.find _ messages) as [m|]; destruct (formatTools tools) as [ts|];
    destruct streaming; reflexivity.
Qed.

(** X8. The request that the MiniMax adapter builds from the messages that
    [AIService] passes carries the service's system prompt as [system] and,
    as [messages], the history without its messages of role [system]: the
    context messages in which [ChatService] stores the tool results are not
    sent to the model. *)
Theorem minimax_request_drops_context_messages
  (env : Env) (cfg : Config) (streaming : bool) (history : list Message)
  (tools : option (list Tool)) :
  let body := request_body cfg streaming (system_message env :: history) tools in
  let sent := formatMessages (List.filter (fun m => negb (is_system (role m))) history) in
  prop (js "system") body = Some (JStr (systemPrompt env))
  /\ prop (js "messages") body = Some (JArr sent)
  /\ Forall (fun v => prop (js "role") v <> Some (JStr (js "system"))) sent
  /\ (forall toolCall result,
        ~ In (JObj [(js "role", JStr (js "system"));
                    (js "content", JStr (toolResultMessage toolCall result))])
             sent).
Proof.
  intros body sent. subst body sent. split; [|split; [|split]].
  - rewrite body_system. reflexivity.
  - rewrite body_messages. reflexivity.
  - apply formatMessages_roles, filter_not_system.
  - intros toolCall result Hin.
    pose proof (formatMessages_roles _ (filter_not_system history)) as H.
    rewrite List.Forall_forall in H. apply (H _ Hin). reflexivity.
Qed.

End RequestFacts.

Section RegistryFacts.

Import Observations.
Import ToolRegistry.

Lemma get_set (tools : Registry) (name k : jsstring) (e : Entry) :
  get (set tools k e) name = if str_eqb name k then Some e else get tools name.
Proof.
  induction tools as [|[k' e'] r IH]; cbn [set get].
  - destruct (str_eqb name k); reflexivity.
  - destruct (str_eqb k k') eqn:E.
    + apply str_eqb_eq in E. subst k'. cbn [get].
      destruct (str_eqb name k); reflexivity.
    + cbn [get]. destruct (str_eqb name k') eqn:E'.
      * apply str_eqb_eq in E'. subst k'.
        destruct (str_eqb name k) eqn:E''; [|reflexivity].
        apply str_eqb_eq in E''. subst k. rewrite str_eqb_refl in E. discriminate.
      * exact IH.
Qed.

Lemma keys_set (tools : Registry) (k : jsstring) (e : Entry) :
  map fst (set tools k e)
  = match get tools k with
    | Some _ => map fst tools
    | None => map fst tools ++ [k]
    end.
Proof.
  induction tools as [|[k' e'] r IH]; cbn [set get map fst]; [reflexivity|].
  destruct (str_eqb k k') eqn:E; [reflexivity|].
  cbn [map fst]. rewrite IH. destruct (get r k); reflexivity.
Qed.

Lemma get_None_not_in (tools : Registry) (k : jsstring) :
  get tools k = None -> k ∉ map fst tools.
Proof.
  induction tools as [|[k' e'] r IH]; cbn [get map fst];
    [intros _; apply not_elem_of_nil|].
  destruct (str_eqb k k') eqn:E; [discriminate|].
  intros H Hin. apply elem_of_cons in Hin as [Heq|Hin]; [|exact (IH H Hin)].
  subst k'. rewrite str_eqb_refl in E. discriminate.
Qed.

Lemma keys_set_NoDup (tools : Registry) (k : jsstring) (e : Entry) :
  NoDup (map fst tools) -> NoDup (map fst (set tools k e)).
Proof.
  intros H. rewrite keys_set. destruct (get tools k) eqn:E; [exact H|].
  apply NoDup_app. split; [exact H|]. split.
  - intros x Hx Hin. apply list_elem_of_singleton in Hin. subst x.
    exact (get_None_not_in tools k E Hx).
  - apply NoDup_singleton.
Qed.

Lemma set_named (tools : Registry) (k : jsstring) (e : Entry) :
  tool_name (definition e) = k -> named tools -> named (set tools k e).
Proof.
  intros Hk. unfold named. induction 1 as [|[k' e'] r Hkv Hr IH]; cbn [set].
  - repeat constructor. exact Hk.
  - destruct (str_eqb k k') eqn:E.
    + apply str_eqb_eq in E. subst k'. constructor; [exact Hk|exact Hr].
    + constructor; assumption.
Qed.

Lemma named_names (tools : Registry) :
  named tools -> map tool_name (getAllDefinitions tools) = map fst tools.
Proof.
  unfold named, getAllDefinitions. induction 1 as [|[k e] r Hkv _ IH]; [reflexivity|].
  cbn [map fst snd] in *. rewrite Hkv, IH. reflexivity.
Qed.

Lemma registerAll_invariant (entries : list (Tool * (nat -> JValue -> ToolOutcome))) :
  forall tools,
    named tools -> NoDup (map fst tools) ->
    named (registerAll tools entries) /\ NoDup (map fst (registerAll tools entries)).
Proof.
  induction entries as [|[d f] es IH]; intros tools Hn Hd; [split; assumption|].
  cbn [registerAll fold_left fst snd]. apply IH.
  - apply set_named; [reflexivity|exact Hn].
  - apply keys_set_NoDup, Hd.
Qed.

(** X10. The registry keeps one definition per name: after [register], the
    name resolves to the definition just registered and every other name
    resolves as before; a name registered again keeps its place in the
    order of the registry and adds no entry; and the names that
    [getAllDefinitions] lists after any sequence of registrations are
    pairwise distinct. *)
Theorem registry_keeps_one_definition_per_name
  (tools : Registry) (d : Tool) (f : nat -> JValue -> ToolOutcome) :
  (forall name,
      getDefinition (register tools d f) name
      = if str_eqb name (tool_name d) then Some d else getDefinition tools name)
  /\ map fst (register tools d f)
     = (if has tools (JStr (tool_name d)) then map fst tools
        else map fst tools ++ [tool_name d])
  /\ (forall entries,
        NoDup (map tool_name (getAllDefinitions (registerAll [] entries)))).
Proof.
  split; [|split].
  - intros name. unfold getDefinition, register. rewrite get_set.
    destruct (str_eqb name (tool_name d)); reflexivity.
  - unfold register, has, lookup. rewrite keys_set.
    destruct (get tools (tool_name d)); reflexivity.
  - intros entries.
    destruct (registerAll_invariant entries [] ltac:(constructor) ltac:(constructor))
      as [Hn Hd].
    rewrite named_names by exact Hn. exact Hd.
Qed.

End RegistryFacts.

(** ** The MiniMax chat response *)

Section ParseResponseFacts.

Import Observations Samples.
Import MiniMaxProvider.

Lemma is_string_two (v : option JValue) (a b : jsstring) :
  is_string v a = true -> str_eqb a b = false -> is_string v b = false.
Proof.
  intros Ha Hab. destruct v as [[]|]; try reflexivity. cbn in *.
  apply str_eqb_eq in Ha. subst. exact Hab.
Qed.

Lemma on_block_adds (o : Oracle) (block : JValue) (p p' : Parsing) :
  on_block o block p = Returned p' ->
  textContent p' = textContent p ++ block_text block
  /\ thinkingContent p' = thinkingContent p ++ block_thinking block
  /\ length (toolCalls p')
     = (length (toolCalls p) + if block_is_call block then 1 else 0)%nat.
Proof.
  unfold on_block, block_text, block_thinking, block_is_call.
  destruct block; try discriminate;
    match goal with
    | |- context [is_string ?ty (js "text")] =>
      destruct (is_string ty (js "text")) eqn:E1;
      [ rewrite (is_string_two ty _ (js "thinking") E1 eq_refl),
          (is_string_two ty _ (js "tool_use") E1 eq_refl)
      | destruct (is_string ty (js "thinking")) eqn:E2;
        [ rewrite (is_string_two ty _ (js "tool_use") E2 eq_refl)
        | destruct (is_string ty (js "tool_use")) eqn:E3 ] ]
    end;
    intros H; inversion H; subst; cbn [textContent thinkingContent toolCalls];
    rewrite ?app_nil_r, ?length_app; cbn [length]; repeat split; lia.
Qed.

Lemma on_blocks_adds (o : Oracle) (blocks : list JValue) :
  forall p p',
    on_blocks o blocks p = Returned p' ->
    textContent p' = textContent p ++ concat (map block_text blocks)
    /\ thinkingContent p' = thinkingContent p ++ concat (map block_thinking blocks)
    /\ length (toolCalls p')
       = (length (toolCalls p) + length (List.filter block_is_call blocks))%nat.
Proof.
  induction blocks as [|b bs IH]; intros p p' H.
  - inversion H. cbn. rewrite !app_nil_r. repeat split. lia.
  - cbn [on_blocks] in H. destruct (on_block o b p) as [p1|e] eqn:E; [|discriminate].
    apply on_block_adds in E as [Et [Eth Ec]].
    apply IH in H as [Ht [Hth Hc]].
    cbn [map concat List.filter]. rewrite Ht, Hth, Hc, Et, Eth, Ec, <- !app_assoc.
    repeat split. destruct (block_is_call b); cbn [length]; lia.
Qed.

(** X9. In the content that [parseResponse] of the MiniMax adapter returns,
    the thinking of all blocks comes first, between one open and one close
    sentinel, followed by the text of all blocks, whatever the order of the
    blocks; without thinking no sentinel is added; and [toolCalls] holds one
    call per [tool_use] block, and is left undefined when there is none. *)
Theorem minimax_chat_wraps_thinking
  (o : Oracle) (t : nat) (response : JValue) (result : AIResponse)
  (Hparsed : parseResponse o t response = Returned result) :
  exists blocks,
    content_blocks response = Returned blocks
    /\ response_content result
       = match concat (map block_thinking blocks) with
         | [] => concat (map block_text blocks)
         | thinking =>
           open_sentinel ++ thinking ++ close_sentinel
           ++ concat (map block_text blocks)
         end
    /\ match response_toolCalls result with
       | Some calls =>
         calls <> [] /\ length calls = length (List.filter block_is_call blocks)
       | None => List.filter block_is_call blocks = []
       end.
Proof.
  unfold parseResponse in Hparsed.
  destruct (content_blocks response) as [blocks|e]; [|discriminate].
  exists blocks. split; [reflexivity|].
  destruct (on_blocks o blocks _) as [p|e] eqn:E; [|discriminate].
  apply on_blocks_adds in E as [Ht [Hth Hc]].
  cbn [textContent thinkingContent toolCalls app length] in Ht, Hth, Hc.
  inversion Hparsed; subst result. cbn [response_content response_toolCalls].
  rewrite Ht, Hth. split; [reflexivity|].
  destruct (toolCalls p) as [|c cs].
  - cbn [length] in Hc. destruct (List.filter block_is_call blocks); [reflexivity|].
    discriminate Hc.
  - split; [discriminate|exact Hc].
Qed.

Lemma minimax_chat_wraps_thinking_witness :
  parseResponse clock 0 minimax_reply
  = Returned {| response_content := js "[思考]先想想[/思考]好的";
                response_toolCalls := Some [call_screenshot_toolu] |}
  /\ exists blocks, content_blocks minimax_reply = Returned blocks.
Proof.
  assert (H : parseResponse clock 0 minimax_reply
              = Returned {| response_content := js "[思考]先想想[/思考]好的";
                            response_toolCalls := Some [call_screenshot_toolu] |})
    by (vm_compute; reflexivity).
  split; [exact H|].
  destruct (minimax_chat_wraps_thinking clock 0 minimax_reply _ H) as [blocks [Hb _]].
  exists blocks. exact Hb.
Defined.

End ParseResponseFacts.

(** ** The command check of the system tool *)

Section SystemToolFacts.

Import Observations Samples.
Import SystemTool.

Lemma strip_prefix_app (p r : jsstring) : strip_prefix p (p ++ r) = Some r.
Proof.
  induction p as [|x p IH]; cbn; [destruct r; reflexivity|].
  rewrite N.eqb_refl. exact IH.
Qed.

Lemma strip_prefix_inv (p : jsstring) :
  forall s r, strip_prefix p s = Some r -> s = p ++ r.
Proof.
  induction p as [|x p IH]; intros s r H.
  - destruct s; inversion H; reflexivity.
  - destruct s as [|y s]; [discriminate|]. cbn [strip_prefix] in H.
    destruct (x =? y)%N eqn:E; [|discriminate].
    apply N.eqb_eq in E. subst y. cbn. f_equal. apply IH, H.
Qed.

Lemma includes_iff (s pat : jsstring) :
  includes s pat = true <-> exists a b, s = a ++ pat ++ b.
Proof.
  split.
  - induction s as [|c r IH]; cbn [includes]; intros H.
    + rewrite orb_false_r in H. unfold startsWith in H.
      destruct (strip_prefix pat []) as [rest|] eqn:E; [|discriminate].
      exists [], rest. cbn [app]. exact (strip_prefix_inv pat _ _ E).
    + apply orb_true_iff in H as [H|H].
      * unfold startsWith in H.
        destruct (strip_prefix pat (c :: r)) as [rest|] eqn:E; [|discriminate].
        exists [], rest. cbn [app]. exact (strip_prefix_inv pat _ _ E).
      * destruct (IH H) as [a [b ->]]. exists (c :: a), b. reflexivity.
  - intros [a [b ->]]. induction a as [|c a IH].
    + cbn [app]. assert (Hs : startsWith (pat ++ b) pat = true).
      { unfold startsWith. rewrite strip_prefix_app. reflexivity. }
      destruct (pat ++ b); cbn [includes]; rewrite Hs; reflexivity.
    + cbn [app includes]. rewrite IH. apply orb_true_r.
Qed.

Lemma includes_lower (command pattern : jsstring) :
  includes (ascii_lower command) (ascii_lower pattern) = true <-> holds command pattern.
Proof.
  rewrite includes_iff. unfold holds. split.
  - intros [a [b H]]. unfold ascii_lower in H.
    apply map_eq_app in H as [a' [r [-> [Ha Hr]]]].
    apply map_eq_app in Hr as [f [b' [-> [Hf Hb]]]].
    exists a', f, b'. split; [reflexivity|]. exact Hf.
  - intros [a [f [b [-> Hf]]]]. exists (ascii_lower a), (ascii_lower b).
    unfold ascii_lower in *. rewrite !map_app, Hf. reflexivity.
Qed.

Lemma isDangerous_holds (P : Platform) (command : jsstring) :
  (forall s, forallb is_ascii s = true -> toLowerCase P s = ascii_lower s) ->
  forallb is_ascii command = true ->
  isDangerous P command = true
  <-> exists pattern, In pattern dangerousPatterns /\ holds command pattern.
Proof.
  intros Hengine Hascii. unfold isDangerous. rewrite existsb_exists.
  assert (Hpat : forall pattern, In pattern dangerousPatterns ->
                                 toLowerCase P pattern = ascii_lower pattern).
  { intros pattern Hin. apply Hengine.
    unfold dangerousPatterns in Hin. cbn [In] in Hin.
    repeat destruct Hin as [<-|Hin]; try reflexivity. destruct Hin. }
  split; intros [pattern [Hin H]]; exists pattern; (split; [exact Hin|]).
  - rewrite (Hengine command Hascii), (Hpat pattern Hin) in H.
    apply includes_lower, H.
  - rewrite (Hengine command Hascii), (Hpat pattern Hin).
    apply includes_lower, H.
Qed.

(** X11. [executeCommand] runs a command exactly when it holds none of the
    seven dangerous patterns, compared without regard to the case of ASCII
    letters (for a command of ASCII characters): a command that holds one,
    anywhere, is refused and nothing is handed to the shell; any other
    command is handed to the shell once, as it is or, for a GUI
    application on Windows, behind [start]. *)
Theorem dangerous_command_never_runs
  (P : Platform) (command : jsstring) (timeout : option JNumber)
  (Hengine : forall s, forallb is_ascii s = true -> toLowerCase P s = ascii_lower s)
  (Hascii : forallb is_ascii command = true) :
  ((exists pattern, In pattern dangerousPatterns /\ holds command pattern) ->
     executeCommand P command timeout = (refused, []))
  /\ (~ (exists pattern, In pattern dangerousPatterns /\ holds command pattern) ->
      exists handed,
        snd (executeCommand P command timeout)
        = [(handed, default {| mant := 3; exp10 := 4 |} timeout)]
        /\ (handed = command \/ handed = jsq "start '' " ++ command)).
Proof.
  pose proof (isDangerous_holds P command Hengine Hascii) as Hiff.
  unfold executeCommand. split; intros H.
  - apply Hiff in H. rewrite H. reflexivity.
  - destruct (isDangerous P command) eqn:E.
    + exfalso. apply H, Hiff. reflexivity.
    + destruct (isGuiApp P command && str_eqb (os_platform P) (js "win32")).
      * eexists. split; [reflexivity|]. right. reflexivity.
      * eexists. split; [reflexivity|]. left. reflexivity.
Qed.

Lemma dangerous_command_never_runs_witness :
  executeCommand linux_box (js "sudo SHUTDOWN -h now") None = (refused, [])
  /\ snd (executeCommand linux_box (js "echo hello") None)
     = [(js "echo hello", {| mant := 3; exp10 := 4 |})].
Proof.
  split.
  - apply (dangerous_command_never_runs linux_box (js "sudo SHUTDOWN -h now") None
             (fun _ _ => eq_refl) eq_refl).
    exists (js "shutdown"). split; [cbn; tauto|].
    exists (js "sudo "), (js "SHUTDOWN"), (js " -h now"). split; reflexivity.
  - vm_compute. reflexivity.
Defined.

End SystemToolFacts.

(** ** The sessions of [ChatService] and the tasks of [TaskExecutor] *)

Section StoreFacts.

Import Server Observations Samples.

Variable env : Env.

(** X12. [getMessages] returns the latest messages: what it returns is a
    suffix of the session's history, of [limit] messages when the history
    has that many and [limit] is positive, and the whole history when
    [limit] is zero or not given; for an unknown session it returns
    nothing. *)
Theorem getMessages_returns_latest (w : World) (sessionId : jsstring)
  (limit : option nat) :
  (exists older,
      getMessages w sessionId None = older ++ getMessages w sessionId limit)
  /\ length (getMessages w sessionId limit)
     = match limit with
       | Some (S n) => Nat.min (S n) (length (getMessages w sessionId None))
       | _ => length (getMessages w sessionId None)
       end
  /\ (getSession w sessionId = None -> getMessages w sessionId limit = []).
Proof.
  unfold getMessages, getSession.
  destruct (sessions w !! sessionId) as [session|].
  - split; [|split; [|discriminate]].
    + destruct limit as [[|n]|]; try (exists []; reflexivity).
      exists (firstn (length (messages session) - S n) (messages session)).
      symmetry. apply firstn_skipn.
    + destruct limit as [[|n]|]; try reflexivity.
      rewrite length_skipn. lia.
  - split; [exists []; reflexivity|]. split; [|reflexivity].
    destruct limit as [[|n]|]; reflexivity.
Qed.

Lemma getMessages_last (w : World) (sessionId : jsstring) (limit : option nat)
  (session : ChatSession) (m : Message) (old : list Message) :
  sessions w !! sessionId = Some session -> messages session = old ++ [m] ->
  last (getMessages w sessionId limit) = Some m.
Proof.
  intros Hs Hm. unfold getMessages. rewrite Hs, Hm.
  destruct limit as [[|n]|]; try apply last_snoc.
  rewrite length_app. cbn [length].
  replace (length old + 1 - S n)%nat with (length old - n)%nat by lia.
  rewrite skipn_app.
  replace (length old - n - length old)%nat with 0%nat by lia.
  cbn [skipn]. apply last_snoc.
Qed.

(** X13. [addMessage] on an existing session appends the message, stamped
    with the time of the call, at the end of the history: [getMessages]
    then returns the old history followed by it, with any limit its last
    element is the new message, the session keeps its id and its creation
    time, and no other session changes. *)
Theorem addMessage_then_getMessages
  (sessionId : jsstring) (r : MessageRole) (text : jsstring) (w : World)
  (session : ChatSession)
  (Hsession : sessions w !! sessionId = Some session) :
  let ran := addMessage env sessionId r text w in
  let message :=
    {| role := r; content := text;
       timestamp := Some (Date_now (oracle env) (tick w)) |} in
  outcome ran = inl tt
  /\ trace ran = []
  /\ getMessages (world ran) sessionId None = messages session ++ [message]
  /\ (forall limit, last (getMessages (world ran) sessionId limit) = Some message)
  /\ (forall other, other <> sessionId ->
        getSession (world ran) other = getSession w other)
  /\ (exists session',
        getSession (world ran) sessionId = Some session'
        /\ session_id session' = session_id session
        /\ createdAt session' = createdAt session
        /\ updatedAt session' = Date_now (oracle env) (S (tick w))).
Proof.
  intros ran message. subst ran. rewrite addMessage_run.
  cbn [outcome trace world]. unfold message_added. rewrite Hsession.
  split; [reflexivity|]. split; [reflexivity|].
  assert (Hget : forall limit,
             last (getMessages
                     {| sessions :=
                          <[sessionId:={| session_id := session_id session;
                                          messages := messages session ++ [message];
                                          createdAt := createdAt session;
                                          updatedAt := Date_now (oracle env) (S (tick w)) |}]>
                            (sessions w);
                        runningTasks := runningTasks w;
                        tick := 2 + tick w |} sessionId limit) = Some message).
  { intros limit. eapply getMessages_last.
    - cbn [sessions]. apply lookup_insert_eq.
    - reflexivity. }
  split; [|split; [exact Hget|split]].
  - unfold getMessages. cbn [sessions]. rewrite lookup_insert_eq. reflexivity.
  - intros other Hne. unfold getSession. cbn [sessions].
    apply lookup_insert_ne. congruence.
  - eexists. unfold getSession. cbn [sessions]. rewrite lookup_insert_eq.
    split; [reflexivity|]. repeat split.
Qed.

Lemma deleteSession_run (sessionId : jsstring) (w : World) :
  deleteSession sessionId w
  = {| outcome :=
         inl (match sessions w !! sessionId with Some _ => true | None => false end);
       world :=
         {| sessions := delete sessionId (sessions w);
            runningTasks := runningTasks w; tick := tick w |};
       trace := [] |}.
Proof. reflexivity. Qed.

Lemma clearMessages_run (sessionId : jsstring) (w : World) :
  clearMessages env sessionId w
  = {| outcome := inl tt;
       world :=
         match sessions w !! sessionId with
         | Some session =>
           {| sessions :=
                <[sessionId:={| session_id := session_id session; messages := [];
                                createdAt := createdAt session;
                                updatedAt := Date_now (oracle env) (tick w) |}]>
                  (sessions w);
              runningTasks := runningTasks w; tick := S (tick w) |}
         | None => w
         end;
       trace := [] |}.
Proof.
  unfold clearMessages. rewrite bind_run. cbn [get_world outcome world trace].
  destruct (sessions w !! sessionId); [reflexivity|].
  rewrite after_nil. reflexivity.
Qed.

(** X14. [deleteSession] tells whether the session existed and removes
    it: afterwards [getSession] finds nothing and [getMessages] is empty,
    deleting again returns false, a message added to the deleted session
    is dropped, and no other session changes. *)
Theorem deleted_session_receives_nothing
  (sessionId : jsstring) (r : MessageRole) (text : jsstring) (w : World) :
  let ran := deleteSession sessionId w in
  outcome ran
  = inl (match getSession w sessionId with Some _ => true | None => false end)
  /\ getSession (world ran) sessionId = None
  /\ getMessages (world ran) sessionId None = []
  /\ (forall other, other <> sessionId ->
        getSession (world ran) other = getSession w other)
  /\ outcome (deleteSession sessionId (world ran)) = inl false
  /\ world (addMessage env sessionId r text (world ran)) = world ran.
Proof.
  intros ran. subst ran. rewrite deleteSession_run. cbn [outcome world].
  unfold getSession, getMessages. cbn [sessions].
  rewrite lookup_delete_eq.
  split; [reflexivity|]. split; [reflexivity|]. split; [reflexivity|]. split.
  - intros other Hne. apply lookup_delete_ne. congruence.
  - split.
    + rewrite deleteSession_run. cbn [outcome sessions].
      rewrite lookup_delete_eq. reflexivity.
    + rewrite addMessage_run. cbn [world]. unfold message_added. cbn [sessions].
      rewrite lookup_delete_eq. reflexivity.
Qed.

(** X15. [clearMessages] empties the history of a session and keeps the
    session: afterwards [getMessages] is empty, the session still exists
    with the same id and creation time and the time of the call as its
    update time, and no other session changes; on an unknown session it
    changes nothing and does not read the clock. *)
Theorem cleared_session_is_kept_empty
  (sessionId : jsstring) (w : World) :
  let ran := clearMessages env sessionId w in
  outcome ran = inl tt
  /\ getMessages (world ran) sessionId None = []
  /\ (forall other, other <> sessionId ->
        getSession (world ran) other = getSession w other)
  /\ match getSession w sessionId with
     | Some session =>
       exists session',
         getSession (world ran) sessionId = Some session'
         /\ session_id session' = session_id session
         /\ createdAt session' = createdAt session
         /\ updatedAt session' = Date_now (oracle env) (tick w)
     | None => world ran = w
     end.
Proof.
  intros ran. subst ran. rewrite clearMessages_run. cbn [outcome world].
  unfold getSession, getMessages.
  destruct (sessions w !! sessionId) as [session|] eqn:E; cbn [sessions].
  - rewrite lookup_insert_eq. cbn [messages].
    split; [reflexivity|]. split; [reflexivity|]. split.
    + intros other Hne. apply lookup_insert_ne. congruence.
    + eexists. split; [reflexivity|]. repeat split.
  - rewrite E. repeat split.
Qed.

Lemma cancelTask_run (taskId : jsstring) (w : World) :
  cancelTask env taskId w
  = match runningTasks w !! taskId with
    | Some task =>
      if is_running (task_status task) then
        {| outcome := inl true;
           world :=
             {| sessions := sessions w;
                runningTasks := delete taskId (runningTasks w);
                tick := S (tick w) |};
           trace :=
             [TASK_UPDATE (with_status task cancelled (Date_now (oracle env) (tick w)))] |}
      else {| outcome := inl false; world := w; trace := [] |}
    | None => {| outcome := inl false; world := w; trace := [] |}
    end.
Proof.
  unfold cancelTask. rewrite bind_run. cbn [get_world outcome world trace].
  destruct (runningTasks w !! taskId) as [task|]; [|rewrite after_nil; reflexivity].
  destruct (is_running (task_status task)); [reflexivity|].
  rewrite after_nil. reflexivity.
Qed.

Lemma settle_status (task : Task) (result : JValue) (now : N) :
  task_status (settle task result now)
  = if succeeded result then completed else failed.
Proof. destruct result; reflexivity. Qed.

Lemma settle_id (task : Task) (result : JValue) (now : N) :
  task_id (settle task result now) = task_id task.
Proof. destruct result; reflexivity. Qed.

(** X16. [execute] never throws and leaves the task not running: it
    returns the task with the registry's result stored, with status
    [completed] when the result's [success] is truthy and [failed]
    otherwise; the task is no longer among the running tasks, the sessions
    are untouched, and cancelling the task afterwards returns false and
    changes nothing. *)
Theorem executed_task_is_not_running (task : Task) (w : World) :
  let ran := execute env task w in
  let result := registry_result env (task_params task) w in
  (exists done,
      outcome ran = inl done
      /\ task_id done = task_id task
      /\ task_result done = Some result
      /\ task_status done = (if succeeded result then completed else failed))
  /\ isTaskRunning (world ran) (task_id task) = false
  /\ runningTasks (world ran) = delete (task_id task) (runningTasks w)
  /\ sessions (world ran) = sessions w
  /\ cancelTask env (task_id task) (world ran)
     = {| outcome := inl false; world := world ran; trace := [] |}.
Proof.
  intros ran result. subst ran result. rewrite execute_run.
  cbn [outcome world]. unfold executed_world.
  assert (Hid : task_id (finished env task w) = task_id task).
  { unfold finished. rewrite settle_id. reflexivity. }
  rewrite Hid.
  assert (Hdel : delete (task_id task)
                   (<[task_id task:=started env task w]> (runningTasks w))
                 = delete (task_id task) (runningTasks w)).
  { apply delete_insert_eq. }
  rewrite Hdel.
  split; [|split; [|split; [|split]]].
  - exists (finished env task w). split; [reflexivity|]. split; [exact Hid|].
    split; [apply finished_result|].
    unfold finished. apply settle_status.
  - unfold isTaskRunning. cbn [runningTasks]. rewrite lookup_delete_eq. reflexivity.
  - reflexivity.
  - reflexivity.
  - rewrite cancelTask_run. cbn [runningTasks]. rewrite lookup_delete_eq. reflexivity.
Qed.

(** X17. [cancelTask] returns whether the task was running; a running task
    is removed from the running tasks and announced once with status
    [cancelled], any other call changes nothing and announces nothing; in
    both cases the task is not running afterwards, cancelling again returns
    false, and the other tasks and the sessions are untouched. *)
Theorem cancelTask_cancels_running_task (taskId : jsstring) (w : World) :
  let ran := cancelTask env taskId w in
  outcome ran = inl (isTaskRunning w taskId)
  /\ isTaskRunning (world ran) taskId = false
  /\ (forall other, other <> taskId ->
        runningTasks (world ran) !! other = runningTasks w !! other)
  /\ sessions (world ran) = sessions w
  /\ (if isTaskRunning w taskId then
        exists task,
          runningTasks w !! taskId = Some task
          /\ runningTasks (world ran) !! taskId = None
          /\ trace ran
             = [TASK_UPDATE (with_status task cancelled (Date_now (oracle env) (tick w)))]
      else world ran = w /\ trace ran = [])
  /\ cancelTask env taskId (world ran)
     = {| outcome := inl false; world := world ran; trace := [] |}.
Proof.
  intros ran. subst ran. rewrite !cancelTask_run. unfold isTaskRunning.
  destruct (runningTasks w !! taskId) as [task|] eqn:E.
  - destruct (is_running (task_status task)) eqn:R;
      cbn [outcome world trace runningTasks sessions].
    + rewrite lookup_delete_eq. repeat split.
      * intros other Hne. apply lookup_delete_ne. congruence.
      * exists task. repeat split.
    + rewrite E, R. repeat split.
  - cbn [outcome world trace]. rewrite E. repeat split.
Qed.

End StoreFacts.

Lemma addMessage_then_getMessages_witness :
  Server.sessions Samples.world_s1 !! js "s1" = Some Samples.session_s1
  /\ map (fun m => (role m, content m))
       (Server.getMessages
          (Server.world
             (Server.addMessage Samples.busy_env (js "s1") user (js "hi") Samples.world_s1))
          (js "s1") None)
     = [(user, js "hi")].
Proof.
  assert (H : Server.sessions Samples.world_s1 !! js "s1" = Some Samples.session_s1)
    by (vm_compute; reflexivity).
  split; [exact H|].
  destruct (addMessage_then_getMessages Samples.busy_env (js "s1") user (js "hi")
              Samples.world_s1 Samples.session_s1 H) as [_ [_ [Hg _]]].
  rewrite Hg. reflexivity.
Defined.

(** ** The loop of [processMessageStream] *)

Section LoopFacts.

Import Server Observations.

Variable env : Env.

Lemma getMessages_window (w : World) (sessionId : jsstring) (n : nat) :
  (length (getMessages w sessionId (Some (S n))) <= S n)%nat.
Proof.
  unfold getMessages. destruct (sessions w !! sessionId) as [session|]; [|cbn; lia].
  rewrite length_skipn. lia.
Qed.

Lemma tool_events_loop (tr : list Event) :
  Forall (fun e => tool_event e = true) tr -> Forall loop_event tr.
Proof.
  intros H. eapply Forall_impl; [exact H|].
  intros [] He; try discriminate He; exact I.
Qed.

Lemma callbacks_loop (tr : list Event) :
  Forall (fun e => callback_event e = true) tr -> Forall loop_event tr.
Proof.
  intros H. eapply Forall_impl; [exact H|].
  intros [] He; try discriminate He; exact I.
Qed.

Lemma stream_turn_loop (sessionId : jsstring) (currentRound : nat) (w : World) :
  Forall loop_event (trace (stream_turn env sessionId currentRound w)).
Proof.
  rewrite stream_turn_run. cbn [trace].
  constructor; [exact I|]. constructor.
  - split; [apply getMessages_window|reflexivity].
  - apply callbacks_loop, chunks_are_callbacks.
Qed.

Lemma stream_followUp_loop (sessionId : jsstring) (pending : list ToolCall) (w : World) :
  Forall loop_event (trace (stream_followUp env sessionId pending w)).
Proof.
  rewrite stream_followUp_run. cbn [trace]. apply Forall_app. split.
  - apply tool_events_loop, execute_pending_tool_events.
  - constructor.
    + split; [apply getMessages_window|reflexivity].
    + apply callbacks_loop, followUp_events_are_callbacks.
Qed.

Lemma round_loop (sessionId : jsstring) (currentRound : nat) (w : World) :
  Forall loop_event (trace (round env sessionId currentRound w)).
Proof.
  rewrite round_run. unfold round_outline.
  pose proof (stream_turn_loop sessionId currentRound w) as H1.
  destruct (outcome (stream_turn env sessionId currentRound w)) as [pending|e];
    [|exact H1].
  destruct (is_empty pending); [exact H1|].
  pose proof (stream_followUp_loop sessionId pending
                (world (stream_turn env sessionId currentRound w))) as H2.
  destruct (outcome (stream_followUp env sessionId pending
                       (world (stream_turn env sessionId currentRound w))))
    as [followUp|e]; cbn [trace].
  - destruct (repeated pending (fst followUp) (snd followUp)); cbn [trace].
    + apply Forall_app. split; [exact H1|]. apply Forall_app. split; [exact H2|].
      repeat constructor.
    + destruct (is_empty (snd followUp)); cbn [trace].
      * apply Forall_app. split; assumption.
      * apply Forall_app. split; [exact H1|]. apply Forall_app. split; [exact H2|].
        apply tool_events_loop, execute_new_tool_events.
  - apply Forall_app. split; assumption.
Qed.

Lemma rounds_loop (sessionId : jsstring) (left : nat) :
  forall currentRound w,
    Forall loop_event (trace (rounds env left sessionId currentRound w)).
Proof.
  induction left as [|left IH]; intros currentRound w; [constructor|].
  rewrite rounds_step. cbv zeta.
  pose proof (round_loop sessionId (S currentRound) w) as H.
  destruct (outcome (round env sessionId (S currentRound) w)) as [[|reason]|e];
    cbn [after trace]; try exact H.
  apply Forall_app. split; [exact H|apply IH].
Qed.

Lemma process_rounds_loop (sessionId content : jsstring) (w : World) :
  Forall loop_event (trace (process_rounds env sessionId content w)).
Proof. rewrite process_rounds_run. apply rounds_loop. Qed.

(** X18. [processMessageStream] never throws and calls exactly one of
    [onComplete] and [onError], as its last callback: every event before
    it is neither, and it is [onComplete] exactly when the rounds ended
    without an exception. *)
Theorem stream_run_ends_with_one_terminal_callback
  (sessionId content : jsstring) (w : World) :
  let ran := processMessageStream env sessionId content w in
  outcome ran = inl tt
  /\ exists body ending,
       trace ran = body ++ [ending]
       /\ terminal ending = true
       /\ Forall (fun e => terminal e = false) body
       /\ (ending = onComplete
           <-> exists n x, outcome (process_rounds env sessionId content w) = inl (n, x)).
Proof.
  intros ran. subst ran. rewrite processMessageStream_run. cbn [outcome trace].
  split; [reflexivity|].
  pose proof (process_rounds_loop sessionId content w) as Hloop.
  assert (Hbody : Forall (fun e => terminal e = false)
                    (trace (process_rounds env sessionId content w))).
  { eapply Forall_impl; [exact Hloop|]. intros [] He; try reflexivity; destruct He. }
  unfold closing.
  destruct (outcome (process_rounds env sessionId content w)) as [[n x]|e].
  - exists (trace (process_rounds env sessionId content w)
            ++ (if (maxRounds <=? n)%nat then [onChunk truncation_notice] else [])),
      onComplete.
    split; [rewrite app_assoc; reflexivity|]. split; [reflexivity|]. split.
    + apply Forall_app. split; [exact Hbody|].
      destruct (maxRounds <=? n)%nat; repeat constructor.
    + split; [intros _; exists n, x; reflexivity|reflexivity].
  - exists (trace (process_rounds env sessionId content w)), (onError e).
    split; [reflexivity|]. split; [reflexivity|]. split; [exact Hbody|].
    split; [discriminate|]. intros [n [x H]]. discriminate H.
Qed.

Lemma requests_app (a b : list Event) : requests (a ++ b) = requests a ++ requests b.
Proof. apply omap_app. Qed.

Lemma requests_loop (tr : list Event) :
  Forall loop_event tr ->
  Forall (fun hb => (length (fst hb) <= 20)%nat /\ snd hb = true) (requests tr).
Proof.
  induction 1 as [|e tr He _ IH]; [constructor|].
  destruct e; try exact IH.
  unfold requests. cbn. constructor; [exact He|exact IH].
Qed.

Lemma requests_closing (r : Ran (nat * Exit)) : requests (closing r) = [].
Proof.
  unfold closing. destruct (outcome r) as [[n x]|e]; [|reflexivity].
  destruct (maxRounds <=? n)%nat; reflexivity.
Qed.

(** X19. Every request [processMessageStream] sends to the AI service,
    in any round and after any tool run, carries at most the 20 latest
    messages of the session and asks for the tools. *)
Theorem requests_carry_bounded_history
  (sessionId content : jsstring) (w : World) :
  Forall (fun hb => (length (fst hb) <= 20)%nat /\ snd hb = true)
    (requests (trace (processMessageStream env sessionId content w))).
Proof.
  rewrite processMessageStream_run. cbn [trace].
  rewrite requests_app, requests_closing, app_nil_r.
  apply requests_loop, process_rounds_loop.
Qed.

Lemma requests_tool_events (tr : list Event) :
  Forall (fun e => tool_event e = true) tr -> requests tr = [].
Proof.
  intros H. unfold requests. apply omap_none. eapply Forall_impl; [exact H|].
  intros [] He; try discriminate He; reflexivity.
Qed.

Lemma requests_callbacks (tr : list Event) :
  Forall (fun e => callback_event e = true) tr -> requests tr = [].
Proof.
  intros H. unfold requests. apply omap_none. eapply Forall_impl; [exact H|].
  intros [] He; try discriminate He; reflexivity.
Qed.

Lemma requests_stream_turn (sessionId : jsstring) (currentRound : nat) (w : World) :
  length (requests (trace (stream_turn env sessionId currentRound w))) = 1%nat.
Proof.
  rewrite stream_turn_run. cbn [trace].
  change (S (length (requests (map onChunk (taken (chunks (turn_request env sessionId w))))))
          = 1%nat).
  rewrite requests_callbacks by apply chunks_are_callbacks. reflexivity.
Qed.

Lemma requests_stream_followUp (sessionId : jsstring) (pending : list ToolCall)
  (w : World) :
  length (requests (trace (stream_followUp env sessionId pending w))) = 1%nat.
Proof.
  rewrite stream_followUp_run. cbn [trace]. rewrite requests_app.
  rewrite requests_tool_events by apply execute_pending_tool_events.
  match goal with
  | |- length ([] ++ requests (stream_request ?h ?b :: ?tr)) = _ =>
    change (S (length (requests tr)) = 1%nat)
  end.
  rewrite requests_callbacks by apply followUp_events_are_callbacks. reflexivity.
Qed.

Lemma requests_round (sessionId : jsstring) (currentRound : nat) (w : World) :
  (1 <= length (requests (trace (round env sessionId currentRound w))) <= 2)%nat.
Proof.
  rewrite round_run. unfold round_outline.
  pose proof (requests_stream_turn sessionId currentRound w) as H1.
  destruct (outcome (stream_turn env sessionId currentRound w)) as [pending|e];
    [|cbn [trace]; lia].
  destruct (is_empty pending); [cbn [trace]; lia|].
  pose proof (requests_stream_followUp sessionId pending
                (world (stream_turn env sessionId currentRound w))) as H2.
  destruct (outcome (stream_followUp env sessionId pending
                       (world (stream_turn env sessionId currentRound w))))
    as [followUp|e]; cbn [trace].
  - destruct (repeated pending (fst followUp) (snd followUp)); cbn [trace].
    + rewrite !requests_app, !length_app.
      change (length (requests [onChunk completion_notice])) with 0%nat. lia.
    + destruct (is_empty (snd followUp)); cbn [trace].
      * rewrite !requests_app, !length_app. lia.
      * rewrite !requests_app, !length_app.
        rewrite (requests_tool_events _ (execute_new_tool_events env sessionId _ _)).
        cbn [length]. lia.
  - rewrite !requests_app, !length_app. lia.
Qed.

Lemma requests_rounds (sessionId : jsstring) (left : nat) :
  forall currentRound w,
    let tr := trace (rounds env left sessionId currentRound w) in
    (length (rounds_logged tr) <= length (requests tr) <= 2 * length (rounds_logged tr))%nat
    /\ (length (rounds_logged tr) <= left)%nat.
Proof.
  induction left as [|left IH]; intros currentRound w; [cbn; lia|].
  cbv zeta. rewrite rounds_step. cbv zeta.
  pose proof (requests_round sessionId (S currentRound) w) as H.
  pose proof (rounds_logged_round env sessionId (S currentRound) w) as Hl.
  destruct (outcome (round env sessionId (S currentRound) w)) as [[|reason]|e];
    cbn [after trace]; rewrite ?Hl; cbn [length]; try lia.
  rewrite requests_app, rounds_logged_app, !length_app, Hl. cbn [length].
  specialize (IH (S currentRound) (world (round env sessionId (S currentRound) w))).
  cbv zeta in IH. lia.
Qed.

Lemma rounds_logged_closing (r : Ran (nat * Exit)) : rounds_logged (closing r) = [].
Proof.
  unfold closing. destruct (outcome r) as [[n x]|e]; [|reflexivity].
  destruct (maxRounds <=? n)%nat; reflexivity.
Qed.

(** X20. [processMessageStream] sends at least one and at most two
    requests to the AI service in each round it logs, and logs at most
    5 rounds: one message of the user costs at most 10 requests. *)
Theorem at_most_two_requests_per_round
  (sessionId content : jsstring) (w : World) :
  let tr := trace (processMessageStream env sessionId content w) in
  (length (rounds_logged tr) <= length (requests tr))%nat
  /\ (length (requests tr) <= 2 * length (rounds_logged tr))%nat
  /\ (length (rounds_logged tr) <= 5)%nat
  /\ (length (requests tr) <= 10)%nat.
Proof.
  cbv zeta. rewrite processMessageStream_run. cbn [trace].
  rewrite requests_app, rounds_logged_app, requests_closing, rounds_logged_closing,
    !app_nil_r, process_rounds_run.
  pose proof (requests_rounds sessionId maxRounds 0
                (entered env sessionId content w)) as H.
  cbv zeta in H. unfold maxRounds in *. lia.
Qed.

End LoopFacts.

(** ** What [processMessageStream] does to the history *)

Section HistoryFacts.

Import Server Observations.

Variable env : Env.
Variable sessionId : jsstring.

Lemma grown_same (w w' : World) :
  known sessionId w -> sessions w' = sessions w -> grown sessionId w w' [].
Proof.
  intros [s Hs] He. split.
  - exists s, s. rewrite He. repeat split; try assumption.
    symmetry. apply app_nil_r.
  - intros other _. rewrite He. reflexivity.
Qed.

Lemma grown_trans (w w1 w2 : World) (a b : list Message) :
  grown sessionId w w1 a -> grown sessionId w1 w2 b -> grown sessionId w w2 (a ++ b).
Proof.
  intros [[s [s1 [Hs [Hs1 [Hi [Hc Hm]]]]]] Ho] [[s1' [s2 [Hs1' [Hs2 [Hi' [Hc' Hm']]]]]] Ho'].
  rewrite Hs1 in Hs1'. inversion Hs1'; subst s1'. split.
  - exists s, s2. repeat split; try assumption; try congruence.
    rewrite Hm', Hm. symmetry. apply app_assoc.
  - intros other Hne. rewrite Ho', Ho by exact Hne. reflexivity.
Qed.

Lemma grown_known (w w' : World) (added : list Message) :
  grown sessionId w w' added -> known sessionId w'.
Proof. intros [[s [s' [_ [Hs' _]]]] _]. exists s'. exact Hs'. Qed.

Lemma grown_message_added (r : MessageRole) (text : jsstring) (w : World) :
  known sessionId w ->
  grown sessionId w (message_added env sessionId r text w)
    [{| role := r; content := text;
        timestamp := Some (Date_now (oracle env) (tick w)) |}].
Proof.
  intros [s Hs]. unfold message_added. rewrite Hs. split.
  - exists s. eexists. split; [exact Hs|]. cbn [sessions].
    split; [apply lookup_insert_eq|]. repeat split.
  - intros other Hne. cbn [sessions]. apply lookup_insert_ne. congruence.
Qed.

Lemma context_count_app (a b : list Message) :
  context_count (a ++ b) = (context_count a + context_count b)%nat.
Proof. unfold context_count. rewrite List.filter_app, length_app. reflexivity. Qed.

(** Phases compose. *)
Lemma phase_then {A B C} (w : World) (r1 : Ran A) (r2 : Ran B) (r : Ran C) :
  phase sessionId w r1 -> phase sessionId (world r1) r2 ->
  world r = world r2 ->
  executed (trace r) = executed (trace r1) ++ executed (trace r2) ->
  phase sessionId w r.
Proof.
  intros [a [Ha [Hfa Hca]]] [b [Hb [Hfb Hcb]]] Hw Ht.
  exists (a ++ b). rewrite Hw, Ht. split; [eapply grown_trans; eassumption|].
  split; [apply Forall_app; split; assumption|].
  rewrite context_count_app, length_app. lia.
Qed.

Lemma phase_known {A} (w : World) (r : Ran A) :
  phase sessionId w r -> known sessionId (world r).
Proof. intros [a [Ha _]]. eapply grown_known, Ha. Qed.

Lemma phase_call (toolCall : ToolCall) (w : World) :
  known sessionId w ->
  grown sessionId w (call_world env sessionId toolCall w)
    [{| role := system;
        content := toolResultMessage toolCall (Some (call_result env toolCall w));
        timestamp := Some (Date_now (oracle env) (6 + tick w)) |}].
Proof.
  intros Hk. unfold call_world.
  set (w1 := executed_world env (call_task env toolCall w) (ticked 3 w)).
  assert (Hk1 : known sessionId w1) by (destruct Hk as [s Hs]; exists s; exact Hs).
  pose proof (grown_message_added system
                (toolResultMessage toolCall (Some (call_result env toolCall w))) w1 Hk1)
    as H.
  change (tick w1) with (6 + tick w)%nat in H.
  destruct H as [[s [s' [Hs [Hs' Hrest]]]] Ho]. split.
  - exists s, s'. split; [exact Hs|]. split; [exact Hs'|exact Hrest].
  - exact Ho.
Qed.

Lemma execute_pending_phase (toolCalls : list ToolCall) :
  forall w, known sessionId w -> phase sessionId w (execute_pending env sessionId toolCalls w).
Proof.
  induction toolCalls as [|tc rest IH]; intros w Hk.
  - exists []. split; [apply grown_same; [exact Hk|reflexivity]|].
    split; [constructor|reflexivity].
  - rewrite execute_pending_cons.
    pose proof (phase_call tc w Hk) as Hcall.
    destruct (IH (call_world env sessionId tc w) (grown_known _ _ _ Hcall))
      as [b [Hb [Hfb Hcb]]].
    eexists. cbn [after world trace]. split; [eapply grown_trans; eassumption|].
    split; [constructor; [exact I|exact Hfb]|].
    change (onToolCall tc :: call_events env tc w)
      with ([onToolCall tc] ++ call_events env tc w).
    rewrite !executed_app, !length_app.
    change (context_count ([_] ++ b)) with (S (context_count b)).
    rewrite Hcb. reflexivity.
Qed.

Lemma execute_new_phase (toolCalls : list ToolCall) :
  forall w, known sessionId w -> phase sessionId w (execute_new env sessionId toolCalls w).
Proof.
  induction toolCalls as [|tc rest IH]; intros w Hk.
  - exists []. split; [apply grown_same; [exact Hk|reflexivity]|].
    split; [constructor|reflexivity].
  - rewrite execute_new_cons.
    pose proof (phase_call tc w Hk) as Hcall.
    destruct (IH (call_world env sessionId tc w) (grown_known _ _ _ Hcall))
      as [b [Hb [Hfb Hcb]]].
    eexists. cbn [after world trace]. split; [eapply grown_trans; eassumption|].
    split; [constructor; [exact I|exact Hfb]|].
    rewrite !executed_app, !length_app.
    change (context_count ([_] ++ b)) with (S (context_count b)).
    rewrite Hcb. reflexivity.
Qed.

(** Storing the text of a turn appends at most one reply. *)
Lemma stored_grown (text : jsstring) (w w0 : World) :
  known sessionId w0 -> sessions w = sessions w0 ->
  exists added,
    grown sessionId w0 (stored env sessionId text w) added
    /\ Forall reply_message added /\ context_count added = 0%nat.
Proof.
  intros Hk He.
  assert (Hk' : known sessionId w) by (destruct Hk as [s Hs]; exists s; rewrite He; exact Hs).
  assert (H0 : grown sessionId w0 w []) by (apply grown_same; assumption).
  unfold stored. destruct (is_empty (clean text)) eqn:E.
  - exists []. split; [exact H0|]. split; [constructor|reflexivity].
  - eexists. split.
    + eapply (grown_trans _ _ _ [] _ H0). apply grown_message_added, Hk'.
    + split; [|reflexivity]. repeat constructor. unfold reply_message. cbn.
      intros Hc. rewrite Hc in E. discriminate.
Qed.

Lemma stream_turn_phase (currentRound : nat) (w : World) :
  known sessionId w -> phase sessionId w (stream_turn env sessionId currentRound w).
Proof.
  intros Hk. unfold phase. rewrite executed_stream_turn.
  rewrite stream_turn_run. cbn [world].
  destruct (pulled (turn_request env sessionId w)) as [[text calls]|e].
  - cbn [fst]. apply stored_grown; [exact Hk|reflexivity].
  - exists []. split; [apply grown_same; [exact Hk|reflexivity]|].
    split; [constructor|reflexivity].
Qed.

Lemma stream_followUp_phase (pending : list ToolCall) (w : World) :
  known sessionId w -> phase sessionId w (stream_followUp env sessionId pending w).
Proof.
  intros Hk. unfold phase. rewrite executed_stream_followUp.
  rewrite stream_followUp_run. cbv zeta. cbn [world].
  destruct (execute_pending_phase pending w Hk) as [a [Ha [Hfa Hca]]].
  destruct (execute_pending_all env sessionId pending w) as [_ [He _]].
  rewrite He in Hca.
  set (w1 := world (execute_pending env sessionId pending w)) in *.
  assert (Hk1 : known sessionId w1) by (eapply grown_known, Ha).
  destruct (pulled (turn_request env sessionId w1)) as [[text calls]|e].
  - cbn [fst].
    destruct (stored_grown text (ticked 1 w1) w1 Hk1 eq_refl) as [b [Hb [Hfb Hcb]]].
    exists (a ++ b). split; [exact (grown_trans _ _ _ _ _ Ha Hb)|].
    split; [apply Forall_app; split; assumption|].
    rewrite context_count_app. lia.
  - exists (a ++ []). split.
    + eapply grown_trans; [exact Ha|]. apply grown_same; [exact Hk1|reflexivity].
    + split; [rewrite app_nil_r; exact Hfa|]. rewrite app_nil_r. exact Hca.
Qed.

Lemma phase_weaken {A B} (w : World) (r : Ran A) (r' : Ran B) :
  phase sessionId w r -> world r' = world r -> executed (trace r') = executed (trace r) ->
  phase sessionId w r'.
Proof.
  intros [a [Ha [Hf Hc]]] Hw Ht. exists a. rewrite Hw, Ht.
  split; [exact Ha|]. split; [exact Hf|exact Hc].
Qed.

Lemma round_phase (currentRound : nat) (w : World) :
  known sessionId w -> phase sessionId w (round env sessionId currentRound w).
Proof.
  intros Hk. rewrite round_run. unfold round_outline.
  pose proof (stream_turn_phase currentRound w Hk) as H1.
  set (r1 := stream_turn env sessionId currentRound w) in *.
  destruct (outcome r1) as [pending|e];
    [|eapply phase_weaken; [exact H1|reflexivity|reflexivity]].
  destruct (is_empty pending);
    [eapply phase_weaken; [exact H1|reflexivity|reflexivity]|].
  pose proof (stream_followUp_phase pending (world r1) (phase_known _ _ H1)) as H2.
  set (r2 := stream_followUp env sessionId pending (world r1)) in *.
  destruct (outcome r2) as [followUp|e].
  - destruct (repeated pending (fst followUp) (snd followUp)).
    + eapply (phase_then w r1 r2); [exact H1|exact H2|reflexivity|].
      cbn [trace]. rewrite !executed_app. cbn. rewrite app_nil_r. reflexivity.
    + destruct (is_empty (snd followUp)).
      * eapply (phase_then w r1 r2); [exact H1|exact H2|reflexivity|].
        cbn [trace]. apply executed_app.
      * pose proof (execute_new_phase (snd followUp) (world r2) (phase_known _ _ H2))
          as H3.
        set (r3 := execute_new env sessionId (snd followUp) (world r2)) in *.
        assert (H12 : phase sessionId w
                        {| outcome := outcome r2; world := world r2;
                           trace := trace r1 ++ trace r2 |}).
        { eapply (phase_then w r1 r2); [exact H1|exact H2|reflexivity|].
          cbn [trace]. apply executed_app. }
        eapply (phase_then w _ r3); [exact H12|exact H3|reflexivity|].
        cbn [trace]. rewrite !executed_app. apply app_assoc.
  - eapply (phase_then w r1 r2); [exact H1|exact H2|reflexivity|].
    cbn [trace]. apply executed_app.
Qed.

Lemma rounds_phase (left : nat) :
  forall currentRound w,
    known sessionId w -> phase sessionId w (rounds env left sessionId currentRound w).
Proof.
  induction left as [|left IH]; intros currentRound w Hk.
  - exists []. split; [apply grown_same; [exact Hk|reflexivity]|].
    split; [constructor|reflexivity].
  - rewrite rounds_step. cbv zeta.
    pose proof (round_phase (S currentRound) w Hk) as H.
    set (r := round env sessionId (S currentRound) w) in *.
    destruct (outcome r) as [[|reason]|e];
      try (eapply phase_weaken; [exact H|reflexivity|reflexivity]).
    eapply (phase_then w r); [exact H|apply IH, (phase_known _ _ H)|reflexivity|].
    cbn [after trace]. apply executed_app.
Qed.

Lemma executed_closing (r : Ran (nat * Exit)) : executed (closing r) = [].
Proof.
  unfold closing. destruct (outcome r) as [[n x]|e]; [|reflexivity].
  destruct (maxRounds <=? n)%nat; reflexivity.
Qed.

(** X21. [processMessageStream] on an existing session only appends to
    its history: afterwards the history is the old one, then the message of
    the user stamped with the time of the call, then messages none of which
    has the role of the user, the assistant ones with a content that is not
    empty, and exactly one system message per tool call executed; the
    session keeps its id and its creation time, and no other session
    changes. *)
Theorem stream_run_appends_to_history
  (content : jsstring) (w : World) (session : ChatSession)
  (Hsession : sessions w !! sessionId = Some session) :
  let ran := processMessageStream env sessionId content w in
  exists added,
    getMessages (world ran) sessionId None
    = messages session
      ++ {| role := user; content := content;
            timestamp := Some (Date_now (oracle env) (tick w)) |} :: added
    /\ Forall reply_message added
    /\ context_count added = length (executed (trace ran))
    /\ (forall other, other <> sessionId ->
          getSession (world ran) other = getSession w other)
    /\ (exists session',
          getSession (world ran) sessionId = Some session'
          /\ session_id session' = session_id session
          /\ createdAt session' = createdAt session).
Proof.
  intros ran. subst ran. rewrite processMessageStream_run. cbn [world trace].
  rewrite executed_app, executed_closing, app_nil_r, process_rounds_run.
  assert (Hk : known sessionId w) by (exists session; exact Hsession).
  assert (Hentered : entered env sessionId content w
                     = message_added env sessionId user content w).
  { unfold entered. rewrite Hsession. reflexivity. }
  rewrite Hentered.
  pose proof (grown_message_added user content w Hk) as Hu.
  destruct (rounds_phase maxRounds 0 _ (grown_known _ _ _ Hu)) as [added [Hg [Hf Hc]]].
  exists added.
  pose proof (grown_trans _ _ _ _ _ Hu Hg) as [[s [s' [Hs [Hs' [Hi [Hcr Hm]]]]]] Ho].
  rewrite Hsession in Hs. inversion Hs; subst s.
  split; [|split; [exact Hf|split; [exact Hc|split]]].
  - unfold getMessages. rewrite Hs'. exact Hm.
  - exact Ho.
  - exists s'. split; [exact Hs'|]. split; assumption.
Qed.

End HistoryFacts.

Section HistoryWitnesses.

Import Server Observations Samples.

Lemma stream_run_appends_to_history_witness :
  sessions world_s1 !! js "s1" = Some session_s1
  /\ exists added,
       getMessages
         (world
            (processMessageStream busy_env (js "s1") (js "hi")
               world_s1))
         (js "s1") None
       = messages session_s1
         ++ {| role := user; content := js "hi";
               timestamp :=
                 Some (Date_now (oracle busy_env)
                         (tick world_s1)) |} :: added.
Proof.
  assert (H : sessions world_s1 !! js "s1" = Some session_s1)
    by (vm_compute; reflexivity).
  split; [exact H|].
  destruct (stream_run_appends_to_history busy_env (js "s1") (js "hi")
              world_s1 session_s1 H) as [added [Hg _]].
  exists added. exact Hg.
Defined.

End HistoryWitnesses.

(** ** One round, five rounds *)

Section MoreLoopFacts.

Import Server Observations.

Variable env : Env.

Lemma taken_no_calls (cs : list AIStreamChunk) :
  emitted_calls cs = [] -> emitted_calls (taken cs) = [].
Proof.
  induction cs as [|c cs IH]; [reflexivity|].
  rewrite emitted_calls_cons. intros H. apply app_eq_nil in H as [Hc Hr].
  cbn [taken]. destruct (isComplete c).
  - rewrite emitted_calls_cons, Hc. reflexivity.
  - rewrite emitted_calls_cons, Hc. exact (IH Hr).
Qed.

Lemma pulled_no_calls (g : Generated) :
  emitted_calls (chunks g) = [] ->
  match pulled g with inl tc => snd tc = [] | inr _ => True end.
Proof.
  intros H. apply taken_no_calls in H. unfold pulled.
  destruct (existsb isComplete (chunks g)); [exact H|].
  destruct (failure g); [exact I|exact H].
Qed.

(** X22. With a provider whose streams never carry a tool call,
    [processMessageStream] runs exactly one round: it sends one request,
    executes no tool, and when the stream does not fail the loop leaves
    after round 1 because the turn had no tool calls. *)
Theorem provider_without_calls_runs_one_round
  (sessionId content : jsstring) (w : World)
  (Hquiet : forall t msgs catalog,
      emitted_calls (chunks (provider_stream (provider env) t msgs catalog)) = []) :
  let ran := processMessageStream env sessionId content w in
  executed (trace ran) = []
  /\ rounds_logged (trace ran) = [1%nat]
  /\ length (requests (trace ran)) = 1%nat
  /\ (forall n x, outcome (process_rounds env sessionId content w) = inl (n, x) ->
        n = 1%nat /\ x = NoToolCalls).
Proof.
  intros ran. subst ran. rewrite processMessageStream_run. cbn [trace].
  assert (Hc : forall r : Ran (nat * Exit),
             executed (closing r) = [] /\ rounds_logged (closing r) = []
             /\ requests (closing r) = []).
  { intros r. unfold closing. destruct (outcome r) as [[n x]|e]; [|repeat split].
    destruct (maxRounds <=? n)%nat; repeat split. }
  destruct (Hc (process_rounds env sessionId content w)) as [Hc1 [Hc2 Hc3]].
  rewrite executed_app, rounds_logged_app, requests_app, Hc1, Hc2, Hc3, !app_nil_r.
  rewrite process_rounds_run. unfold maxRounds. rewrite rounds_step. cbv zeta.
  set (w0 := entered env sessionId content w).
  rewrite round_run. unfold round_outline.
  pose proof (stream_turn_run env sessionId 1 w0) as Hrun.
  pose proof (pulled_no_calls (turn_request env sessionId w0) (Hquiet _ _ _)) as Hp.
  assert (Hout : match outcome (stream_turn env sessionId 1 w0) with
                 | inl calls => calls = []
                 | inr _ => True
                 end).
  { rewrite Hrun. cbn [outcome].
    destruct (pulled (turn_request env sessionId w0)); exact Hp. }
  clear Hrun Hp.
  pose proof (requests_stream_turn env sessionId 1 w0) as Hreq.
  destruct (outcome (stream_turn env sessionId 1 w0)) as [calls|e].
  - subst calls. cbn [is_empty outcome trace].
    split; [apply executed_stream_turn|]. split; [apply rounds_logged_stream_turn|].
    split; [exact Hreq|]. intros n x H. inversion H. split; reflexivity.
  - cbn [outcome trace].
    split; [apply executed_stream_turn|]. split; [apply rounds_logged_stream_turn|].
    split; [exact Hreq|]. intros n x H. discriminate H.
Qed.

(** X23. When the loop of [processMessageStream] ends with the round
    counter at [maxRounds], whatever made it leave, the truncation notice
    is sent: the run ends with the notice followed by [onComplete], and the
    notice is the last text the user sees. *)
Theorem fifth_round_always_truncates
  (sessionId content : jsstring) (w : World) (x : Exit)
  (Hfive : outcome (process_rounds env sessionId content w) = inl (maxRounds, x)) :
  let ran := processMessageStream env sessionId content w in
  trace ran
  = trace (process_rounds env sessionId content w)
    ++ [onChunk truncation_notice; onComplete]
  /\ last (visible (trace ran)) = Some truncation_notice.
Proof.
  intros ran. subst ran. rewrite processMessageStream_run. cbn [trace].
  unfold closing. rewrite Hfive. cbn [Nat.leb maxRounds app].
  split; [reflexivity|].
  rewrite visible_app.
  change (visible [onChunk truncation_notice; onComplete]) with [truncation_notice].
  apply last_snoc.
Qed.

End MoreLoopFacts.

Section MoreLoopWitnesses.

Import Server Observations Samples.

Lemma provider_without_calls_runs_one_round_witness :
  (forall t msgs catalog,
      emitted_calls
        (chunks
           (provider_stream (provider ollama_env) t msgs catalog))
      = [])
  /\ executed
       (trace
          (processMessageStream ollama_env (js "s1") (js "hi")
             world_s1))
     = []
  /\ rounds_logged
       (trace
          (processMessageStream ollama_env (js "s1") (js "hi")
             world_s1))
     = [1%nat].
Proof.
  assert (Hquiet : forall t msgs catalog,
             emitted_calls
               (chunks
                  (provider_stream (provider ollama_env) t msgs
                     catalog))
             = []) by (intros; vm_compute; reflexivity).
  split; [exact Hquiet|].
  destruct (provider_without_calls_runs_one_round ollama_env (js "s1") (js "hi")
              world_s1 Hquiet) as [He [Hr _]].
  split; [exact He|exact Hr].
Defined.

Lemma fifth_round_always_truncates_witness :
  outcome
    (process_rounds patient_env (js "s1") (js "hi") world_s1)
  = inl (maxRounds, NoToolCalls)
  /\ last (visible
             (trace
                (processMessageStream patient_env (js "s1") (js "hi")
                   world_s1)))
     = Some truncation_notice.
Proof.
  assert (Hfive :
            outcome
              (process_rounds patient_env (js "s1") (js "hi")
                 world_s1)
            = inl (maxRounds, NoToolCalls)) by (vm_compute; reflexivity).
  split; [exact Hfive|].
  exact (proj2 (fifth_round_always_truncates patient_env (js "s1") (js "hi")
                  world_s1 NoToolCalls Hfive)).
Defined.

End MoreLoopWitnesses.

(** ** [processMessage] *)

Section ProcessMessageFacts.

Import Server Observations.

Variable env : Env.
Variable chat : ChatFn.

Lemma aiService_chat_run (history : list Message) (useTools : bool) (w : World) :
  aiService_chat env chat history useTools w
  = {| outcome :=
         match chat_request env chat history useTools w with
         | Returned response => inl response
         | Thrown e => inr e
         end;
       world := ticked 1 w; trace := [] |}.
Proof.
  unfold aiService_chat, chat_request. rewrite bind_run.
  cbn [next_tick outcome world trace]. unfold system_message.
  destruct (chat (tick w) _ _); reflexivity.
Qed.

Lemma execute_replied_cons (sessionId : jsstring) (toolCall : ToolCall)
  (rest : list ToolCall) (toolResults : list (option JValue)) (w : World) :
  execute_replied env sessionId (toolCall :: rest) toolResults w
  = after (replied_events env toolCall w)
      (execute_replied env sessionId rest
         (toolResults ++ [Some (call_result env toolCall w)])
         (replied_world env sessionId toolCall w)).
Proof.
  cbn [execute_replied].
  rewrite bind_run, createTask_run. cbn [outcome world trace].
  rewrite bind_run, execute_run. cbn [outcome world trace].
  rewrite bind_run, addMessage_run. cbn [outcome world trace].
  rewrite !after_after.
  rewrite !finished_result. reflexivity.
Qed.

Lemma execute_replied_all (sessionId : jsstring) (toolCalls : list ToolCall) :
  forall toolResults w,
    exists results,
      outcome (execute_replied env sessionId toolCalls toolResults w)
      = inl (toolResults ++ results)
      /\ length results = length toolCalls
      /\ Forall (fun r => r <> None) results
      /\ executed (trace (execute_replied env sessionId toolCalls toolResults w))
         = toolCalls.
Proof.
  induction toolCalls as [|tc rest IH]; intros toolResults w.
  - exists []. rewrite app_nil_r. repeat split. constructor.
  - rewrite execute_replied_cons. cbn [after outcome trace].
    destruct (IH (toolResults ++ [Some (call_result env tc w)])
                (replied_world env sessionId tc w)) as [results [Ho [Hl [Hf He]]]].
    exists (Some (call_result env tc w) :: results).
    split; [rewrite Ho, <- app_assoc; reflexivity|].
    split; [cbn [length]; rewrite Hl; reflexivity|].
    split; [constructor; [discriminate|exact Hf]|].
    rewrite executed_app, He. reflexivity.
Qed.

(** X24. When the first answer of [processMessage] asks for tool calls,
    every call is executed once, in order, each with a result; a second
    request is then made without tools on the 20 latest messages, and its
    answer is final: its content is the content of the reply, which lists
    the calls of the first answer with one result for each, and is stored
    as an assistant message.  Tool calls of the second answer are not
    executed. *)
Theorem processMessage_runs_every_call
  (sessionId content : jsstring) (w : World)
  (response followUpResponse : AIResponse) (toolCall : ToolCall) (rest : list ToolCall) :
  let w1 := entered env sessionId content w in
  let w2 :=
    message_added env sessionId assistant (response_content response) (ticked 1 w1) in
  let calls := execute_replied env sessionId (toolCall :: rest) [] w2 in
  forall
    (Hresponse :
       chat_request env chat (getMessages w1 sessionId (Some 20%nat)) true w1
       = Returned response)
    (Hcalls : response_toolCalls response = Some (toolCall :: rest))
    (HfollowUp :
       chat_request env chat (getMessages (world calls) sessionId (Some 20%nat)) false
         (world calls)
       = Returned followUpResponse),
    let ran := processMessage env chat sessionId content w in
    (exists toolResults,
        outcome ran
        = inl {| reply_content := response_content followUpResponse;
                 reply_toolCalls := Some (toolCall :: rest);
                 reply_toolResults := Some toolResults |}
        /\ length toolResults = length (toolCall :: rest)
        /\ Forall (fun r => r <> None) toolResults)
    /\ executed (trace ran) = toolCall :: rest
    /\ world ran
       = message_added env sessionId assistant (response_content followUpResponse)
           (ticked 1 (world calls)).
Proof.
  intros w1 w2 calls Hresponse Hcalls HfollowUp ran. subst ran.
  unfold processMessage.
  assert (Hstart :
    forall (k : M Reply),
      bind get_world (fun w0 =>
        bind (match sessions w0 !! sessionId with
              | Some _ => ret tt
              | None => bind (createSession env) (fun _ => ret tt)
              end)
          (fun _ => bind (addMessage env sessionId user content) (fun _ => k))) w
      = k w1).
  { intros k. rewrite bind_run. cbn [get_world outcome world trace].
    rewrite bind_run. subst w1. unfold entered.
    destruct (sessions w !! sessionId).
    - cbn [ret outcome world trace].
      rewrite bind_run, addMessage_run. cbn [outcome world trace].
      rewrite !after_nil. reflexivity.
    - rewrite bind_run, createSession_run. cbn [ret after outcome world trace].
      rewrite bind_run, addMessage_run. cbn [outcome world trace app].
      rewrite !after_nil. reflexivity. }
  rewrite Hstart. clear Hstart.
  rewrite bind_run. cbn [get_world outcome world trace]. rewrite after_nil.
  rewrite bind_run, aiService_chat_run, Hresponse. cbn [outcome world trace].
  rewrite after_nil.
  rewrite bind_run, addMessage_run. cbn [outcome world trace]. rewrite after_nil.
  fold w2. rewrite Hcalls.
  rewrite bind_run. fold calls.
  destruct (execute_replied_all sessionId (toolCall :: rest) [] w2)
    as [results [Ho [Hl [Hf He]]]].
  fold calls in Ho, He. rewrite Ho. cbn [app].
  rewrite bind_run. cbn [get_world outcome world trace]. rewrite after_nil.
  rewrite bind_run, aiService_chat_run, HfollowUp. cbn [outcome world trace].
  rewrite after_nil.
  rewrite bind_run, addMessage_run. cbn [outcome world trace]. rewrite after_nil.
  cbn [after ret outcome world trace]. rewrite app_nil_r.
  split; [|split; [exact He|reflexivity]].
  exists results. split; [reflexivity|]. split; assumption.
Qed.

(** X25. When the provider throws on the first request of
    [processMessage], the error reaches the caller, nothing is announced,
    and the message of the user stays at the end of the history of the
    session: it is part of the context of the next request. *)
Theorem processMessage_keeps_message_on_failure
  (sessionId content : jsstring) (w : World) (session : ChatSession) (e : JSError)
  (Hsession : sessions w !! sessionId = Some session)
  (Hfails :
     chat_request env chat
       (getMessages (entered env sessionId content w) sessionId (Some 20%nat)) true
       (entered env sessionId content w)
     = Thrown e) :
  let ran := processMessage env chat sessionId content w in
  outcome ran = inr e
  /\ trace ran = []
  /\ getMessages (world ran) sessionId None
     = messages session
       ++ [{| role := user; content := content;
              timestamp := Some (Date_now (oracle env) (tick w)) |}].
Proof.
  intros ran. subst ran. unfold processMessage.
  rewrite bind_run. cbn [get_world outcome world trace].
  rewrite bind_run. rewrite Hsession. cbn [ret outcome world trace].
  rewrite bind_run, addMessage_run. cbn [outcome world trace].
  rewrite !after_nil.
  rewrite bind_run. cbn [get_world outcome world trace]. rewrite after_nil.
  assert (Hw : entered env sessionId content w
               = message_added env sessionId user content w).
  { unfold entered. rewrite Hsession. reflexivity. }
  rewrite Hw in Hfails.
  rewrite bind_run, aiService_chat_run, Hfails. cbn [outcome world trace].
  split; [reflexivity|]. split; [reflexivity|].
  unfold getMessages, message_added. rewrite Hsession. cbn [ticked sessions].
  rewrite lookup_insert_eq. reflexivity.
Qed.

End ProcessMessageFacts.

Section ProcessMessageWitnesses.

Import Server Observations Samples.

Lemma processMessage_runs_every_call_witness :
  executed
    (trace
       (processMessage busy_env calling_chat (js "s1") (js "hi")
          world_s1))
  = [call_unknown; call_known].
Proof.
  exact (proj1 (proj2
    (processMessage_runs_every_call busy_env calling_chat
       (js "s1") (js "hi") world_s1
       {| response_content := js "正在处理";
          response_toolCalls := Some [call_unknown; call_known] |}
       {| response_content := js "已完成";
          response_toolCalls := Some [call_known] |}
       call_unknown [call_known]
       eq_refl eq_refl eq_refl))).
Defined.

Lemma processMessage_keeps_message_on_failure_witness :
  sessions world_s1 !! js "s1" = Some session_s1
  /\ outcome
       (processMessage busy_env failing_chat (js "s1") (js "hi")
          world_s1)
     = inr (Error (js "connect ECONNREFUSED")).
Proof.
  assert (H : sessions world_s1 !! js "s1" = Some session_s1)
    by (vm_compute; reflexivity).
  split; [exact H|].
  exact (proj1
    (processMessage_keeps_message_on_failure busy_env failing_chat
       (js "s1") (js "hi") world_s1 session_s1
       (Error (js "connect ECONNREFUSED")) H eq_refl)).
Defined.

End ProcessMessageWitnesses.

(** ** The path check of the file tool *)

Section FileToolFacts.

Import Observations Samples.
Import FileTool.







End FileToolFacts.

(** ** The configuration and the provider factory *)

Section ConfigFacts.

Import Samples.
Import Providers Config AIService.

Variable toLowerCase : jsstring -> jsstring.

Lemma or_default_nonempty (value : option jsstring) (fallback : jsstring) :
  nonempty fallback = true -> nonempty (or_default value fallback) = true.
Proof. intros H. destruct value as [[|c s]|]; try exact H. reflexivity. Qed.

Lemma validateConfig_returns (env : ProcessEnv) :
  validateConfig env = Returned tt ->
  nonempty (ai_apiKey (getConfig env)) = true
  /\ In (ai_provider (getConfig env)) supportedProviders.
Proof.
  unfold validateConfig. cbv zeta.
  destruct (nonempty (ai_apiKey (getConfig env))); [|discriminate].
  destruct (existsb (str_eqb (ai_provider (getConfig env))) supportedProviders) eqn:E;
    [|discriminate].
  intros _. split; [reflexivity|].
  apply existsb_exists in E as [p [Hin Hp]].
  apply str_eqb_eq in Hp. rewrite Hp. exact Hin.
Qed.

(** X27. A configuration that [validateConfig] accepts has an API key, and
    the constructor of [AIService] creates a provider from it, handing it
    that key, unless the provider is [zhipu]: [validateConfig] accepts
    that name and [createProvider] throws on it. *)
Theorem validated_provider_is_created_unless_zhipu (env : ProcessEnv)
  (Hengine : forall s, forallb is_ascii s = true -> toLowerCase s = ascii_lower s)
  (Hvalid : validateConfig env = Returned tt) :
  let config := getConfig env in
  ai_apiKey config <> []
  /\ match constructor toLowerCase env with
     | Returned (_, handed) =>
       ai_provider config <> js "zhipu"
       /\ In (ai_provider config) getSupportedProviders
       /\ apiKey handed = ai_apiKey config
     | Thrown e =>
       ai_provider config = js "zhipu"
       /\ e = Error (js "不支持的 AI 提供者: zhipu")
     end.
Proof.
  intros config. subst config.
  destruct (validateConfig_returns env Hvalid) as [Hkey Hin].
  split; [intros H; rewrite H in Hkey; discriminate|].
  unfold constructor, createProvider. cbv zeta.
  unfold supportedProviders in Hin. cbn [In] in Hin.
  destruct Hin as [H|[H|[H|[H|[H|[H|[]]]]]]]; rewrite <- H;
    match goal with
    | |- context [toLowerCase ?s] => rewrite (Hengine s eq_refl)
    end;
    match goal with
    | |- context [ascii_lower ?s] =>
      let v := eval vm_compute in (ascii_lower s) in
      change (ascii_lower s) with v
    end.
  all: repeat match goal with
       | |- context [str_eqb ?a ?b] =>
         let v := eval vm_compute in (str_eqb a b) in
         change (str_eqb a b) with v
       end; cbn [orb apiKey].
  all: try (split; [discriminate|split; [vm_compute; tauto|reflexivity]]).
  split; reflexivity.
Qed.

(** X28. The model that the constructor of [AIService] hands to the
    provider it creates is [AI_MODEL] when that variable is set and not
    empty and [deepseek-chat] otherwise, whatever the provider is: it is
    never empty, and the default models of [getDefaultModel] are never
    used. *)
Theorem service_model_ignores_provider_default
  (env : ProcessEnv) (class : ProviderClass) (handed : ProviderConfig)
  (Hcreated : constructor toLowerCase env = Returned (class, handed)) :
  model handed = or_default (env (js "AI_MODEL")) (js "deepseek-chat")
  /\ model handed <> []
  /\ (env (js "AI_MODEL") = None -> model handed = js "deepseek-chat").
Proof.
  assert (Hm : model handed = ai_model (getConfig env)).
  { unfold constructor, createProvider in Hcreated. cbv zeta in Hcreated.
    assert (Hn : nonempty (ai_model (getConfig env)) = true)
      by (apply or_default_nonempty; reflexivity).
    rewrite Hn in Hcreated.
    repeat match type of Hcreated with
           | (if ?c then _ else _) = _ => destruct c
           end;
      inversion Hcreated; reflexivity. }
  rewrite Hm. cbn [getConfig ai_model].
  split; [reflexivity|]. split.
  - intros H. pose proof (or_default_nonempty (env (js "AI_MODEL")) (js "deepseek-chat")
                            eq_refl) as Hn.
    rewrite H in Hn. discriminate Hn.
  - intros ->. reflexivity.
Qed.

End ConfigFacts.

Section ConfigWitnesses.

Import Samples.
Import Providers Config AIService.

Lemma validated_provider_is_created_unless_zhipu_witness :
  validateConfig zhipu_env = Returned tt
  /\ ai_apiKey (getConfig zhipu_env) <> []
  /\ constructor ascii_lower zhipu_env = Thrown (Error (js "不支持的 AI 提供者: zhipu")).
Proof.
  assert (Hvalid : validateConfig zhipu_env = Returned tt) by (vm_compute; reflexivity).
  split; [exact Hvalid|]. split; [|vm_compute; reflexivity].
  exact (proj1 (validated_provider_is_created_unless_zhipu ascii_lower zhipu_env
                  (fun _ _ => eq_refl) Hvalid)).
Defined.

Lemma service_model_ignores_provider_default_witness :
  constructor ascii_lower claude_env
  = Returned (Claude, {| apiKey := js "sk-1"; model := js "deepseek-chat";
                         baseURL := None |})
  /\ model {| apiKey := js "sk-1"; model := js "deepseek-chat"; baseURL := None |}
     = or_default (claude_env (js "AI_MODEL")) (js "deepseek-chat").
Proof.
  assert (H : constructor ascii_lower claude_env
              = Returned (Claude, {| apiKey := js "sk-1"; model := js "deepseek-chat";
                                     baseURL := None |}))
    by (vm_compute; reflexivity).
  split; [exact H|].
  exact (proj1 (service_model_ignores_provider_default ascii_lower claude_env _ _ H)).
Defined.

End ConfigWitnesses.
